(** * redis-cerberus: the proxy core (src/proxy.cpp)

    A shallow embedding of the event handlers of [proxy.cpp]: the
    acceptor, the client sessions and the singleton upstream session
    ([Server]), together with the kernel objects they talk to (the epoll
    interest list and the sockets, seen through a log of system calls).

    Heap objects are kept in a store indexed by pointers, so that the
    aliasing between [Server::clients], [Server::ready_clients],
    [Client::peer], [Proxy::server_conn] and the [data.ptr] field of the
    epoll registrations is the aliasing of the program. *)

From Stdlib Require Import ZArith List Bool Lia.
From Stdlib Require Import Strings.Byte Strings.String.
From stdpp Require Import base option list gmap.

Local Open Scope Z_scope.

(** ** Bytes *)

Abbreviation byte := Byte.byte.

Definition CR : byte := Byte.x0d.
Definition LF : byte := Byte.x0a.

(** The bytes of an ASCII text, and the same followed by CRLF. *)
Definition bytes (s : string) : list byte := list_byte_of_string s.
Definition line (s : string) : list byte := bytes s ++ [CR; LF].

(** ** Byte buffer ([cerb::Buffer], declared in buffer.hpp) *)

Module Buffer.

(** Modelled from the spec: the class [Buffer] of buffer.hpp is not
    part of the sources at hand.  The spec describes it as a growable
    byte container; only the operations [proxy.cpp] calls are given,
    each after the spec's description of it. *)
Definition t := list byte.

Definition empty : t := [].

(** [size()] *)
Definition size (b : t) : Z := Z.of_nat (length b).

(** [clear()] *)
Definition clear (b : t) : t := [].

(** [read(fd)] appends the bytes the socket delivers until it would
    block and returns how many there were; [data] is what the socket
    delivers during the call. *)
Definition read (data : list byte) (b : t) : Z * t :=
  (Z.of_nat (length data), b ++ data).

(** [write(fd)] drains the buffer to the socket: the bytes written. *)
Definition write (b : t) : list byte := b.

(** [truncate_from_begin(i)] (the spec's [truncate_prefix]) drops the
    bytes before offset [i] and keeps the remainder. *)
Definition truncate_from_begin (i : nat) (b : t) : t := drop i b.

(** [buffer_ready(iov)] (the spec's [scatter_view]) adds a range over
    the bytes of the buffer to the scatter list; the buffer is only
    viewed. *)
Definition buffer_ready (b : t) (iov : list (list byte)) : list (list byte) :=
  iov ++ [b].

(** [copy_from(first, last)] (the spec's [append(range)]) appends the
    bytes of the range. *)
Definition copy_from (range : list byte) (b : t) : t := b ++ range.

End Buffer.

(** ** Result of framing ([msg::split], declared in message.hpp) *)

(** A framed message is the pair of offsets [(range_begin, range_end)]
    of its bytes in the buffer that was split. *)
Definition Message : Type := nat * nat.

Record SplitResult := mkSplit {
  messages : list Message;     (* begin() .. end(), size() of them *)
  finished : bool;             (* finished() *)
  interrupt_point : nat        (* interrupt_point(), an offset *)
}.

(** The bytes between [range_begin()] and [range_end()]. *)
Definition range_bytes (buf : list byte) (m : Message) : list byte :=
  take (m.2 - m.1)%nat (drop m.1 buf).

(** Modelled from the spec: the invariant of a Parse Result.  The
    messages are consecutive ranges starting at offset 0; a finished
    parse consumed the buffer exactly; otherwise the interrupt point is
    the offset of the first byte after the last complete message, where
    a partial message begins. *)
Fixpoint tiles (from : nat) (ms : list Message) : option nat :=
  match ms with
  | [] => Some from
  | (b, e) :: ms' =>
      if ((b =? from)%nat && (b <? e)%nat)%bool then tiles e ms' else None
  end.

Definition split_result_ok (buf : list byte) (r : SplitResult) : bool :=
  match tiles 0 (messages r) with
  | None => false
  | Some k =>
      if finished r then (k =? length buf)%nat
      else ((interrupt_point r =? k)%nat && (k <? length buf)%nat)%bool
  end.

(** ** A RESP framer *)

Module Resp.

(** Modelled from the spec: [msg::split] of message.hpp is not part
    of the sources at hand.  The spec's framer recognises the five
    RESP types, each terminated by CRLF; the length prefix of a bulk
    string gives its payload length (plus a trailing CRLF); an array
    frames its elements recursively; a buffer that ends inside a
    frame is not finished and the interrupt point is the start of the
    partial frame; a malformed prefix is BAD_MESSAGE ([None]). *)

Inductive Frame := Complete (len : nat) | Partial | Bad.

(** Offset just after the first CRLF. *)
Fixpoint find_crlf (l : list byte) : option nat :=
  match l with
  | [] => None
  | c :: rest =>
      match c, rest with
      | Byte.x0d, Byte.x0a :: _ => Some 2%nat
      | _, _ => S <$> find_crlf rest
      end
  end.

Definition digit (c : byte) : option Z :=
  let n := Z.of_N (Byte.to_N c) in
  if (48 <=? n) && (n <=? 57) then Some (n - 48) else None.

Fixpoint digits (acc : Z) (l : list byte) : option Z :=
  match l with
  | [] => Some acc
  | c :: rest =>
      match digit c with
      | Some d => digits (10 * acc + d) rest
      | None => None
      end
  end.

(** A decimal integer with an optional minus sign. *)
Definition number (l : list byte) : option Z :=
  match l with
  | [] => None
  | Byte.x2d :: (_ :: _) as ds => Z.opp <$> digits 0 ds
  | _ => digits 0 l
  end.

(** [count] frames in a row, each framed by [frame1]. *)
Fixpoint frames (frame1 : list byte → Frame) (count : nat) (l : list byte) : Frame :=
  match count with
  | O => Complete 0
  | S count' =>
      match frame1 l with
      | Complete n =>
          match frames frame1 count' (drop n l) with
          | Complete m => Complete (n + m)
          | r => r
          end
      | r => r
      end
  end.

(** One frame at the front of [l]; [depth] bounds the nesting of
    arrays. *)
Fixpoint frame (depth : nat) (l : list byte) : Frame :=
  match l with
  | [] => Partial
  | t :: rest =>
      match t with
      | Byte.x2b | Byte.x2d | Byte.x3a =>          (* + - : *)
          match find_crlf rest with
          | Some k => Complete (1 + k)
          | None => Partial
          end
      | Byte.x24 =>                                (* $ *)
          match find_crlf rest with
          | None => Partial
          | Some k =>
              match number (take (k - 2) rest) with
              | None => Bad
              | Some len =>
                  if len <? 0 then Complete (1 + k)
                  else
                    let body := drop k rest in
                    let n := Z.to_nat len in
                    if (length body <? n + 2)%nat then Partial
                    else
                      match drop n body with
                      | Byte.x0d :: Byte.x0a :: _ => Complete (1 + k + n + 2)
                      | _ => Bad
                      end
              end
          end
      | Byte.x2a =>                                (* * *)
          match find_crlf rest with
          | None => Partial
          | Some k =>
              match number (take (k - 2) rest) with
              | None => Bad
              | Some cnt =>
                  if cnt <? 0 then Complete (1 + k)
                  else
                    match depth with
                    | O => Bad
                    | S depth' =>
                        match frames (frame depth') (Z.to_nat cnt) (drop k rest) with
                        | Complete m => Complete (1 + k + m)
                        | r => r
                        end
                    end
              end
          end
      | _ => Bad
      end
  end.

(** The frames of [l], which starts at offset [off] of the buffer. *)
Fixpoint split_from (fuel : nat) (off : nat) (l : list byte) : option SplitResult :=
  match l with
  | [] => Some (mkSplit [] true off)
  | _ :: _ =>
      match frame (length l) l with
      | Bad => None
      | Partial => Some (mkSplit [] false off)
      | Complete n =>
          match fuel with
          | O => None
          | S fuel' =>
              r ← split_from fuel' (off + n) (drop n l);
              Some (mkSplit ((off, (off + n)%nat) :: messages r)
                            (finished r) (interrupt_point r))
          end
      end
  end.

Definition split (buf : list byte) : option SplitResult :=
  split_from (length buf) 0 buf.

End Resp.

(** ** Kernel interface *)

(** Event bits of sys/epoll.h. *)
Definition EPOLLIN : Z := 0x001.
Definition EPOLLOUT : Z := 0x004.
Definition EPOLLERR : Z := 0x008.
Definition EPOLLHUP : Z := 0x010.
Definition EPOLLRDHUP : Z := 0x2000.
Definition EPOLLET : Z := Z.shiftl 1 31.

(** Pointers to [Connection] objects; a nullable pointer is an
    [option ptr], [None] being [nullptr]. *)
Definition ptr := N.

(** [struct epoll_event]: the mask and [data.ptr]. *)
Record epoll_event := mkEvent {
  events : Z;
  data_ptr : ptr
}.

(** System calls made by the handlers, with their results. *)
Inductive Syscall :=
| sys_accept (ret : Z)
| sys_socket (ret : Z)
| sys_connect (fd : Z) (ok : bool)
| sys_read (fd : Z) (data : list byte)
| sys_write (fd : Z) (data : list byte)
| sys_writev (fd : Z) (iov : list (list byte)) (ret : Z)
| sys_epoll_add (fd : Z) (ev : epoll_event) (ret : Z)
| sys_epoll_mod (fd : Z) (ev : epoll_event) (ret : Z)
| sys_epoll_del (fd : Z) (ret : Z)
| sys_close (fd : Z).

(** What the kernel answers during the handling of one readiness
    event. *)
Record Env := mkEnv {
  env_read : list byte;          (* bytes Buffer::read finds on the socket *)
  env_writev : list (Z * bool);  (* results of the successive writev calls:
                                    return value, and errno == EAGAIN *)
  env_accept : list Z;           (* results of the successive accept calls *)
  env_accept_fatal : bool;       (* errno of a failed accept is none of
                                    EAGAIN, ECONNABORTED, EPROTO, EINTR *)
  env_socket : Z;                (* result of socket() *)
  env_fcntl : bool;              (* the fcntl calls succeed *)
  env_gethostbyname : bool;      (* the host resolves *)
  env_connect : bool             (* connect returns 0 or EINPROGRESS *)
}.

(** ** Objects of proxy.hpp *)

(** Modelled from the spec: proxy.hpp is not part of the sources at
    hand; the members are those [proxy.cpp] uses.  A client has the one
    [buffer]: [proxy.cpp] reads the requests into it, hands it to the
    [writev] of the upstream session, has the replies copied to it and
    writes it back to the client (the spec speaks of a request buffer
    and a reply buffer). *)
Record Client := mkClient {
  c_fd : Z;
  buffer : Buffer.t;
  peer : option ptr
}.

Record Server := mkServer {
  s_fd : Z;
  _buffer : Buffer.t;
  clients : list (option ptr);
  ready_clients : list (option ptr)
}.

Inductive Connection :=
| AnAcceptor (fd : Z)
| AServer (s : Server)
| AClient (c : Client).

Definition fd_of (c : Connection) : Z :=
  match c with
  | AnAcceptor fd => fd
  | AServer s => s_fd s
  | AClient c => c_fd c
  end.

(** The process: the [Proxy] object ([epfd], [server_conn]), the live
    [Connection] objects, and the log of system calls. *)
Record Process := mkProcess {
  epoll : gmap Z epoll_event;    (* interest list of Proxy::epfd *)
  server_conn : option ptr;      (* Proxy::server_conn *)
  heap : gmap ptr Connection;    (* objects created by new, not deleted *)
  brk : ptr;                     (* next address handed out by new *)
  syscalls : list Syscall
}.

Definition set_epoll (f : gmap Z epoll_event → gmap Z epoll_event) (st : Process) :=
  mkProcess (f (epoll st)) (server_conn st) (heap st) (brk st) (syscalls st).
Definition set_server_conn (s : option ptr) (st : Process) :=
  mkProcess (epoll st) s (heap st) (brk st) (syscalls st).
Definition set_heap (f : gmap ptr Connection → gmap ptr Connection) (st : Process) :=
  mkProcess (epoll st) (server_conn st) (f (heap st)) (brk st) (syscalls st).
Definition set_brk (b : ptr) (st : Process) :=
  mkProcess (epoll st) (server_conn st) (heap st) b (syscalls st).
Definition log (c : Syscall) (st : Process) :=
  mkProcess (epoll st) (server_conn st) (heap st) (brk st) (syscalls st ++ [c]).

(** ** The monad of handlers *)

Inductive Result (A : Type) :=
| Ok (a : A) (st : Process)       (* the call returns *)
| Exit (code : Z) (st : Process)  (* exit(code) was called *)
| Spin (st : Process)             (* a loop that does not end *)
| Undefined.                      (* a dangling or null pointer was used *)
Arguments Ok {A} a st.
Arguments Exit {A} code st.
Arguments Spin {A} st.
Arguments Undefined {A}.

Definition M (A : Type) : Type := Process → Result A.

#[export] Instance M_ret : MRet M := λ A a st, Ok a st.
#[export] Instance M_bind : MBind M := λ A B f m st,
  match m st with
  | Ok a st' => f a st'
  | Exit code st' => Exit code st'
  | Spin st' => Spin st'
  | Undefined => Undefined
  end.

Definition gets {A} (f : Process → A) : M A := λ st, Ok (f st) st.
Definition modify (f : Process → Process) : M unit := λ st, Ok tt (f st).
Definition exit {A} (code : Z) : M A := λ st, Exit code st.
Definition spin {A} : M A := λ st, Spin st.
Definition undefined {A} : M A := λ _, Undefined.

(** Dereferencing. *)
Definition deref (p : option ptr) : M ptr :=
  match p with
  | Some a => mret a
  | None => undefined
  end.

Definition get_client (p : ptr) : M Client := λ st,
  match heap st !! p with
  | Some (AClient c) => Ok c st
  | _ => Undefined
  end.

Definition get_server (p : ptr) : M Server := λ st,
  match heap st !! p with
  | Some (AServer s) => Ok s st
  | _ => Undefined
  end.

Definition put (p : ptr) (c : Connection) : M unit :=
  modify (set_heap <[p := c]>).

(** [new]: a fresh address. *)
Definition new (c : Connection) : M ptr := λ st,
  Ok (brk st) (set_brk (N.succ (brk st)) (set_heap <[brk st := c]> st)).

Definition free (p : ptr) : M unit :=
  modify (set_heap (delete p)).

(** *** System calls *)

(** [epoll_ctl]: EPOLL_CTL_ADD fails on a registered descriptor (EEXIST),
    EPOLL_CTL_MOD and EPOLL_CTL_DEL on one that is not (ENOENT). *)
Definition epoll_ctl_add (fd : Z) (ev : epoll_event) : M Z := λ st,
  match epoll st !! fd with
  | Some _ => Ok (-1) (log (sys_epoll_add fd ev (-1)) st)
  | None => Ok 0 (log (sys_epoll_add fd ev 0) (set_epoll <[fd := ev]> st))
  end.

Definition epoll_ctl_mod (fd : Z) (ev : epoll_event) : M Z := λ st,
  match epoll st !! fd with
  | Some _ => Ok 0 (log (sys_epoll_mod fd ev 0) (set_epoll <[fd := ev]> st))
  | None => Ok (-1) (log (sys_epoll_mod fd ev (-1)) st)
  end.

Definition epoll_ctl_del (fd : Z) : M Z := λ st,
  let r := match epoll st !! fd with Some _ => 0 | None => -1 end in
  Ok r (log (sys_epoll_del fd r) (set_epoll (delete fd) st)).

(** [close]: the kernel drops a closed descriptor from the interest
    list. *)
Definition close (fd : Z) : M unit :=
  modify (λ st, log (sys_close fd) (set_epoll (delete fd) st)).

(** ** The handlers of proxy.cpp *)

Definition flag (mask bit : Z) : bool := negb (Z.land mask bit =? 0).

(** [rint] converts a size to the integer type of message counts. *)
Definition rint (n : nat) : Z := Z.of_nat n.

(** [set_nonblocking]: two [fcntl] calls, [exit(1)] when one fails. *)
Definition set_nonblocking (env : Env) (sockfd : Z) : M unit :=
  if env_fcntl env then mret tt else exit 1.

(** *** [Server::push_client], [pop_client_from], [Server::pop_client] *)

Definition Server_push_client (this cli : ptr) : M unit :=
  srv ← get_server this;
  put this (AServer (mkServer (s_fd srv) (_buffer srv)
                              (clients srv ++ [Some cli]) (ready_clients srv))).

(** [std::find_if] then [erase] of the position found. *)
Definition pop_client_from (clients : list (option ptr)) (cli : ptr)
  : list (option ptr) :=
  match list_find (λ c, c = Some cli) clients with
  | Some (i, _) => delete i clients
  | None => clients
  end.

(** [std::replace(first, last, cli, nullptr)]. *)
Definition replace_null (cli : ptr) (l : list (option ptr)) : list (option ptr) :=
  (λ c, if decide (c = Some cli) then None else c) <$> l.

Definition Server_pop_client (this cli : ptr) : M unit :=
  srv ← get_server this;
  put this (AServer (mkServer (s_fd srv) (_buffer srv)
                              (pop_client_from (clients srv) cli)
                              (replace_null cli (ready_clients srv)))).

(** *** [Proxy::shut_server], [Proxy::shut_client] and the destructors *)

Definition Proxy_shut_server (svr : ptr) : M unit :=
  modify (set_server_conn None).

Definition Proxy_shut_client (cli : ptr) : M unit :=
  conn ← gets server_conn;
  match conn with
  | Some svr => Server_pop_client svr cli
  | None => mret tt
  end;;
  c ← get_client cli;
  epoll_ctl_del (c_fd c);;
  mret tt.

(** [delete] of a [Client]: [~Client], then [~Connection] closes the
    descriptor, then the storage is released. *)
Definition delete_Client (this : ptr) : M unit :=
  Proxy_shut_client this;;
  c ← get_client this;
  close (c_fd c);;
  free this.

(** [delete] of a [Server]: [~Server], then [~Connection]. *)
Definition delete_Server (this : ptr) : M unit :=
  Proxy_shut_server this;;
  s ← get_server this;
  close (s_fd s);;
  free this.

(** *** [Proxy::notify_each] *)

Fixpoint Proxy_notify_each (range : list (option ptr)) : M unit :=
  match range with
  | [] => mret tt
  | None :: range' => Proxy_notify_each range'
  | Some cli :: range' =>
      c ← get_client cli;
      r ← epoll_ctl_mod (c_fd c)
            (mkEvent (Z.lor (Z.lor EPOLLIN EPOLLOUT) EPOLLET) cli);
      if r =? -1 then exit 1 else Proxy_notify_each range'
  end.

(** *** [Proxy::connect_to] *)

Definition Proxy_connect_to (env : Env) : M ptr :=
  conn ← gets server_conn;
  match conn with
  | Some svr => mret svr
  | None =>
      let fd := env_socket env in
      modify (log (sys_socket fd));;
      if fd <? 0 then exit 1 else
      set_nonblocking env fd;;
      if negb (env_gethostbyname env) then exit 1 else
      c ← new (AServer (mkServer fd Buffer.empty [] []));
      modify (set_server_conn (Some c));;
      r ← epoll_ctl_add fd
            (mkEvent (Z.lor (Z.lor EPOLLIN EPOLLOUT) EPOLLET) c);
      if r =? -1 then exit 1 else
      modify (log (sys_connect fd (env_connect env)));;
      if negb (env_connect env) then exit 1 else
      mret c
  end.

(** *** [Proxy::accept_from] *)

Fixpoint accept_loop (env : Env) (results : list Z) : M Z :=
  match results with
  | [] => modify (log (sys_accept (-1)));; mret (-1)
  | conn_sock :: results' =>
      modify (log (sys_accept conn_sock));;
      if conn_sock >? 0 then
        set_nonblocking env conn_sock;;
        c ← new (AClient (mkClient conn_sock Buffer.empty None));
        r ← epoll_ctl_add conn_sock
              (mkEvent (Z.lor (Z.lor EPOLLIN EPOLLET) EPOLLRDHUP) c);
        if r =? -1 then exit 1 else accept_loop env results'
      else mret conn_sock
  end.

Definition Proxy_accept_from (env : Env) (listen_fd : Z) : M unit :=
  conn_sock ← accept_loop env (env_accept env);
  if (conn_sock =? -1) && env_accept_fatal env then exit 1 else mret tt.

Definition Acceptor_triggered (env : Env) (this : ptr) (events : Z) : M unit :=
  st ← gets heap;
  match st !! this with
  | Some (AnAcceptor fd) => Proxy_accept_from env fd
  | _ => undefined
  end.

(** *** [Server::_send_to] *)

(** The [for_each] over [ready_clients]: the scatter list and the total
    size ([int n] is taken without its wrap-around). *)
Fixpoint gather (cs : list (option ptr)) (iov : list (list byte)) (n : Z)
  : M (list (list byte) * Z) :=
  match cs with
  | [] => mret (iov, n)
  | c :: cs' =>
      p ← deref c;
      cli ← get_client p;
      gather cs' (Buffer.buffer_ready (buffer cli) iov)
             (n + Buffer.size (buffer cli))
  end.

(** The [while (true)] around [writev]. *)
Fixpoint writev_loop (fd : Z) (iov : list (list byte)) (n : Z)
    (results : list (Z * bool)) : M unit :=
  match results with
  | [] => spin
  | (nwrite, eagain) :: results' =>
      modify (log (sys_writev fd iov nwrite));;
      if (nwrite <=? 0) && eagain then writev_loop fd iov n results'
      else if negb (nwrite =? n) then exit 1
      else mret tt
  end.

Definition Server__send_to (env : Env) (this : ptr) : M unit :=
  srv ← get_server this;
  if bool_decide (clients srv = []) then mret tt
  else if negb (bool_decide (ready_clients srv = [])) then mret tt
  else
    let ready := clients srv in
    put this (AServer (mkServer (s_fd srv) (_buffer srv) [] ready));;
    '(iov, n) ← gather ready [] 0;
    writev_loop (s_fd srv) iov n (env_writev env);;
    r ← epoll_ctl_mod (s_fd srv) (mkEvent (Z.lor EPOLLIN EPOLLET) this);
    if r =? -1 then exit 1 else mret tt.

(** *** [copy_messages] *)

(** [client_it] is an offset into [ready], the vector the iterator
    walks; [buf] is the buffer the ranges point into. *)
Fixpoint copy_messages (buf : list byte) (ready : list (option ptr))
    (client_it : nat) (range : list Message) : M nat :=
  match range with
  | [] => mret client_it
  | m :: range' =>
      match ready !! client_it with
      | None => undefined
      | Some None => copy_messages buf ready (S client_it) range'
      | Some (Some cli) =>
          c ← get_client cli;
          put cli (AClient (mkClient (c_fd c)
                     (Buffer.copy_from (range_bytes buf m) (buffer c))
                     (peer c)));;
          copy_messages buf ready (S client_it) range'
      end
  end.

(** The [for_each] that prints the pending clients before [exit(1)]:
    every entry of [ready_clients] is dereferenced for its buffer. *)
Fixpoint report_clients (cs : list (option ptr)) : M unit :=
  match cs with
  | [] => mret tt
  | c :: cs' =>
      cli ← deref c;
      get_client cli;;
      report_clients cs'
  end.

Section Handlers.

(** [msg::split]: the framer, [None] when it throws
    [BadRedisMessage]. *)
Variable split : list byte → option SplitResult.

(** *** [Server::_recv_from] *)

Definition Server__recv_from (env : Env) (this : ptr) : M unit :=
  srv ← get_server this;
  let '(n, buf) := Buffer.read (env_read env) (_buffer srv) in
  modify (log (sys_read (s_fd srv) (env_read env)));;
  put this (AServer (mkServer (s_fd srv) buf (clients srv) (ready_clients srv)));;
  if n =? 0 then mret tt else
  match split buf with
  | None => exit 1
  | Some msgs =>
      if Z.of_nat (length (messages msgs)) >? rint (length (ready_clients srv))
      then report_clients (ready_clients srv);; exit 1 else
      client_it ← copy_messages buf (ready_clients srv) 0 (messages msgs);
      Proxy_notify_each (take client_it (ready_clients srv));;
      put this (AServer (mkServer (s_fd srv)
                  (if finished msgs then Buffer.clear buf
                   else Buffer.truncate_from_begin (interrupt_point msgs) buf)
                  (clients srv)
                  (drop client_it (ready_clients srv))));;
      r ← epoll_ctl_mod (s_fd srv)
            (mkEvent (Z.lor (Z.lor EPOLLIN EPOLLOUT) EPOLLET) this);
      if r =? -1 then exit 1 else mret tt
  end.

(** *** [Server::triggered] *)

Definition Server_triggered (env : Env) (this : ptr) (events : Z) : M unit :=
  if flag events EPOLLRDHUP then delete_Server this
  else
    (if flag events EPOLLIN then Server__recv_from env this else mret tt);;
    (if flag events EPOLLOUT then Server__send_to env this else mret tt).

(** *** [Client::_send_to] *)

Definition Client__send_to (this : ptr) : M unit :=
  c ← get_client this;
  modify (log (sys_write (c_fd c) (Buffer.write (buffer c))));;
  put this (AClient (mkClient (c_fd c) (Buffer.clear (buffer c)) (peer c)));;
  r ← epoll_ctl_mod (c_fd c) (mkEvent (Z.lor EPOLLIN EPOLLET) this);
  if r =? -1 then exit 1 else mret tt.

(** *** [Client::_recv_from] *)

Definition Client__recv_from (env : Env) (this : ptr) : M unit :=
  c ← get_client this;
  svr ← match peer c with
        | None =>
            p ← Proxy_connect_to env;
            put this (AClient (mkClient (c_fd c) (buffer c) (Some p)));;
            mret p
        | Some p => mret p
        end;
  Server_push_client svr this;;
  c ← get_client this;
  let '(n, buf) := Buffer.read (env_read env) (buffer c) in
  modify (log (sys_read (c_fd c) (env_read env)));;
  put this (AClient (mkClient (c_fd c) buf (peer c)));;
  if n =? 0 then delete_Client this else
  s ← get_server svr;
  r ← epoll_ctl_mod (s_fd s)
        (mkEvent (Z.lor (Z.lor EPOLLIN EPOLLOUT) EPOLLET) svr);
  if r =? -1 then exit 1 else mret tt.

(** *** [Client::triggered] *)

Definition Client_triggered (env : Env) (this : ptr) (events : Z) : M unit :=
  if flag events EPOLLRDHUP then delete_Client this
  else
    (if flag events EPOLLIN then Client__recv_from env this else mret tt);;
    (if flag events EPOLLOUT then Client__send_to this else mret tt).

(** *** The body of the [for] in [loop] *)

(** [conn->triggered(p, events)] on the object [data.ptr] points to,
    by its dynamic type. *)
Definition triggered (env : Env) (conn : ptr) (events : Z) : M unit :=
  h ← gets heap;
  match h !! conn with
  | Some (AnAcceptor _) => Acceptor_triggered env conn events
  | Some (AServer _) => Server_triggered env conn events
  | Some (AClient _) => Client_triggered env conn events
  | None => undefined
  end.

End Handlers.

(** ** The reactor *)

(** One readiness event returned by [epoll_wait]: the descriptor it is
    for, the event bits, and the kernel's answers while it is handled. *)
Record Event := mkEv {
  ev_fd : Z;
  ev_events : Z;
  ev_env : Env
}.

(** The kernel reports, for a registered descriptor, bits among those
    asked for, and EPOLLERR and EPOLLHUP which are always reported
    (EPOLLET is a flag of the registration, not an event). *)
Definition reportable (interest reported : Z) : bool :=
  (0 <=? reported) &&
  (Z.land reported
     (Z.lnot (Z.lor (Z.land interest (Z.lnot EPOLLET)) (Z.lor EPOLLERR EPOLLHUP)))
   =? 0).

Section Reactor.

Variable split : list byte → option SplitResult.

(** The body of the [for] in [loop], for the event [e]: the handler
    of the object found in [data.ptr] runs. *)
Definition dispatch (e : Event) : M unit :=
  regs ← gets epoll;
  match regs !! ev_fd e with
  | Some reg => triggered split (ev_env e) (data_ptr reg) (ev_events e)
  | None => mret tt
  end.

Fixpoint run (es : list Event) : M unit :=
  match es with
  | [] => mret tt
  | e :: es' => dispatch e;; run es'
  end.

(** The state in which [Proxy::run] enters its loop: the acceptor
    lives at address 0 and its descriptor is registered. *)
Definition init (listen_fd : Z) : Process :=
  mkProcess {[ listen_fd := mkEvent (Z.lor EPOLLIN EPOLLET) 0%N ]}
            None
            {[ 0%N := AnAcceptor listen_fd ]}
            1%N
            [].

(** [epoll_wait] may return [e]: its descriptor is registered and its
    bits can be reported for that registration. *)
Definition may_report (st : Process) (e : Event) : bool :=
  match epoll st !! ev_fd e with
  | Some reg => reportable (events reg) (ev_events e)
  | None => false
  end.

Definition step (st : Process) (e : Event) (st' : Process) : Prop :=
  may_report st e = true ∧ dispatch e st = Ok tt st'.

Inductive reachable : Process → Prop :=
| reach_init listen_fd : reachable (init listen_fd)
| reach_step st e st' : reachable st → step st e st' → reachable st'.

End Reactor.

(** ** Scenarios *)

Definition quiet : Env := mkEnv [] [] [] false (-1) true true true.
Definition accepting (fds : list Z) : Env := mkEnv [] [] fds false (-1) true true true.
Definition reading (data : list byte) (sock : Z) : Env :=
  mkEnv data [] [] false sock true true true.
Definition writing (n : Z) : Env := mkEnv [] [(n, false)] [] false (-1) true true true.

Definition ping : list byte := line "*1" ++ line "$4" ++ line "PING".
Definition pong : list byte := line "+PONG".

Definition get_x : list byte :=
  line "*2" ++ line "$3" ++ line "GET" ++ line "$1" ++ line "x".
Definition nil_reply : list byte := line "$-1".

(** The events [es] handled one after the other from [st], each
    checked to be one the kernel may report. *)
Fixpoint reach_by (split : list byte → option SplitResult)
    (es : list Event) (st : Process) : option Process :=
  match es with
  | [] => Some st
  | e :: es' =>
      if may_report st e then
        match dispatch split e st with
        | Ok _ st' => reach_by split es' st'
        | _ => None
        end
      else None
  end.

(** The state reached from the start by the events [es] with the RESP
    framer (the listening descriptor is 3). *)
Definition state_after (es : list Event) : Process :=
  default (init 3) (reach_by Resp.split es (init 3)).

(** A client (descriptor 5, address 1) is accepted and sends a PING;
    the upstream session (descriptor 6, address 2) is created. *)
Definition staged_events : list Event :=
  [ mkEv 3 EPOLLIN (accepting [5]);
    mkEv 5 EPOLLIN (reading ping 6) ].

(** The upstream becomes writable: the request is sent. *)
Definition pending_events : list Event :=
  staged_events ++ [ mkEv 6 EPOLLOUT (writing 14) ].

(** The client hangs up before the reply (scenario S5). *)
Definition hup_events : list Event :=
  pending_events ++ [ mkEv 5 EPOLLRDHUP quiet ].

(** The client sends two PINGs at once, they are written upstream, and
    the client hangs up before the replies. *)
Definition pipelined_hup_events : list Event :=
  [ mkEv 3 EPOLLIN (accepting [5]);
    mkEv 5 EPOLLIN (reading (ping ++ ping) 6);
    mkEv 6 EPOLLOUT (writing 28);
    mkEv 5 EPOLLRDHUP quiet ].

(** The client sends again before the upstream is writable. *)
Definition twice_staged_events : list Event :=
  staged_events ++ [ mkEv 5 EPOLLIN (reading ping (-1)) ].

(** Two clients A (descriptor 5, address 1) and B (descriptor 7,
    address 2); A sends a PING, B a GET; the upstream session has
    descriptor 6 and address 3 (scenario S3). *)
Definition two_staged_events : list Event :=
  [ mkEv 3 EPOLLIN (accepting [5; 7]);
    mkEv 5 EPOLLIN (reading ping 6);
    mkEv 7 EPOLLIN (reading get_x (-1)) ].

Definition two_pending_events : list Event :=
  two_staged_events ++ [ mkEv 6 EPOLLOUT (writing 34) ].

(** ** Vocabulary of the properties *)

(** How many entries of a queue are the client [cli]. *)
Definition occurrences (cli : ptr) (l : list (option ptr)) : nat :=
  length (filter (λ c, c = Some cli) l).

(** [wp m Q st]: if [m] returns from [st], the result satisfies [Q].
    [twp m Q st]: [m] returns from [st], and the result satisfies [Q]. *)
Definition wp {A} (m : M A) (Q : A → Process → Prop) (st : Process) : Prop :=
  match m st with
  | Ok a st' => Q a st'
  | _ => True
  end.

Definition twp {A} (m : M A) (Q : A → Process → Prop) (st : Process) : Prop :=
  ∃ a st', m st = Ok a st' ∧ Q a st'.

(** The state in which a call ends, when there is one. *)
Definition outcome_state {A} (r : Result A) : option Process :=
  match r with
  | Ok _ st | Exit _ st | Spin st => Some st
  | Undefined => None
  end.

(** [st] with the system calls [cs] added to its log. *)
Definition logs (cs : list Syscall) (st : Process) : Process :=
  mkProcess (epoll st) (server_conn st) (heap st) (brk st) (syscalls st ++ cs).

(** The bytes a staged client has in its buffer. *)
Definition request_of (st : Process) (c : option ptr) : option Buffer.t :=
  p ← c;
  match heap st !! p with
  | Some (AClient cl) => Some (buffer cl)
  | _ => None
  end.

Definition total_size (bufs : list Buffer.t) : Z :=
  foldr (λ b acc, Buffer.size b + acc) 0 bufs.

(** A failed attempt of the [writev] loop. *)
Definition retried (fd : Z) (iov : list (list byte)) (c : Syscall) : Prop :=
  ∃ r, c = sys_writev fd iov r ∧ r ≤ 0.

(** The bytes of the messages [ms] that go to the client [p] when the
    k-th message goes to the k-th entry of [ready]: the ranges at the
    positions where [ready] holds [p], in order. *)
Fixpoint routed (buf : list byte) (p : ptr) (ready : list (option ptr))
    (ms : list Message) {struct ms} : list byte :=
  match ms, ready with
  | m :: ms', c :: ready' =>
      (if decide (c = Some p) then range_bytes buf m else [])
        ++ routed buf p ready' ms'
  | _, _ => []
  end.

(** A client with [bs] appended to its buffer; other objects as they
    are. *)
Definition append_to (bs : list byte) (c : Connection) : Connection :=
  match c with
  | AClient c => AClient (mkClient (c_fd c) (buffer c ++ bs) (peer c))
  | o => o
  end.

(** An entry of pending to which a reply can be handed: a null
    pointer, or a live client whose descriptor is registered. *)
Definition notifiable (st : Process) (c : option ptr) : bool :=
  match c with
  | None => true
  | Some p =>
      match heap st !! p with
      | Some (AClient cl) => bool_decide (is_Some (epoll st !! c_fd cl))
      | _ => false
      end
  end.

Definition is_epoll_mod (c : Syscall) : Prop :=
  ∃ fd ev r, c = sys_epoll_mod fd ev r.

(** [server_conn] is null or points to a live upstream session. *)
Definition server_conn_live (st : Process) : Prop :=
  ∀ s, server_conn st = Some s → ∃ srv, heap st !! s = Some (AServer srv).

(** The two masks the upstream descriptor is registered with. *)
Definition server_mask (m : Z) : Prop :=
  m = Z.lor (Z.lor EPOLLIN EPOLLOUT) EPOLLET ∨ m = Z.lor EPOLLIN EPOLLET.

(** The invariant of the reactor loop.
    - every live object has its descriptor in the interest list, with
      [data.ptr] pointing back to it, and an upstream session is
      registered with one of its two masks;
    - the only live upstream session is the one [server_conn] points to;
    - the entries of pending that are not null point to live clients;
    - the addresses in use are below the next one to be handed out;
    - [server_conn], when not null, points to a live upstream
      session. *)
Record wf (st : Process) : Prop := mkWf {
  wf_registered : ∀ p c, heap st !! p = Some c →
    ∃ reg, epoll st !! fd_of c = Some reg ∧ data_ptr reg = p
           ∧ (∀ s, c = AServer s → server_mask (events reg));
  wf_singleton : ∀ p s, heap st !! p = Some (AServer s) → server_conn st = Some p;
  wf_pending : ∀ p s q, heap st !! p = Some (AServer s) →
    Some q ∈ ready_clients s → ∃ c, heap st !! q = Some (AClient c);
  wf_brk : ∀ p, is_Some (heap st !! p) → (p < brk st)%N;
  wf_conn : server_conn_live st
}.

(** The live client sessions, and the clients pending refers to. *)
Definition is_client (c : Connection) : bool :=
  match c with
  | AClient _ => true
  | _ => false
  end.

Definition live_clients (st : Process) : gset ptr :=
  dom (filter (λ kv, is_client kv.2 = true) (heap st)).

Definition pending_clients (srv : Server) : gset ptr :=
  list_to_set (omap id (ready_clients srv)).

(** ** [Proxy::run] and [loop] *)




(** What [epoll_wait] returns to [loop]: a batch of events, -1 with
    EINTR, or -1 with another error. *)
Inductive Wait :=
| Ready (es : list Event)
| Interrupted
| Failed.

(** [loop]: one [epoll_wait] and the [for] over its events. *)
Definition loop (split : list byte → option SplitResult) (w : Wait) : M unit :=
  match w with
  | Failed => exit 1
  | Interrupted => mret tt
  | Ready es => run split es
  end.

(** A reply is routed to the client, which then closes: the kernel
    reports the client readable and writable, and the read finds the
    end of the stream. *)
Definition replied_events : list Event :=
  pending_events ++ [ mkEv 6 EPOLLIN (reading pong (-1)) ].

(** The client is staged twice and hangs up. *)
Definition twice_staged_hup_events : list Event :=
  twice_staged_events ++ [ mkEv 5 EPOLLRDHUP quiet ].

(** Every registration of the interest list carries in [data.ptr] the
    address of a live object, whose descriptor is the registered
    one. *)
Definition regs_live (st : Process) : Prop :=
  ∀ fd reg, epoll st !! fd = Some reg →
    ∃ c, heap st !! data_ptr reg = Some c ∧ fd_of c = fd.

(** What [Proxy::connect_to] needs to return when it has to create the
    upstream session: a descriptor from [socket], [fcntl] succeeding, a
    host that resolves, a descriptor not yet in the interest list, and
    a [connect] that succeeds or is in progress. *)
Definition can_connect (env : Env) (st : Process) : Prop :=
  0 ≤ env_socket env ∧ env_fcntl env = true ∧ env_gethostbyname env = true
  ∧ epoll st !! env_socket env = None ∧ env_connect env = true.

(** The state in which it then returns: the session lives at the next
    free address. *)
Definition connected (env : Env) (st : Process) : Process :=
  let fd := env_socket env in
  let ev := mkEvent (Z.lor (Z.lor EPOLLIN EPOLLOUT) EPOLLET) (brk st) in
  mkProcess (<[fd := ev]> (epoll st)) (Some (brk st))
    (<[brk st := AServer (mkServer fd [] [] [])]> (heap st))
    (N.succ (brk st))
    (syscalls st ++ [sys_socket fd; sys_epoll_add fd ev 0; sys_connect fd true]).

(** After the reply of the PING has reached the client's buffer, and
    before the client is written to, the client sends a GET; the
    upstream becomes writable. *)
Definition resent_events : list Event :=
  replied_events ++ [ mkEv 5 EPOLLIN (reading get_x (-1));
                      mkEv 6 EPOLLOUT (writing 41) ].

(** * Reasoning about handlers *)

Lemma bind_unfold {A B} (m : M A) (f : A → M B) st :
  (m ≫= f) st = match m st with
                | Ok a st' => f a st'
                | Exit code st' => Exit code st'
                | Spin st' => Spin st'
                | Undefined => Undefined
                end.
Proof. reflexivity. Qed.

Lemma wp_bind {A B} (m : M A) (f : A → M B) Q st :
  wp m (λ a st', wp (f a) Q st') st → wp (m ≫= f) Q st.
Proof. unfold wp. rewrite bind_unfold. by destruct (m st). Qed.

Lemma wp_mono {A} (m : M A) (Q Q' : A → Process → Prop) st :
  (∀ a st', Q a st' → Q' a st') → wp m Q st → wp m Q' st.
Proof. unfold wp. destruct (m st); auto. Qed.

Lemma wp_elim {A} (m : M A) Q st a st' :
  wp m Q st → m st = Ok a st' → Q a st'.
Proof. unfold wp. intros H E. by rewrite E in H. Qed.

Lemma twp_bind {A B} (m : M A) (f : A → M B) Q st :
  twp m (λ a st', twp (f a) Q st') st → twp (m ≫= f) Q st.
Proof.
  intros (a & st' & Hm & b & st'' & Hf & HQ).
  exists b, st''. split; [|done].
  transitivity (match m st with
                | Ok a st' => f a st'
                | Exit code st' => Exit code st'
                | Spin st' => Spin st'
                | Undefined => Undefined
                end); [reflexivity|]. by rewrite Hm.
Qed.

Lemma twp_ret {A} (a : A) (Q : A → Process → Prop) st : Q a st → twp (mret a) Q st.
Proof. intros. by exists a, st. Qed.

(** * The framer on the scenarios of the spec *)

Example resp_pong :
  Resp.split (line "+PONG") = Some (mkSplit [(0, 7)%nat] true 7).
Proof. reflexivity. Qed.

Example resp_partial :
  Resp.split (bytes "+PO") = Some (mkSplit [] false 0).
Proof. reflexivity. Qed.

Example resp_two :
  Resp.split (line "+PONG" ++ line "$-1" ++ bytes "*2")
  = Some (mkSplit [(0, 7)%nat; (7, 12)%nat] false 12).
Proof. reflexivity. Qed.

Example resp_array :
  Resp.split (line "*2" ++ line "$3" ++ line "GET" ++ line "$1" ++ line "x")
  = Some (mkSplit [(0, 20)%nat] true 20).
Proof. vm_compute. reflexivity. Qed.

Example resp_garbage : Resp.split (line "@garbage") = None.
Proof. reflexivity. Qed.

(** * The queues: [pop_client_from] and [std::replace] *)

Lemma pop_client_from_cons c l cli :
  pop_client_from (c :: l) cli
  = if decide (c = Some cli) then l else c :: pop_client_from l cli.
Proof.
  unfold pop_client_from. simpl. case_decide; [done|].
  by destruct (list_find _ l) as [[i y]|].
Qed.

Lemma pop_client_from_absent l cli :
  Some cli ∉ l → pop_client_from l cli = l.
Proof.
  induction l as [|c l IH]; [done|].
  rewrite not_elem_of_cons. intros [Hc Hl].
  rewrite pop_client_from_cons. case_decide; [congruence|].
  by rewrite IH.
Qed.

Lemma pop_client_from_first l1 l2 cli :
  Some cli ∉ l1 → pop_client_from (l1 ++ Some cli :: l2) cli = l1 ++ l2.
Proof.
  induction l1 as [|c l1 IH]; simpl.
  - intros _. rewrite pop_client_from_cons. by case_decide.
  - rewrite not_elem_of_cons. intros [Hc Hl].
    rewrite pop_client_from_cons. case_decide; [congruence|].
    by rewrite IH.
Qed.

(** A queue that holds [cli] splits at its first occurrence. *)
Lemma first_occurrence (l : list (option ptr)) cli :
  Some cli ∈ l → ∃ l1 l2, l = l1 ++ Some cli :: l2 ∧ Some cli ∉ l1.
Proof.
  induction l as [|c l IH]; [by rewrite elem_of_nil|].
  destruct (decide (c = Some cli)) as [->|Hne].
  - intros _. exists [], l. split; [done|]. apply not_elem_of_nil.
  - rewrite elem_of_cons. intros [Heq|Hin]; [congruence|].
    destruct (IH Hin) as (l1 & l2 & -> & Hl1).
    exists (c :: l1), l2. split; [done|].
    rewrite not_elem_of_cons. split; congruence.
Qed.

Lemma occurrences_app cli l1 l2 :
  occurrences cli (l1 ++ l2) = (occurrences cli l1 + occurrences cli l2)%nat.
Proof. unfold occurrences. by rewrite filter_app, length_app. Qed.

Lemma occurrences_cons cli c l :
  occurrences cli (c :: l)
  = ((if decide (c = Some cli) then 1 else 0) + occurrences cli l)%nat.
Proof.
  unfold occurrences. rewrite filter_cons. by case_decide.
Qed.

Lemma occurrences_pos cli l :
  (0 < occurrences cli l)%nat ↔ Some cli ∈ l.
Proof.
  induction l as [|c l IH].
  - rewrite elem_of_nil. unfold occurrences. simpl. lia.
  - rewrite occurrences_cons, elem_of_cons.
    case_decide; [subst; intuition lia|].
    simpl. rewrite IH. intuition congruence.
Qed.

Lemma length_replace_null cli l : length (replace_null cli l) = length l.
Proof. unfold replace_null. by rewrite length_fmap. Qed.

Lemma lookup_replace_null cli l i c :
  l !! i = Some c →
  replace_null cli l !! i = Some (if decide (c = Some cli) then None else c).
Proof. intros H. unfold replace_null. by rewrite list_lookup_fmap, H. Qed.

Lemma replace_null_gone cli l : Some cli ∉ replace_null cli l.
Proof.
  unfold replace_null. rewrite list_elem_of_fmap.
  intros (c & Hc & _). by case_decide.
Qed.

Lemma Server_pop_client_run this cli srv st :
  heap st !! this = Some (AServer srv) →
  Server_pop_client this cli st
  = Ok tt (set_heap <[this := AServer (mkServer (s_fd srv) (_buffer srv)
                                 (pop_client_from (clients srv) cli)
                                 (replace_null cli (ready_clients srv)))]> st).
Proof.
  intros H. unfold Server_pop_client. rewrite bind_unfold.
  unfold get_server. by rewrite H.
Qed.

(** C6.  [pop_client(c)] on the upstream session: [c] is taken out of
    staging ([clients]) at its first occurrence, if it has one; in
    pending ([ready_clients]) every entry equal to [c] becomes the null
    pointer where it stands, the length of pending and every other
    entry stay as they were; nothing else of the session changes. *)
Theorem pop_client_tombstones (this cli : ptr) (srv : Server) (st : Process) :
  heap st !! this = Some (AServer srv) →
  ∃ srv',
    Server_pop_client this cli st = Ok tt (set_heap <[this := AServer srv']> st)
    ∧ s_fd srv' = s_fd srv ∧ _buffer srv' = _buffer srv
    ∧ (Some cli ∉ clients srv → clients srv' = clients srv)
    ∧ (∀ l1 l2, clients srv = l1 ++ Some cli :: l2 → Some cli ∉ l1 →
         clients srv' = l1 ++ l2)
    ∧ length (ready_clients srv') = length (ready_clients srv)
    ∧ (∀ i c, ready_clients srv !! i = Some c →
         ready_clients srv' !! i = Some (if decide (c = Some cli) then None else c)).
Proof.
  intros H. eexists. split; [by apply Server_pop_client_run|]. simpl.
  repeat split.
  - apply pop_client_from_absent.
  - intros l1 l2 -> Hl1. by apply pop_client_from_first.
  - apply length_replace_null.
  - intros i c. apply lookup_replace_null.
Qed.

(** C10.  When the client is in staging [n >= 2] times, one
    [pop_client] takes out the first of these entries only: [n - 1]
    remain; in pending every entry of the client is made null. *)
Theorem pop_client_removes_first_only (this cli : ptr) (srv : Server)
    (st : Process) (n : nat) :
  heap st !! this = Some (AServer srv) →
  occurrences cli (clients srv) = n →
  (2 ≤ n)%nat →
  ∃ srv' l1 l2,
    Server_pop_client this cli st = Ok tt (set_heap <[this := AServer srv']> st)
    ∧ clients srv = l1 ++ Some cli :: l2
    ∧ (Some cli ∉ l1)
    ∧ clients srv' = l1 ++ l2
    ∧ occurrences cli (clients srv') = (n - 1)%nat
    ∧ Some cli ∈ clients srv'
    ∧ (∀ i, ready_clients srv !! i = Some (Some cli) →
         ready_clients srv' !! i = Some None)
    ∧ Some cli ∉ ready_clients srv'.
Proof.
  intros H Hn Hge.
  assert (Hin : Some cli ∈ clients srv) by (apply occurrences_pos; lia).
  destruct (first_occurrence _ _ Hin) as (l1 & l2 & Hsplit & Hl1).
  eexists _, l1, l2. split; [by apply Server_pop_client_run|]. simpl.
  assert (Hpop : pop_client_from (clients srv) cli = l1 ++ l2)
    by (rewrite Hsplit; by apply pop_client_from_first).
  assert (Hcount : occurrences cli (l1 ++ l2) = (n - 1)%nat).
  { rewrite <- Hn, Hsplit, !occurrences_app, occurrences_cons.
    case_decide; [lia|done]. }
  repeat split; try done.
  - by rewrite Hpop.
  - rewrite Hpop. apply occurrences_pos. lia.
  - intros i Hi. rewrite (lookup_replace_null _ _ _ _ Hi). by case_decide.
  - apply replace_null_gone.
Qed.

(** * Steps of the monad *)

Lemma twp_gets {A} (f : Process → A) (Q : A → Process → Prop) st :
  Q (f st) st → twp (gets f) Q st.
Proof. intros. by exists (f st), st. Qed.

Lemma twp_modify f (Q : unit → Process → Prop) st :
  Q tt (f st) → twp (modify f) Q st.
Proof. intros. by exists tt, (f st). Qed.

Lemma twp_get_client p c (Q : Client → Process → Prop) st :
  heap st !! p = Some (AClient c) → Q c st → twp (get_client p) Q st.
Proof. intros H HQ. exists c, st. unfold get_client. by rewrite H. Qed.

Lemma twp_get_server p s (Q : Server → Process → Prop) st :
  heap st !! p = Some (AServer s) → Q s st → twp (get_server p) Q st.
Proof. intros H HQ. exists s, st. unfold get_server. by rewrite H. Qed.

Lemma twp_put p c (Q : unit → Process → Prop) st :
  Q tt (set_heap <[p := c]> st) → twp (put p c) Q st.
Proof. apply twp_modify. Qed.

Lemma twp_free p (Q : unit → Process → Prop) st :
  Q tt (set_heap (delete p) st) → twp (free p) Q st.
Proof. apply twp_modify. Qed.

Lemma twp_close fd (Q : unit → Process → Prop) st :
  Q tt (log (sys_close fd) (set_epoll (delete fd) st)) → twp (close fd) Q st.
Proof. apply twp_modify. Qed.

Lemma twp_epoll_ctl_mod fd ev (Q : Z → Process → Prop) st :
  is_Some (epoll st !! fd) →
  Q 0 (log (sys_epoll_mod fd ev 0) (set_epoll <[fd := ev]> st)) →
  twp (epoll_ctl_mod fd ev) Q st.
Proof.
  intros [r Hr] HQ. eexists _, _. unfold epoll_ctl_mod. by rewrite Hr.
Qed.

Lemma twp_epoll_ctl_del fd (Q : Z → Process → Prop) st :
  (∀ r, Q r (log (sys_epoll_del fd r) (set_epoll (delete fd) st))) →
  twp (epoll_ctl_del fd) Q st.
Proof. intros HQ. eexists _, _. split; [reflexivity|]. apply HQ. Qed.

Lemma twp_Server_pop_client this cli srv (Q : unit → Process → Prop) st :
  heap st !! this = Some (AServer srv) →
  Q tt (set_heap <[this := AServer (mkServer (s_fd srv) (_buffer srv)
                                 (pop_client_from (clients srv) cli)
                                 (replace_null cli (ready_clients srv)))]> st) →
  twp (Server_pop_client this cli) Q st.
Proof. intros H HQ. eexists _, _. split; [by apply Server_pop_client_run|done]. Qed.

Ltac twp_step :=
  lazymatch goal with
  | |- twp (_ ≫= _) _ _ => apply twp_bind
  | |- twp (mret _) _ _ => apply twp_ret
  | |- twp (gets _) _ _ => apply twp_gets
  | |- twp (modify _) _ _ => apply twp_modify
  | |- twp (put _ _) _ _ => apply twp_put
  | |- twp (free _) _ _ => apply twp_free
  | |- twp (close _) _ _ => apply twp_close
  end; cbv beta.

Ltac twp_go := repeat twp_step.

(** * Destruction of sessions *)

Lemma delete_Client_total this c st :
  heap st !! this = Some (AClient c) →
  server_conn_live st →
  ∃ st' r,
    delete_Client this st = Ok tt st'
    ∧ heap st' !! this = None
    ∧ epoll st' = delete (c_fd c) (epoll st)
    ∧ server_conn st' = server_conn st
    ∧ syscalls st' = syscalls st ++ [sys_epoll_del (c_fd c) r; sys_close (c_fd c)]
    ∧ (∀ p c', p ≠ this → heap st !! p = Some (AClient c') →
         heap st' !! p = Some (AClient c')).
Proof.
  intros Hc Hlive.
  cut (twp (delete_Client this) (λ _ st', ∃ r,
         heap st' !! this = None
         ∧ epoll st' = delete (c_fd c) (epoll st)
         ∧ server_conn st' = server_conn st
         ∧ syscalls st' = syscalls st ++ [sys_epoll_del (c_fd c) r; sys_close (c_fd c)]
         ∧ (∀ p c', p ≠ this → heap st !! p = Some (AClient c') →
              heap st' !! p = Some (AClient c'))) st).
  { intros ([] & st' & Hrun & r & HQ). by exists st', r. }
  unfold delete_Client, Proxy_shut_client.
  destruct (server_conn st) as [s|] eqn:Hs.
  - destruct (Hlive s Hs) as [srv Hsrv].
    assert (s ≠ this) by congruence.
    twp_go. rewrite Hs.
    eapply twp_Server_pop_client; [done|].
    twp_go. eapply twp_get_client; [simpl; by rewrite lookup_insert_ne|].
    twp_go. apply twp_epoll_ctl_del; intros r.
    twp_go. eapply twp_get_client; [simpl; by rewrite lookup_insert_ne|].
    twp_go. exists r. simpl.
    rewrite lookup_delete_eq, delete_delete_eq, <- !app_assoc.
    repeat split; try done.
    intros p c' Hp Hpc. rewrite lookup_delete_ne by done.
    rewrite lookup_insert_ne by congruence. done.
  - twp_go. rewrite Hs.
    twp_go. eapply twp_get_client; [done|].
    twp_go. apply twp_epoll_ctl_del; intros r.
    twp_go. eapply twp_get_client; [done|].
    twp_go. exists r. simpl.
    rewrite lookup_delete_eq, delete_delete_eq, <- !app_assoc.
    repeat split; try done.
    intros p c' Hp Hpc. by rewrite lookup_delete_ne.
Qed.

Lemma delete_Server_total this srv st :
  heap st !! this = Some (AServer srv) →
  ∃ st',
    delete_Server this st = Ok tt st'
    ∧ heap st' = delete this (heap st)
    ∧ epoll st' = delete (s_fd srv) (epoll st)
    ∧ server_conn st' = None
    ∧ syscalls st' = syscalls st ++ [sys_close (s_fd srv)].
Proof.
  intros Hs.
  cut (twp (delete_Server this) (λ _ st',
         heap st' = delete this (heap st)
         ∧ epoll st' = delete (s_fd srv) (epoll st)
         ∧ server_conn st' = None
         ∧ syscalls st' = syscalls st ++ [sys_close (s_fd srv)]) st).
  { intros ([] & st' & Hrun & HQ). by exists st'. }
  unfold delete_Server, Proxy_shut_server.
  twp_go. eapply twp_get_server; [done|]. twp_go. done.
Qed.

Lemma flag_true mask bit : flag mask bit = true ↔ Z.land mask bit ≠ 0.
Proof.
  unfold flag. rewrite negb_true_iff, Z.eqb_neq. done.
Qed.

(** C8.  An event whose mask has EPOLLRDHUP set, whatever its other
    bits: the handler of a client, and the handler of the upstream
    session, does exactly what [delete this] does, so nothing of what
    the kernel would have answered to a read or a write is used.  The
    object and its registration are gone, the only system calls are the
    removal from the interest list and the [close]; the other clients
    are as they were. *)
Theorem hang_up_destroys_session (split : list byte → option SplitResult)
    (env : Env) (this : ptr) (events : Z) (st : Process) :
  Z.land events EPOLLRDHUP ≠ 0 →
  (Client_triggered env this events st = delete_Client this st
   ∧ ∀ c, heap st !! this = Some (AClient c) → server_conn_live st →
       ∃ st' r,
         Client_triggered env this events st = Ok tt st'
         ∧ heap st' !! this = None
         ∧ epoll st' !! c_fd c = None
         ∧ syscalls st'
           = syscalls st ++ [sys_epoll_del (c_fd c) r; sys_close (c_fd c)]
         ∧ (∀ p c', p ≠ this → heap st !! p = Some (AClient c') →
              heap st' !! p = Some (AClient c')))
  ∧
  (Server_triggered split env this events st = delete_Server this st
   ∧ ∀ srv, heap st !! this = Some (AServer srv) →
       ∃ st',
         Server_triggered split env this events st = Ok tt st'
         ∧ heap st' !! this = None
         ∧ server_conn st' = None
         ∧ epoll st' !! s_fd srv = None
         ∧ syscalls st' = syscalls st ++ [sys_close (s_fd srv)]
         ∧ (∀ p, p ≠ this → heap st' !! p = heap st !! p)).
Proof.
  intros Hup. apply flag_true in Hup.
  assert (HC : Client_triggered env this events st = delete_Client this st)
    by (unfold Client_triggered; by rewrite Hup).
  assert (HS : Server_triggered split env this events st = delete_Server this st)
    by (unfold Server_triggered; by rewrite Hup).
  split; (split; [done|]).
  - intros c Hc Hlive. rewrite HC.
    destruct (delete_Client_total this c st Hc Hlive)
      as (st' & r & Hrun & Hgone & Hep & _ & Hsys & Hothers).
    exists st', r. repeat split; try done.
    rewrite Hep. apply lookup_delete_eq.
  - intros srv Hsrv. rewrite HS.
    destruct (delete_Server_total this srv st Hsrv)
      as (st' & Hrun & Hheap & Hep & Hconn & Hsys).
    exists st'. repeat split; try done.
    + rewrite Hheap. apply lookup_delete_eq.
    + rewrite Hep. apply lookup_delete_eq.
    + intros p Hp. rewrite Hheap. by apply lookup_delete_ne.
Qed.

(** * The upstream [_send_to] *)

Lemma logs_nil st : logs [] st = st.
Proof. destruct st. unfold logs. simpl. by rewrite app_nil_r. Qed.

Lemma logs_log cs c st : logs cs (log c st) = logs (c :: cs) st.
Proof. unfold logs, log. simpl. by rewrite <- app_assoc. Qed.

Lemma gather_run st cs : ∀ iov n,
  gather cs iov n st
  = match mapM (request_of st) cs with
    | Some bufs => Ok (iov ++ bufs, n + total_size bufs) st
    | None => Undefined
    end.
Proof.
  induction cs as [|c cs IH]; intros iov n; simpl.
  - by rewrite app_nil_r, Z.add_0_r.
  - rewrite bind_unfold. destruct c as [p|]; simpl; [|done].
    rewrite bind_unfold. unfold get_client.
    destruct (heap st !! p) as [[fd|s|cl]|]; simpl; try done.
    rewrite IH. destruct (mapM (request_of st) cs) as [bufs|]; simpl; [|done].
    unfold Buffer.buffer_ready. rewrite <- app_assoc. simpl.
    do 2 f_equal. lia.
Qed.

Lemma request_of_put_server st this srv srv' c :
  heap st !! this = Some (AServer srv) →
  request_of (set_heap <[this := AServer srv']> st) c = request_of st c.
Proof.
  intros H. destruct c as [p|]; simpl; [|done].
  destruct (decide (p = this)) as [->|Hne].
  - by rewrite lookup_insert_eq, H.
  - by rewrite lookup_insert_ne.
Qed.

Lemma requests_put_server st this srv srv' cs :
  heap st !! this = Some (AServer srv) →
  mapM (request_of (set_heap <[this := AServer srv']> st)) cs
  = mapM (request_of st) cs.
Proof.
  intros H. induction cs as [|c cs IH]; simpl; [done|].
  by rewrite (request_of_put_server _ _ _ _ _ H), IH.
Qed.

Lemma writev_loop_cases fd iov n results : ∀ st,
  ∃ cs, Forall (retried fd iov) cs ∧
    (writev_loop fd iov n results st
       = Ok tt (logs (cs ++ [sys_writev fd iov n]) st)
     ∨ (∃ r, r ≠ n ∧ writev_loop fd iov n results st
                     = Exit 1 (logs (cs ++ [sys_writev fd iov r]) st))
     ∨ writev_loop fd iov n results st = Spin (logs cs st)).
Proof.
  induction results as [|[nwrite eagain] results IH]; intros st; simpl.
  - exists []. split; [constructor|]. right. right.
    unfold spin. by rewrite logs_nil.
  - rewrite bind_unfold. simpl.
    destruct ((nwrite <=? 0) && eagain) eqn:Hagain.
    + destruct (IH (log (sys_writev fd iov nwrite) st)) as (cs & Hcs & Hrun).
      exists (sys_writev fd iov nwrite :: cs). split.
      * constructor; [|done]. exists nwrite. split; [done|].
        apply andb_true_iff in Hagain. lia.
      * destruct Hrun as [Hw|[(r & Hr & Hw)|Hw]]; rewrite Hw, logs_log.
        -- by left.
        -- right. left. by exists r.
        -- by right; right.
    + exists []. split; [constructor|]. simpl.
      destruct (nwrite =? n) eqn:Hn; simpl.
      * apply Z.eqb_eq in Hn. subst. by left.
      * apply Z.eqb_neq in Hn. right. left. by exists nwrite.
Qed.

(** The handler past its two guards: the move of the queue, the scatter
    list, the [writev] loop, the [epoll_ctl]. *)
Lemma Server__send_to_acting env this srv st :
  heap st !! this = Some (AServer srv) →
  clients srv ≠ [] →
  ready_clients srv = [] →
  Server__send_to env this st
  = match mapM (request_of st) (clients srv) with
    | None => Undefined
    | Some bufs =>
        (writev_loop (s_fd srv) bufs (total_size bufs) (env_writev env);;
         r ← epoll_ctl_mod (s_fd srv) (mkEvent (Z.lor EPOLLIN EPOLLET) this);
         if r =? -1 then exit 1 else mret tt)
          (set_heap <[this := AServer (mkServer (s_fd srv) (_buffer srv) []
                                                (clients srv))]> st)
    end.
Proof.
  intros H Hstaged Hpending. unfold Server__send_to.
  rewrite bind_unfold. unfold get_server at 1. rewrite H.
  rewrite bool_decide_eq_false_2 by done.
  rewrite Hpending. simpl.
  rewrite bind_unfold. simpl. rewrite bind_unfold.
  rewrite gather_run, (requests_put_server _ _ _ _ _ H).
  destruct (mapM (request_of st) (clients srv)) as [bufs|]; [|done].
  reflexivity.
Qed.

(** What the handler does to the state when it acts and returns. *)
Lemma Server__send_to_effect env this srv st st' :
  heap st !! this = Some (AServer srv) →
  clients srv ≠ [] →
  ready_clients srv = [] →
  Server__send_to env this st = Ok tt st' →
  ∃ bufs attempts,
    mapM (request_of st) (clients srv) = Some bufs
    ∧ Forall (retried (s_fd srv) bufs) attempts
    ∧ st' = logs (attempts ++
                  [sys_writev (s_fd srv) bufs (total_size bufs);
                   sys_epoll_mod (s_fd srv) (mkEvent (Z.lor EPOLLIN EPOLLET) this) 0])
              (set_epoll <[s_fd srv := mkEvent (Z.lor EPOLLIN EPOLLET) this]>
                 (set_heap <[this := AServer (mkServer (s_fd srv) (_buffer srv) []
                                                       (clients srv))]> st)).
Proof.
  intros H Hstaged Hpending.
  rewrite (Server__send_to_acting _ _ _ _ H Hstaged Hpending).
  destruct (mapM (request_of st) (clients srv)) as [bufs|]; [|done].
  rewrite bind_unfold.
  match goal with
  | |- context [writev_loop ?fd ?iov ?n ?rs ?s] =>
      destruct (writev_loop_cases fd iov n rs s) as (cs & Hcs & [Hw|[(r & _ & Hw)|Hw]]);
      rewrite Hw; try done
  end.
  rewrite bind_unfold. unfold epoll_ctl_mod. simpl.
  destruct (epoll st !! s_fd srv) as [reg|]; simpl; [|done].
  intros Heq. injection Heq as <-.
  exists bufs, cs. split; [done|]. split; [done|].
  unfold logs, log, set_epoll, set_heap. simpl. by rewrite <- !app_assoc.
Qed.

Lemma Server__send_to_skips env this srv st :
  heap st !! this = Some (AServer srv) →
  clients srv = [] ∨ ready_clients srv ≠ [] →
  Server__send_to env this st = Ok tt st.
Proof.
  intros H Hguard. unfold Server__send_to.
  rewrite bind_unfold. unfold get_server. rewrite H.
  destruct (decide (clients srv = [])) as [Hc|Hc].
  - by rewrite bool_decide_eq_true_2.
  - rewrite bool_decide_eq_false_2 by done.
    destruct Hguard as [?|Hr]; [done|].
    by rewrite bool_decide_eq_false_2.
Qed.

Lemma Server__send_to_moves env this srv st st' :
  heap st !! this = Some (AServer srv) →
  clients srv ≠ [] →
  ready_clients srv = [] →
  outcome_state (Server__send_to env this st) = Some st' →
  heap st' !! this
  = Some (AServer (mkServer (s_fd srv) (_buffer srv) [] (clients srv))).
Proof.
  intros H Hstaged Hpending.
  rewrite (Server__send_to_acting _ _ _ _ H Hstaged Hpending).
  destruct (mapM (request_of st) (clients srv)) as [bufs|]; [|done].
  rewrite bind_unfold.
  match goal with
  | |- context [writev_loop ?fd ?iov ?n ?rs ?s] =>
      destruct (writev_loop_cases fd iov n rs s)
        as (cs & Hcs & [Hw|[(r & _ & Hw)|Hw]]); rewrite Hw
  end.
  - rewrite bind_unfold. unfold epoll_ctl_mod. simpl.
    destruct (epoll st !! s_fd srv) as [reg|]; simpl;
      intros [= <-]; simpl; apply lookup_insert_eq.
  - simpl. intros [= <-]. simpl. apply lookup_insert_eq.
  - simpl. intros [= <-]. simpl. apply lookup_insert_eq.
Qed.

Lemma Server__send_to_total env this srv st bufs rest :
  heap st !! this = Some (AServer srv) →
  clients srv ≠ [] →
  ready_clients srv = [] →
  mapM (request_of st) (clients srv) = Some bufs →
  is_Some (epoll st !! s_fd srv) →
  env_writev env = (total_size bufs, false) :: rest →
  ∃ st', Server__send_to env this st = Ok tt st'.
Proof.
  intros H Hstaged Hpending Hbufs [reg Hreg] Henv.
  rewrite (Server__send_to_acting _ _ _ _ H Hstaged Hpending), Hbufs, Henv.
  rewrite bind_unfold. simpl. rewrite bind_unfold. simpl.
  rewrite andb_false_r, Z.eqb_refl. simpl.
  rewrite bind_unfold. unfold epoll_ctl_mod. simpl. rewrite Hreg. simpl.
  by eexists.
Qed.

(** C3.  The upstream [_send_to], called on a live upstream session.
    It returns with the state as it was (no system call, queues and
    interest list untouched) exactly when staging is empty or pending
    is not.  Otherwise staging is moved into pending and left empty
    before any [writev] is attempted: this holds in whatever state the
    call ends.  When the call returns, the interest of the upstream
    descriptor is EPOLLIN|EPOLLET, and the system calls made are the
    [writev] attempts followed by that [epoll_ctl].  It does return
    when the staged clients are live, the descriptor is registered and
    the first [writev] takes every byte. *)
Theorem send_to_gate (env : Env) (this : ptr) (srv : Server) (st : Process) :
  heap st !! this = Some (AServer srv) →
  (Server__send_to env this st = Ok tt st
     ↔ clients srv = [] ∨ ready_clients srv ≠ [])
  ∧ (clients srv ≠ [] → ready_clients srv = [] →
     (∀ st', outcome_state (Server__send_to env this st) = Some st' →
        heap st' !! this
        = Some (AServer (mkServer (s_fd srv) (_buffer srv) [] (clients srv))))
     ∧ (∀ st', Server__send_to env this st = Ok tt st' →
          epoll st' !! s_fd srv = Some (mkEvent (Z.lor EPOLLIN EPOLLET) this)
          ∧ ∃ bufs attempts,
              mapM (request_of st) (clients srv) = Some bufs
              ∧ Forall (retried (s_fd srv) bufs) attempts
              ∧ syscalls st'
                = syscalls st ++ attempts ++
                  [sys_writev (s_fd srv) bufs (total_size bufs);
                   sys_epoll_mod (s_fd srv)
                     (mkEvent (Z.lor EPOLLIN EPOLLET) this) 0])
     ∧ (∀ bufs rest,
          mapM (request_of st) (clients srv) = Some bufs →
          is_Some (epoll st !! s_fd srv) →
          env_writev env = (total_size bufs, false) :: rest →
          ∃ st', Server__send_to env this st = Ok tt st')).
Proof.
  intros H. split.
  - split; [|by apply Server__send_to_skips].
    intros Hrun.
    destruct (decide (clients srv = [])) as [|Hstaged]; [by left|].
    destruct (decide (ready_clients srv = [])) as [Hpending|]; [|by right].
    exfalso.
    assert (Hm := Server__send_to_moves env this srv st st H Hstaged Hpending).
    rewrite Hrun in Hm. specialize (Hm eq_refl).
    rewrite H in Hm. injection Hm as Hm. by rewrite Hm in Hstaged.
  - intros Hstaged Hpending. split; [|split].
    + intros st'. by apply Server__send_to_moves.
    + intros st' Hrun.
      destruct (Server__send_to_effect _ _ _ _ _ H Hstaged Hpending Hrun)
        as (bufs & attempts & Hbufs & Hatt & ->).
      split; [simpl; apply lookup_insert_eq|].
      exists bufs, attempts. by repeat split.
    + intros bufs rest. by apply Server__send_to_total.
Qed.

(** What the upstream [_send_to] leaves of the clients when it has
    written and returned: every object other than the upstream session
    is exactly as before, so the buffer of each client whose bytes were
    written still holds those bytes; a [writev] with these buffers is
    in the log. *)
Lemma send_to_keeps_client_buffers (env : Env) (this : ptr) (srv : Server)
    (st st' : Process) :
  heap st !! this = Some (AServer srv) →
  clients srv ≠ [] →
  ready_clients srv = [] →
  Server__send_to env this st = Ok tt st' →
  (∀ p, p ≠ this → heap st' !! p = heap st !! p)
  ∧ ∃ bufs,
      mapM (request_of st) (clients srv) = Some bufs
      ∧ mapM (request_of st') (clients srv) = Some bufs
      ∧ sys_writev (s_fd srv) bufs (total_size bufs) ∈ syscalls st'.
Proof.
  intros H Hstaged Hpending Hrun.
  destruct (Server__send_to_effect _ _ _ _ _ H Hstaged Hpending Hrun)
    as (bufs & attempts & Hbufs & Hatt & ->).
  split.
  - intros p Hp. simpl. by rewrite lookup_insert_ne.
  - exists bufs. split; [done|]. split.
    + rewrite <- Hbufs. apply (requests_put_server _ _ _ _ _ H).
    + simpl. rewrite !elem_of_app, elem_of_cons. auto.
Qed.

(** * The upstream [_recv_from] *)

Lemma set_heap_id st : set_heap (λ _, heap st) st = st.
Proof. by destruct st. Qed.

Lemma set_epoll_id st : set_epoll (λ _, epoll st) st = st.
Proof. by destruct st. Qed.

Lemma notifiable_put_client st cli c c' x :
  heap st !! cli = Some (AClient c) →
  c_fd c' = c_fd c →
  notifiable (set_heap <[cli := AClient c']> st) x = notifiable st x.
Proof.
  intros H Hfd. destruct x as [p|]; [|done]. simpl.
  destruct (decide (p = cli)) as [->|Hne].
  - by rewrite lookup_insert_eq, H, Hfd.
  - by rewrite lookup_insert_ne.
Qed.

Lemma notifiable_put_server st this srv srv' x :
  heap st !! this = Some (AServer srv) →
  notifiable (set_heap <[this := AServer srv']> st) x = notifiable st x.
Proof.
  intros H. destruct x as [p|]; [|done]. simpl.
  destruct (decide (p = this)) as [->|Hne].
  - by rewrite lookup_insert_eq, H.
  - by rewrite lookup_insert_ne.
Qed.

Lemma copy_messages_run buf ready : ∀ ms it st,
  (it + length ms ≤ length ready)%nat →
  Forall (λ c, notifiable st c = true) (take (length ms) (drop it ready)) →
  ∃ h',
    copy_messages buf ready it ms st
    = Ok (it + length ms)%nat (set_heap (λ _, h') st)
    ∧ ∀ p, h' !! p = append_to (routed buf p (drop it ready) ms) <$> heap st !! p.
Proof.
  induction ms as [|m ms IH]; intros it st Hlen Hlive; simpl.
  - exists (heap st). rewrite set_heap_id, Nat.add_0_r. split; [done|].
    intros p. destruct (heap st !! p) as [[fd|s|c]|]; simpl; try done.
    destruct (drop it ready); simpl; rewrite app_nil_r; by destruct c.
  - simpl in Hlen.
    destruct (lookup_lt_is_Some_2 ready it) as [x Hx]; [lia|].
    rewrite Hx. rewrite (drop_S _ _ _ Hx) in Hlive |- *.
    simpl in Hlive. apply Forall_cons in Hlive as [Hx1 Hrest].
    destruct x as [cli|].
    + simpl in Hx1. destruct (heap st !! cli) as [[fd|s|c]|] eqn:Hc; try done.
      rewrite bind_unfold. unfold get_client. rewrite Hc.
      rewrite bind_unfold. simpl.
      set (c' := mkClient (c_fd c) (Buffer.copy_from (range_bytes buf m) (buffer c))
                          (peer c)).
      destruct (IH (S it) (set_heap <[cli := AClient c']> st)) as (h' & Hrun & Hh').
      { lia. }
      { eapply Forall_impl; [exact Hrest|].
        intros x. by rewrite (notifiable_put_client _ _ c). }
      exists h'. split.
      { rewrite Hrun. f_equal. lia. }
      intros p. rewrite Hh'. simpl.
      destruct (decide (p = cli)) as [->|Hne].
      * rewrite lookup_insert_eq, Hc. simpl. rewrite decide_True by done.
        unfold Buffer.copy_from. by rewrite <- app_assoc.
      * rewrite lookup_insert_ne by done.
        rewrite decide_False by congruence. done.
    + destruct (IH (S it) st) as (h' & Hrun & Hh'); [lia|done|].
      exists h'. split.
      { rewrite Hrun. f_equal. lia. }
      intros p. by rewrite Hh'.
Qed.

Lemma notify_each_run : ∀ range st,
  Forall (λ c, notifiable st c = true) range →
  ∃ regs' cs,
    Proxy_notify_each range st = Ok tt (logs cs (set_epoll (λ _, regs') st))
    ∧ Forall is_epoll_mod cs
    ∧ ∀ fd, is_Some (regs' !! fd) ↔ is_Some (epoll st !! fd).
Proof.
  induction range as [|x range IH]; intros st Hlive; simpl.
  - exists (epoll st), []. rewrite set_epoll_id, logs_nil.
    split; [done|]. split; [constructor|done].
  - apply Forall_cons in Hlive as [Hx Hrest].
    destruct x as [cli|]; [|by apply IH].
    simpl in Hx. destruct (heap st !! cli) as [[fd|s|c]|] eqn:Hc; try done.
    apply bool_decide_eq_true in Hx as [reg Hreg].
    rewrite bind_unfold. unfold get_client. rewrite Hc.
    rewrite bind_unfold. unfold epoll_ctl_mod. rewrite Hreg. simpl.
    match goal with
    | |- context [Proxy_notify_each range ?s] =>
        destruct (IH s) as (regs' & cs & Hrun & Hcs & Hdom)
    end.
    { eapply Forall_impl; [exact Hrest|].
      intros [p|]; [|done]. simpl.
      destruct (heap st !! p) as [[fd|s|c0]|]; try done.
      rewrite !bool_decide_eq_true, lookup_insert_is_Some.
      destruct (decide (c_fd c = c_fd c0)); tauto. }
    eexists regs', (_ :: cs). split; [|split].
    + rewrite Hrun. f_equal. unfold logs, log, set_epoll. simpl.
      by rewrite <- app_assoc.
    + constructor; [|done]. by eexists _, _, _.
    + intros fd. rewrite Hdom. simpl. rewrite lookup_insert_is_Some.
      destruct (decide (c_fd c = fd)) as [<-|]; [|tauto].
      split; [eauto|tauto].
Qed.

Lemma notifiable_routed st st' (f : ptr → list byte) x :
  epoll st' = epoll st →
  (∀ p, heap st' !! p = append_to (f p) <$> heap st !! p) →
  notifiable st' x = notifiable st x.
Proof.
  intros He Hh. destruct x as [p|]; [|done]. simpl.
  rewrite Hh, He. by destruct (heap st !! p) as [[fd|s|c]|].
Qed.

(** A read that frames [M] messages, at most as many as pending has
    entries, the first [M] of which can take a reply. *)
Lemma Server__recv_from_delivers split env this srv st r :
  heap st !! this = Some (AServer srv) →
  env_read env ≠ [] →
  split (_buffer srv ++ env_read env) = Some r →
  (length (messages r) ≤ length (ready_clients srv))%nat →
  Forall (λ c, notifiable st c = true)
         (take (length (messages r)) (ready_clients srv)) →
  is_Some (epoll st !! s_fd srv) →
  ∃ st' cs,
    Server__recv_from split env this st = Ok tt st'
    ∧ heap st' !! this
      = Some (AServer (mkServer (s_fd srv)
                (if finished r then []
                 else drop (interrupt_point r) (_buffer srv ++ env_read env))
                (clients srv)
                (drop (length (messages r)) (ready_clients srv))))
    ∧ (∀ p, p ≠ this →
         heap st' !! p
         = append_to (routed (_buffer srv ++ env_read env) p
                             (ready_clients srv) (messages r))
             <$> heap st !! p)
    ∧ syscalls st' = syscalls st ++ sys_read (s_fd srv) (env_read env) :: cs
    ∧ Forall is_epoll_mod cs
    ∧ epoll st' !! s_fd srv
      = Some (mkEvent (Z.lor (Z.lor EPOLLIN EPOLLOUT) EPOLLET) this).
Proof.
  intros H Hdata Hsplit Hlen Hlive Hreg.
  unfold Server__recv_from. rewrite bind_unfold. unfold get_server. rewrite H.
  unfold Buffer.read. rewrite bind_unfold. simpl. rewrite bind_unfold. simpl.
  destruct (Z.of_nat (length (env_read env)) =? 0) eqn:Hn.
  { apply Z.eqb_eq in Hn. destruct (env_read env); [done|simpl in Hn; lia]. }
  rewrite Hsplit.
  destruct (Z.of_nat (length (messages r)) >? rint (length (ready_clients srv)))
    eqn:Hgt.
  { unfold rint in Hgt. lia. }
  rewrite bind_unfold.
  set (buf := _buffer srv ++ env_read env).
  set (st1 := set_heap _ (log _ st)).
  destruct (copy_messages_run buf (ready_clients srv) (messages r) 0 st1)
    as (h' & Hcopy & Hh').
  { simpl. lia. }
  { rewrite drop_0. eapply Forall_impl; [exact Hlive|].
    intros x. unfold st1. by rewrite (notifiable_put_server _ _ srv). }
  rewrite drop_0 in Hh'.
  rewrite Hcopy. simpl.
  rewrite bind_unfold.
  set (st2 := set_heap (λ _, h') st1).
  destruct (notify_each_run (take (length (messages r)) (ready_clients srv)) st2)
    as (regs' & cs & Hnotify & Hcs & Hdom).
  { eapply Forall_impl; [exact Hlive|].
    intros x Hx. rewrite <- Hx.
    rewrite (notifiable_routed st1 st2 _ x eq_refl Hh').
    unfold st1. by rewrite (notifiable_put_server _ _ srv). }
  rewrite Hnotify. rewrite bind_unfold. simpl. rewrite bind_unfold.
  unfold epoll_ctl_mod. simpl.
  destruct (regs' !! s_fd srv) as [reg'|] eqn:Hreg'.
  2:{ apply Hdom in Hreg. simpl in Hreg. rewrite Hreg' in Hreg.
      by destruct Hreg. }
  simpl. eexists _, (cs ++ [_]). split; [reflexivity|]. simpl.
  split; [apply lookup_insert_eq|].
  split.
  { intros p Hp. rewrite lookup_insert_ne by done. rewrite Hh'.
    unfold st1. simpl. by rewrite lookup_insert_ne. }
  split.
  { by rewrite <- !app_assoc. }
  split; [|apply lookup_insert_eq].
  apply Forall_app. split; [done|]. constructor; [|done].
  by eexists _, _, _.
Qed.

Lemma routed_absent buf p : ∀ ms ready,
  (∀ j, (j < length ms)%nat → ready !! j ≠ Some (Some p)) →
  routed buf p ready ms = [].
Proof.
  induction ms as [|m ms IH]; intros ready Habs; [done|].
  destruct ready as [|c ready]; [done|]. simpl.
  rewrite decide_False.
  - simpl. apply IH. intros j Hj. apply (Habs (S j)). simpl. lia.
  - intros ->. apply (Habs 0%nat); [simpl; lia|done].
Qed.

Lemma routed_single buf p : ∀ ms ready i m,
  ms !! i = Some m →
  ready !! i = Some (Some p) →
  (∀ j, j ≠ i → (j < length ms)%nat → ready !! j ≠ Some (Some p)) →
  routed buf p ready ms = range_bytes buf m.
Proof.
  induction ms as [|m0 ms IH]; intros ready i m Hm Hp Huniq; [done|].
  destruct ready as [|c ready]; [done|]. simpl.
  destruct i as [|i]; simpl in Hm, Hp.
  - injection Hm as ->. injection Hp as ->. rewrite decide_True by done.
    rewrite routed_absent; [by rewrite app_nil_r|].
    intros j Hj. apply (Huniq (S j)); [done|simpl; lia].
  - rewrite decide_False.
    + simpl. apply IH with i; [done..|].
      intros j Hne Hj. apply (Huniq (S j)); [congruence|simpl; lia].
    + intros ->. apply (Huniq 0%nat); [done|simpl; lia|done].
Qed.

(** In a state that satisfies the invariant of the loop, every entry of
    pending can take a reply and the upstream descriptor is
    registered. *)
Lemma wf_ready st this srv :
  wf st →
  heap st !! this = Some (AServer srv) →
  Forall (λ c, notifiable st c = true) (ready_clients srv)
  ∧ is_Some (epoll st !! s_fd srv).
Proof.
  intros Hwf Hthis. split.
  - apply Forall_forall. intros [q|] Hq; [|done]. simpl.
    destruct (wf_pending st Hwf this srv q Hthis Hq) as [c Hc]. rewrite Hc.
    apply bool_decide_eq_true.
    destruct (wf_registered st Hwf q _ Hc) as (reg & Hreg & _). eauto.
  - destruct (wf_registered st Hwf this _ Hthis) as (reg & Hreg & _). eauto.
Qed.

(** C1.  A read of the upstream [_recv_from], in a state that
    satisfies the invariant of the loop, in which the framer yields [M]
    messages, [M] being at most the length of pending.  The handler
    returns; the buffer of every client is its old content followed by
    the messages framed at the positions where pending holds that
    client, in order; so the i-th message is appended to the buffer of
    the i-th entry, and a message whose entry is null is appended to no
    buffer; a client that is not among the first [M] entries is as it
    was.  Pending loses its first [M] entries, null or not, and no
    others; staging is as it was.  No byte is written to a client by
    this handler: after the read it only calls [epoll_ctl]. *)
Theorem recv_from_routes_by_position (split : list byte → option SplitResult)
    (env : Env) (this : ptr) (srv : Server) (st : Process) (r : SplitResult) :
  wf st →
  heap st !! this = Some (AServer srv) →
  env_read env ≠ [] →
  split (_buffer srv ++ env_read env) = Some r →
  (length (messages r) ≤ length (ready_clients srv))%nat →
  ∃ st' srv',
    Server__recv_from split env this st = Ok tt st'
    ∧ heap st' !! this = Some (AServer srv')
    ∧ ready_clients srv' = drop (length (messages r)) (ready_clients srv)
    ∧ clients srv' = clients srv
    ∧ (∀ p c, heap st !! p = Some (AClient c) →
         heap st' !! p
         = Some (AClient (mkClient (c_fd c)
                   (buffer c ++ routed (_buffer srv ++ env_read env) p
                                       (ready_clients srv) (messages r))
                   (peer c))))
    ∧ (∀ i m p c,
         messages r !! i = Some m →
         ready_clients srv !! i = Some (Some p) →
         heap st !! p = Some (AClient c) →
         (∀ j, j ≠ i → (j < length (messages r))%nat →
               ready_clients srv !! j ≠ Some (Some p)) →
         heap st' !! p
         = Some (AClient (mkClient (c_fd c)
                   (buffer c ++ range_bytes (_buffer srv ++ env_read env) m)
                   (peer c))))
    ∧ (∀ p, p ≠ this →
         Some p ∉ take (length (messages r)) (ready_clients srv) →
         heap st' !! p = heap st !! p)
    ∧ ∃ cs, syscalls st'
            = syscalls st ++ sys_read (s_fd srv) (env_read env) :: cs
            ∧ Forall is_epoll_mod cs.
Proof.
  intros Hwf H Hdata Hsplit Hlen.
  destruct (wf_ready st this srv Hwf H) as [Hlive Hreg].
  apply (Forall_take _ (length (messages r))) in Hlive.
  destruct (Server__recv_from_delivers split env this srv st r
              H Hdata Hsplit Hlen Hlive Hreg)
    as (st' & cs & Hrun & Hthis & Hothers & Hsys & Hcs & _).
  assert (Hclient : ∀ p c, heap st !! p = Some (AClient c) →
            heap st' !! p
            = Some (AClient (mkClient (c_fd c)
                      (buffer c ++ routed (_buffer srv ++ env_read env) p
                                          (ready_clients srv) (messages r))
                      (peer c)))).
  { intros p c Hp. rewrite Hothers by congruence. by rewrite Hp. }
  eexists st', _. split; [done|]. split; [exact Hthis|]. simpl.
  split; [done|]. split; [done|]. split; [done|]. split; [|split].
  - intros i m p c Hm Hi Hp Huniq.
    rewrite (Hclient p c Hp).
    by rewrite (routed_single _ _ _ _ i m Hm Hi Huniq).
  - intros p Hp Hnotin. rewrite Hothers by done.
    rewrite routed_absent.
    + destruct (heap st !! p) as [[fd|s|c]|]; simpl; try done.
      rewrite app_nil_r. by destruct c.
    + intros j Hj Hin. apply Hnotin.
      apply list_elem_of_lookup. exists j. by rewrite lookup_take_lt.
  - by exists cs.
Qed.

(** Consecutive ranges cover a prefix of the buffer. *)
Lemma tiles_concat buf : ∀ ms from k,
  tiles from ms = Some k →
  (from ≤ k)%nat
  ∧ concat (range_bytes buf <$> ms) = take (k - from) (drop from buf).
Proof.
  induction ms as [|[b e] ms IH]; intros from k; cbn [tiles].
  - intros [= <-]. by rewrite Nat.sub_diag.
  - destruct ((b =? from)%nat && (b <? e)%nat) eqn:Hbe; [|done].
    apply andb_true_iff in Hbe as [Hb He].
    apply Nat.eqb_eq in Hb. apply Nat.ltb_lt in He. subst b.
    intros Ht. destruct (IH e k Ht) as [Hle Hc]. split; [lia|].
    change (concat (range_bytes buf <$> (from, e) :: ms))
      with (range_bytes buf (from, e) ++ concat (range_bytes buf <$> ms)).
    rewrite Hc. unfold range_bytes. simpl.
    replace (drop e buf) with (drop (e - from) (drop from buf))
      by (rewrite drop_drop; f_equal; lia).
    rewrite take_take_drop. f_equal. lia.
Qed.

Lemma split_result_ok_cover buf r :
  split_result_ok buf r = true →
  concat (range_bytes buf <$> messages r)
    ++ (if finished r then [] else drop (interrupt_point r) buf)
  = buf.
Proof.
  unfold split_result_ok.
  destruct (tiles 0 (messages r)) as [k|] eqn:Ht; [|done].
  destruct (tiles_concat buf _ _ _ Ht) as [_ ->].
  rewrite Nat.sub_0_r, drop_0.
  destruct (finished r).
  - intros Hk. apply Nat.eqb_eq in Hk. subst k.
    by rewrite take_ge, app_nil_r.
  - intros Hk. apply andb_true_iff in Hk as [Hip _].
    apply Nat.eqb_eq in Hip. rewrite Hip. apply take_drop.
Qed.

Lemma report_clients_run st cs :
  report_clients cs st
  = match mapM (request_of st) cs with
    | Some _ => Ok tt st
    | None => Undefined
    end.
Proof.
  induction cs as [|c cs IH]; simpl; [done|].
  rewrite bind_unfold. destruct c as [p|]; simpl; [|done].
  rewrite bind_unfold. unfold get_client.
  destruct (heap st !! p) as [[fd|s|cl]|]; simpl; try done.
  rewrite IH. by destruct (mapM (request_of st) cs).
Qed.

(** The two fatal branches of [_recv_from].  When the framer rejects
    the buffer, or frames more messages than pending has entries and
    every entry of pending is a live client, the process exits with
    status 1; what was to follow the call does not run; the only system
    call made is the read, every object but the upstream session is
    untouched, and so is the interest list. *)
Lemma Server__recv_from_exits (split : list byte → option SplitResult)
    (env : Env) (this : ptr) (srv : Server) (st : Process) :
  heap st !! this = Some (AServer srv) →
  env_read env ≠ [] →
  (split (_buffer srv ++ env_read env) = None
   ∨ ∃ r, split (_buffer srv ++ env_read env) = Some r
          ∧ (length (ready_clients srv) < length (messages r))%nat
          ∧ is_Some (mapM (request_of st) (ready_clients srv))) →
  ∃ st',
    Server__recv_from split env this st = Exit 1 st'
    ∧ (∀ k : unit → M unit,
         (Server__recv_from split env this ≫= k) st = Exit 1 st')
    ∧ syscalls st' = syscalls st ++ [sys_read (s_fd srv) (env_read env)]
    ∧ (∀ p, p ≠ this → heap st' !! p = heap st !! p)
    ∧ epoll st' = epoll st.
Proof.
  intros H Hdata Hbad.
  assert (Hrun : Server__recv_from split env this st
    = Exit 1 (set_heap <[this := AServer (mkServer (s_fd srv)
                                   (_buffer srv ++ env_read env)
                                   (clients srv) (ready_clients srv))]>
                (log (sys_read (s_fd srv) (env_read env)) st))).
  { unfold Server__recv_from. rewrite bind_unfold. unfold get_server. rewrite H.
    unfold Buffer.read. rewrite bind_unfold. simpl. rewrite bind_unfold. simpl.
    destruct (Z.of_nat (length (env_read env)) =? 0) eqn:Hn.
    { apply Z.eqb_eq in Hn. destruct (env_read env); [done|simpl in Hn; lia]. }
    destruct Hbad as [->|(r & -> & Hmore & [bufs Hlive])]; [done|].
    destruct (Z.of_nat (length (messages r)) >? rint (length (ready_clients srv)))
      eqn:Hgt; [|unfold rint in Hgt; lia].
    rewrite bind_unfold, report_clients_run.
    erewrite (requests_put_server (log _ st)); [|exact H].
    change (mapM (request_of (log ?c st))) with (mapM (request_of st)).
    by rewrite Hlive. }
  eexists. split; [exact Hrun|]. split.
  { intros k. by rewrite bind_unfold, Hrun. }
  simpl. split; [done|]. split; [|done].
  intros p Hp. by rewrite lookup_insert_ne.
Qed.

(** C4.  A read of the upstream [_recv_from] that is handled to the
    end: in a state that satisfies the invariant of the loop, the
    framer accepts the buffer and yields at most as many messages as
    pending has entries.  The buffer of the
    upstream session is empty afterwards when the parse finished, and
    otherwise is what the buffer held from the interrupt point on.
    When the result of the framer is well formed, the framed messages
    followed by what is kept are the bytes that were in the buffer: what
    is kept is the partial message at the end.  When no message was
    framed, pending is as it was, and all the bytes stay in the
    buffer. *)
Theorem recv_from_keeps_partial_tail (split : list byte → option SplitResult)
    (env : Env) (this : ptr) (srv : Server) (st : Process) (r : SplitResult) :
  wf st →
  heap st !! this = Some (AServer srv) →
  env_read env ≠ [] →
  split (_buffer srv ++ env_read env) = Some r →
  (length (messages r) ≤ length (ready_clients srv))%nat →
  ∃ st' srv',
    Server__recv_from split env this st = Ok tt st'
    ∧ heap st' !! this = Some (AServer srv')
    ∧ (finished r = true → _buffer srv' = [])
    ∧ (finished r = false →
       _buffer srv' = drop (interrupt_point r) (_buffer srv ++ env_read env))
    ∧ (split_result_ok (_buffer srv ++ env_read env) r = true →
       concat (range_bytes (_buffer srv ++ env_read env) <$> messages r)
         ++ _buffer srv'
       = _buffer srv ++ env_read env)
    ∧ (messages r = [] →
       ready_clients srv' = ready_clients srv
       ∧ (split_result_ok (_buffer srv ++ env_read env) r = true →
          _buffer srv' = _buffer srv ++ env_read env)).
Proof.
  intros Hwf H Hdata Hsplit Hlen.
  destruct (wf_ready st this srv Hwf H) as [Hlive Hreg].
  apply (Forall_take _ (length (messages r))) in Hlive.
  destruct (Server__recv_from_delivers split env this srv st r
              H Hdata Hsplit Hlen Hlive Hreg)
    as (st' & cs & Hrun & Hthis & _).
  eexists st', _. split; [done|]. split; [exact Hthis|]. simpl.
  split; [by intros ->|]. split; [by intros ->|]. split.
  - apply split_result_ok_cover.
  - intros Hnone. rewrite Hnone. simpl. split; [done|].
    intros Hok. apply split_result_ok_cover in Hok.
    by rewrite Hnone in Hok.
Qed.

(** * The invariant of the loop *)

(** ** How the updates of the state act on the invariant *)

(** Two live objects have different descriptors. *)
Lemma wf_fd_inj st p q c d :
  wf st → heap st !! p = Some c → heap st !! q = Some d →
  fd_of c = fd_of d → p = q.
Proof.
  intros Hwf Hp Hq Hfd.
  destruct (wf_registered st Hwf p c Hp) as (r1 & Hr1 & <- & _).
  destruct (wf_registered st Hwf q d Hq) as (r2 & Hr2 & <- & _).
  rewrite Hfd in Hr1. congruence.
Qed.

Lemma wf_frame st st' :
  wf st →
  epoll st' = epoll st → server_conn st' = server_conn st →
  heap st' = heap st → brk st' = brk st →
  wf st'.
Proof.
  intros [H1 H2 H3 H4 H5] He Hs Hh Hb.
  constructor; unfold server_conn_live; rewrite ?He, ?Hs, ?Hh, ?Hb; done.
Qed.

Lemma wf_put_client st st' p c c' :
  wf st →
  heap st !! p = Some (AClient c) →
  heap st' = <[p := AClient c']> (heap st) →
  epoll st' = epoll st → server_conn st' = server_conn st →
  brk st' = brk st →
  c_fd c' = c_fd c →
  wf st'.
Proof.
  intros Hwf Hp Hh He Hs Hb Hfd.
  constructor; unfold server_conn_live; rewrite ?He, ?Hs, ?Hh, ?Hb.
  - intros q d. destruct (decide (q = p)) as [->|Hne].
    + rewrite lookup_insert_eq. intros [= <-].
      destruct (wf_registered st Hwf p _ Hp) as (reg & Hreg & Hptr & _).
      exists reg. simpl in *. rewrite Hfd. by repeat split.
    + rewrite lookup_insert_ne by done. apply (wf_registered st Hwf).
  - intros q s. destruct (decide (q = p)) as [->|Hne].
    + by rewrite lookup_insert_eq.
    + rewrite lookup_insert_ne by done. apply (wf_singleton st Hwf).
  - intros q s x. destruct (decide (q = p)) as [->|Hne].
    + by rewrite lookup_insert_eq.
    + rewrite lookup_insert_ne by done. intros Hq Hx.
      destruct (wf_pending st Hwf q s x Hq Hx) as [c0 Hc0].
      destruct (decide (x = p)) as [->|Hxp].
      * rewrite lookup_insert_eq. eauto.
      * rewrite lookup_insert_ne by done. eauto.
  - intros q. rewrite lookup_insert_is_Some. intros [<-|[_ Hq]].
    + apply (wf_brk st Hwf). eauto.
    + by apply (wf_brk st Hwf).
  - intros s0 Hs0. destruct (wf_conn st Hwf s0 Hs0) as [srv Hsrv].
    exists srv. rewrite lookup_insert_ne; [done|congruence].
Qed.

Lemma wf_put_server st st' p s s' :
  wf st →
  heap st !! p = Some (AServer s) →
  heap st' = <[p := AServer s']> (heap st) →
  epoll st' = epoll st → server_conn st' = server_conn st →
  brk st' = brk st →
  s_fd s' = s_fd s →
  (∀ q, Some q ∈ ready_clients s' → ∃ c, heap st !! q = Some (AClient c)) →
  wf st'.
Proof.
  intros Hwf Hp Hh He Hs Hb Hfd Hready.
  assert (Hkeep : ∀ x c0, heap st !! x = Some (AClient c0) →
            <[p := AServer s']> (heap st) !! x = Some (AClient c0)).
  { intros x c0 Hx. rewrite lookup_insert_ne; [done|congruence]. }
  constructor; unfold server_conn_live; rewrite ?He, ?Hs, ?Hh, ?Hb.
  - intros q d. destruct (decide (q = p)) as [->|Hne].
    + rewrite lookup_insert_eq. intros [= <-].
      destruct (wf_registered st Hwf p _ Hp) as (reg & Hreg & Hptr & Hmask).
      exists reg. simpl in *. rewrite Hfd. repeat split; try done.
      intros _ _. by eapply Hmask.
    + rewrite lookup_insert_ne by done. apply (wf_registered st Hwf).
  - intros q s0. destruct (decide (q = p)) as [->|Hne].
    + intros _. by apply (wf_singleton st Hwf p s).
    + rewrite lookup_insert_ne by done. apply (wf_singleton st Hwf).
  - intros q s0 x. destruct (decide (q = p)) as [->|Hne].
    + rewrite lookup_insert_eq. intros [= <-] Hx.
      destruct (Hready x Hx) as [c0 Hc0]. eauto.
    + rewrite lookup_insert_ne by done. intros Hq Hx.
      destruct (wf_pending st Hwf q s0 x Hq Hx) as [c0 Hc0]. eauto.
  - intros q. rewrite lookup_insert_is_Some. intros [<-|[_ Hq]].
    + apply (wf_brk st Hwf). eauto.
    + by apply (wf_brk st Hwf).
  - intros s0 Hs0. destruct (decide (s0 = p)) as [->|Hne].
    + rewrite lookup_insert_eq. eauto.
    + rewrite lookup_insert_ne by done. by apply (wf_conn st Hwf).
Qed.

Lemma wf_mod st st' p c m :
  wf st →
  heap st !! p = Some c →
  epoll st' = <[fd_of c := mkEvent m p]> (epoll st) →
  server_conn st' = server_conn st →
  heap st' = heap st → brk st' = brk st →
  (∀ s, c = AServer s → server_mask m) →
  wf st'.
Proof.
  intros Hwf Hp He Hs Hh Hb Hmask.
  constructor; unfold server_conn_live; rewrite ?He, ?Hs, ?Hh, ?Hb;
    [|apply (wf_singleton st Hwf)|apply (wf_pending st Hwf)|apply (wf_brk st Hwf)
     |intros s0 Hs0; by apply (wf_conn st Hwf)].
  intros q d Hq. destruct (decide (fd_of d = fd_of c)) as [Hfd|Hfd].
  - assert (q = p) as -> by (by eapply wf_fd_inj).
    assert (d = c) as -> by congruence.
    rewrite lookup_insert_eq. eexists. by repeat split.
  - rewrite lookup_insert_ne by done. by apply (wf_registered st Hwf).
Qed.

Lemma wf_new_client st st' fd m :
  wf st →
  epoll st !! fd = None →
  epoll st' = <[fd := mkEvent m (brk st)]> (epoll st) →
  server_conn st' = server_conn st →
  heap st' = <[brk st := AClient (mkClient fd Buffer.empty None)]> (heap st) →
  brk st' = N.succ (brk st) →
  wf st'.
Proof.
  intros Hwf Hfree He Hs Hh Hb.
  assert (Hfresh : ∀ q, is_Some (heap st !! q) → q ≠ brk st).
  { intros q Hq. apply (wf_brk st Hwf) in Hq. lia. }
  constructor; unfold server_conn_live; rewrite ?He, ?Hs, ?Hh, ?Hb.
  - intros q d. destruct (decide (q = brk st)) as [->|Hne].
    + rewrite lookup_insert_eq. intros [= <-]. simpl.
      rewrite lookup_insert_eq. eexists. by repeat split.
    + rewrite lookup_insert_ne by done. intros Hq.
      destruct (wf_registered st Hwf q d Hq) as (reg & Hreg & Hptr & Hmask).
      exists reg. rewrite lookup_insert_ne by congruence. by repeat split.
  - intros q s. destruct (decide (q = brk st)) as [->|Hne].
    + by rewrite lookup_insert_eq.
    + rewrite lookup_insert_ne by done. apply (wf_singleton st Hwf).
  - intros q s x. destruct (decide (q = brk st)) as [->|Hne].
    + by rewrite lookup_insert_eq.
    + rewrite lookup_insert_ne by done. intros Hq Hx.
      destruct (wf_pending st Hwf q s x Hq Hx) as [c0 Hc0].
      exists c0. rewrite lookup_insert_ne; [done|].
      apply not_eq_sym, Hfresh. eauto.
  - intros q. rewrite lookup_insert_is_Some. intros [<-|[_ Hq]]; [lia|].
    apply (wf_brk st Hwf) in Hq. lia.
  - intros s0 Hs0. destruct (wf_conn st Hwf s0 Hs0) as [srv Hsrv].
    exists srv. rewrite lookup_insert_ne; [done|].
    apply not_eq_sym, Hfresh. eauto.
Qed.

Lemma wf_new_server st st' fd :
  wf st →
  server_conn st = None →
  epoll st !! fd = None →
  epoll st' = <[fd := mkEvent (Z.lor (Z.lor EPOLLIN EPOLLOUT) EPOLLET) (brk st)]>
                (epoll st) →
  server_conn st' = Some (brk st) →
  heap st' = <[brk st := AServer (mkServer fd Buffer.empty [] [])]> (heap st) →
  brk st' = N.succ (brk st) →
  wf st'.
Proof.
  intros Hwf Hnone Hfree He Hs Hh Hb.
  assert (Hfresh : ∀ q, is_Some (heap st !! q) → q ≠ brk st).
  { intros q Hq. apply (wf_brk st Hwf) in Hq. lia. }
  assert (Hnoserver : ∀ q s, heap st !! q ≠ Some (AServer s)).
  { intros q s Hq. apply (wf_singleton st Hwf) in Hq. congruence. }
  constructor; unfold server_conn_live; rewrite ?He, ?Hs, ?Hh, ?Hb.
  - intros q d. destruct (decide (q = brk st)) as [->|Hne].
    + rewrite lookup_insert_eq. intros [= <-]. simpl.
      rewrite lookup_insert_eq. eexists. repeat split. by left.
    + rewrite lookup_insert_ne by done. intros Hq.
      destruct (wf_registered st Hwf q d Hq) as (reg & Hreg & Hptr & Hmask).
      exists reg. rewrite lookup_insert_ne by congruence. by repeat split.
  - intros q s. destruct (decide (q = brk st)) as [->|Hne]; [done|].
    rewrite lookup_insert_ne by done. intros Hq. by apply Hnoserver in Hq.
  - intros q s x. destruct (decide (q = brk st)) as [->|Hne].
    + rewrite lookup_insert_eq. intros [= <-]. simpl. by rewrite elem_of_nil.
    + rewrite lookup_insert_ne by done. intros Hq. by apply Hnoserver in Hq.
  - intros q. rewrite lookup_insert_is_Some. intros [<-|[_ Hq]]; [lia|].
    apply (wf_brk st Hwf) in Hq. lia.
  - intros s0 [= <-]. rewrite lookup_insert_eq. eauto.
Qed.

Lemma wf_free_client st st' p c :
  wf st →
  heap st !! p = Some (AClient c) →
  epoll st' = delete (c_fd c) (epoll st) →
  server_conn st' = server_conn st →
  heap st' = delete p (heap st) → brk st' = brk st →
  (∀ q s, heap st !! q = Some (AServer s) → Some p ∉ ready_clients s) →
  wf st'.
Proof.
  intros Hwf Hp He Hs Hh Hb Hgone.
  constructor; unfold server_conn_live; rewrite ?He, ?Hs, ?Hh, ?Hb.
  - intros q d. rewrite lookup_delete_Some. intros [Hne Hq].
    destruct (wf_registered st Hwf q d Hq) as (reg & Hreg & Hptr & Hmask).
    exists reg. rewrite lookup_delete_ne; [by repeat split|].
    intros Hfd. apply Hne.
    by apply (wf_fd_inj st p q (AClient c) d).
  - intros q s. rewrite lookup_delete_Some. intros [_ Hq].
    by apply (wf_singleton st Hwf q s).
  - intros q s x. rewrite lookup_delete_Some. intros [_ Hq] Hx.
    destruct (wf_pending st Hwf q s x Hq Hx) as [c0 Hc0].
    exists c0. rewrite lookup_delete_ne; [done|].
    intros <-. by apply (Hgone q s Hq).
  - intros q. rewrite lookup_delete_is_Some. intros [_ Hq].
    by apply (wf_brk st Hwf).
  - intros s0 Hs0. destruct (wf_conn st Hwf s0 Hs0) as [srv Hsrv].
    exists srv. rewrite lookup_delete_ne; [done|congruence].
Qed.

Lemma wf_free_server st st' p s :
  wf st →
  heap st !! p = Some (AServer s) →
  epoll st' = delete (s_fd s) (epoll st) →
  server_conn st' = None →
  heap st' = delete p (heap st) → brk st' = brk st →
  wf st'.
Proof.
  intros Hwf Hp He Hs Hh Hb.
  assert (Honly : ∀ q s0, q ≠ p → heap st !! q ≠ Some (AServer s0)).
  { intros q s0 Hne Hq. apply (wf_singleton st Hwf) in Hq, Hp. congruence. }
  constructor; unfold server_conn_live; rewrite ?He, ?Hs, ?Hh, ?Hb.
  - intros q d. rewrite lookup_delete_Some. intros [Hne Hq].
    destruct (wf_registered st Hwf q d Hq) as (reg & Hreg & Hptr & Hmask).
    exists reg. rewrite lookup_delete_ne; [by repeat split|].
    intros Hfd. apply Hne.
    by apply (wf_fd_inj st p q (AServer s) d).
  - intros q s0. rewrite lookup_delete_Some. intros [Hne Hq].
    by apply Honly in Hq.
  - intros q s0 x. rewrite lookup_delete_Some. intros [Hne Hq].
    by apply Honly in Hq.
  - intros q. rewrite lookup_delete_is_Some. intros [_ Hq].
    by apply (wf_brk st Hwf).
  - intros s0 Hs0. congruence.
Qed.

(** ** Steps of the monad, for partial correctness *)

Lemma wp_ret {A} (a : A) (Q : A → Process → Prop) st : Q a st → wp (mret a) Q st.
Proof. done. Qed.

Lemma wp_gets {A} (f : Process → A) (Q : A → Process → Prop) st :
  Q (f st) st → wp (gets f) Q st.
Proof. done. Qed.

Lemma wp_modify f (Q : unit → Process → Prop) st : Q tt (f st) → wp (modify f) Q st.
Proof. done. Qed.

Lemma wp_exit {A} code (Q : A → Process → Prop) st : wp (exit code) Q st.
Proof. done. Qed.

Lemma wp_undefined {A} (Q : A → Process → Prop) st : wp undefined Q st.
Proof. done. Qed.

Lemma wp_then_exit {A B} (m : M A) code (Q : B → Process → Prop) st :
  wp (m;; exit code) Q st.
Proof. unfold wp. rewrite bind_unfold. by destruct (m st). Qed.

Lemma wp_get_client p (Q : Client → Process → Prop) st :
  (∀ c, heap st !! p = Some (AClient c) → Q c st) → wp (get_client p) Q st.
Proof.
  intros HQ. unfold wp, get_client.
  destruct (heap st !! p) as [[fd|s|c]|]; auto.
Qed.

Lemma wp_get_server p (Q : Server → Process → Prop) st :
  (∀ s, heap st !! p = Some (AServer s) → Q s st) → wp (get_server p) Q st.
Proof.
  intros HQ. unfold wp, get_server.
  destruct (heap st !! p) as [[fd|s|c]|]; auto.
Qed.

Lemma wp_epoll_ctl_add fd ev (Q : Z → Process → Prop) st :
  (epoll st !! fd = None →
   Q 0 (log (sys_epoll_add fd ev 0) (set_epoll <[fd := ev]> st))) →
  Q (-1) (log (sys_epoll_add fd ev (-1)) st) →
  wp (epoll_ctl_add fd ev) Q st.
Proof.
  intros Hok Hfail. unfold wp, epoll_ctl_add.
  destruct (epoll st !! fd); auto.
Qed.

Lemma wp_epoll_ctl_mod fd ev (Q : Z → Process → Prop) st :
  (is_Some (epoll st !! fd) →
   Q 0 (log (sys_epoll_mod fd ev 0) (set_epoll <[fd := ev]> st))) →
  Q (-1) (log (sys_epoll_mod fd ev (-1)) st) →
  wp (epoll_ctl_mod fd ev) Q st.
Proof.
  intros Hok Hfail. unfold wp, epoll_ctl_mod.
  destruct (epoll st !! fd); eauto.
Qed.

Lemma wp_epoll_ctl_del fd (Q : Z → Process → Prop) st :
  (∀ r, Q r (log (sys_epoll_del fd r) (set_epoll (delete fd) st))) →
  wp (epoll_ctl_del fd) Q st.
Proof. intros HQ. apply HQ. Qed.

Lemma wp_new c (Q : ptr → Process → Prop) st :
  Q (brk st) (set_brk (N.succ (brk st)) (set_heap <[brk st := c]> st)) →
  wp (new c) Q st.
Proof. done. Qed.

Ltac wp_step :=
  lazymatch goal with
  | |- wp (new _) _ _ => apply wp_new
  | |- wp (_ ≫= _) _ _ => apply wp_bind
  | |- wp (mret _) _ _ => apply wp_ret
  | |- wp (gets _) _ _ => apply wp_gets
  | |- wp (modify _) _ _ => apply wp_modify
  | |- wp (put _ _) _ _ => apply wp_modify
  | |- wp (free _) _ _ => apply wp_modify
  | |- wp (close _) _ _ => apply wp_modify
  | |- wp (exit _) _ _ => apply wp_exit
  | |- wp undefined _ _ => apply wp_undefined
  end; cbv beta.

Ltac wp_go := repeat wp_step.

(** ** The handlers keep the invariant *)

Lemma elem_of_replace_null q cli l :
  Some q ∈ replace_null cli l → Some q ∈ l.
Proof.
  unfold replace_null. rewrite list_elem_of_fmap.
  intros (c & Hc & Hin). by case_decide; subst.
Qed.

Lemma Server_push_client_wf this cli st :
  wf st →
  wp (Server_push_client this cli)
     (λ _ st', wf st'
               ∧ ∀ p c, heap st !! p = Some (AClient c) →
                        heap st' !! p = Some (AClient c)) st.
Proof.
  intros Hwf. unfold Server_push_client.
  wp_go. apply wp_get_server. intros s Hs. wp_go. split.
  - eapply wf_put_server; [exact Hwf|exact Hs|reflexivity..|].
    intros q Hq. by apply (wf_pending st Hwf this s).
  - intros p c Hp. simpl. rewrite lookup_insert_ne; [done|congruence].
Qed.

Lemma Server_pop_client_wf this cli st :
  wf st →
  wp (Server_pop_client this cli)
     (λ _ st', wf st'
               ∧ server_conn st' = server_conn st
               ∧ (∀ p c, heap st !! p = Some (AClient c) →
                         heap st' !! p = Some (AClient c))
               ∧ ∀ s', heap st' !! this = Some (AServer s') →
                       Some cli ∉ ready_clients s') st.
Proof.
  intros Hwf. unfold Server_pop_client.
  wp_go. apply wp_get_server. intros s Hs. wp_go.
  split; [|split; [done|split]].
  - eapply wf_put_server; [exact Hwf|exact Hs|reflexivity..|].
    intros q Hq. apply (wf_pending st Hwf this s); [done|].
    by apply elem_of_replace_null in Hq.
  - intros p c Hp. simpl. rewrite lookup_insert_ne; [done|congruence].
  - intros s'. simpl. rewrite lookup_insert_eq. intros [= <-]. simpl.
    apply replace_null_gone.
Qed.

Lemma delete_Client_wf this st :
  wf st → wp (delete_Client this) (λ _, wf) st.
Proof.
  intros Hwf. unfold delete_Client, Proxy_shut_client.
  wp_go.
  assert (Hpop : wp (match server_conn st with
                     | Some svr => Server_pop_client svr this
                     | None => mret tt
                     end)
                    (λ _ st1, wf st1
                       ∧ (∀ c, heap st !! this = Some (AClient c) →
                               heap st1 !! this = Some (AClient c))
                       ∧ ∀ q s, heap st1 !! q = Some (AServer s) →
                                Some this ∉ ready_clients s) st).
  { destruct (server_conn st) as [svr|] eqn:Hconn.
    - eapply wp_mono; [|by apply Server_pop_client_wf].
      intros _ st1 (Hwf1 & Hconn1 & Hcl & Hgone). split; [done|].
      split; [by intros c; apply Hcl|].
      intros q s Hq.
      assert (q = svr) as ->.
      { apply (wf_singleton st1 Hwf1) in Hq. congruence. }
      by apply Hgone.
    - apply wp_ret. split; [done|]. split; [done|].
      intros q s Hq. apply (wf_singleton st Hwf) in Hq. congruence. }
  eapply wp_mono; [|exact Hpop]. clear Hpop.
  intros _ st1 (Hwf1 & _ & Hgone). cbv beta.
  wp_go. apply wp_get_client. intros c Hc.
  wp_go. apply wp_epoll_ctl_del. intros r.
  wp_go. apply wp_get_client. intros c' Hc'. simpl in Hc'.
  assert (c' = c) as -> by congruence.
  wp_go.
  eapply (wf_free_client st1); [exact Hwf1|exact Hc|..|exact Hgone]; try done.
  simpl. by rewrite delete_delete_eq.
Qed.

Lemma delete_Server_wf this st :
  wf st → wp (delete_Server this) (λ _, wf) st.
Proof.
  intros Hwf. unfold delete_Server, Proxy_shut_server.
  wp_go. apply wp_get_server. intros s Hs. simpl in Hs.
  wp_go.
  by eapply (wf_free_server st); [exact Hwf|exact Hs|..].
Qed.

Lemma Proxy_notify_each_wf : ∀ range st,
  wf st →
  wp (Proxy_notify_each range) (λ _ st', wf st' ∧ heap st' = heap st) st.
Proof.
  induction range as [|[cli|] range IH]; intros st Hwf; simpl.
  - by apply wp_ret.
  - wp_go. apply wp_get_client. intros c Hc.
    wp_go. apply wp_epoll_ctl_mod; [intros _|]; simpl; [|apply wp_exit].
    eapply wp_mono; [|apply IH].
    + by intros _ st' [? ->].
    + by eapply (wf_mod st _ cli (AClient c)); [exact Hwf|exact Hc|reflexivity..|].
  - by apply IH.
Qed.

Lemma set_nonblocking_wf env fd st (Q : unit → Process → Prop) :
  Q tt st → wp (set_nonblocking env fd) Q st.
Proof. intros HQ. unfold set_nonblocking. by destruct (env_fcntl env). Qed.

Lemma Proxy_connect_to_wf env st :
  wf st →
  wp (Proxy_connect_to env)
     (λ _ st', wf st'
               ∧ ∀ p c, heap st !! p = Some c → heap st' !! p = Some c) st.
Proof.
  intros Hwf. unfold Proxy_connect_to.
  wp_go. destruct (server_conn st) as [svr|] eqn:Hconn; [by apply wp_ret|].
  wp_go. destruct (env_socket env <? 0); [apply wp_exit|].
  wp_go. apply set_nonblocking_wf.
  destruct (env_gethostbyname env); simpl; [|apply wp_exit].
  wp_go. apply wp_epoll_ctl_add; [intros Hfree|]; simpl; [|apply wp_exit].
  wp_go. destruct (env_connect env); simpl; [|apply wp_exit].
  apply wp_ret. split.
  - by eapply (wf_new_server st); [exact Hwf|exact Hconn|exact Hfree|..].
  - intros p c Hp. simpl. rewrite lookup_insert_ne; [done|].
    intros <-. assert (brk st < brk st)%N; [|lia].
    apply (wf_brk st Hwf). eauto.
Qed.

Lemma accept_loop_wf env : ∀ results st,
  wf st → wp (accept_loop env results) (λ _, wf) st.
Proof.
  induction results as [|conn_sock results IH]; intros st Hwf; simpl.
  - wp_go. by eapply wf_frame.
  - wp_go. destruct (conn_sock >? 0); [|wp_go; by eapply wf_frame].
    wp_go. apply set_nonblocking_wf.
    wp_go. apply wp_epoll_ctl_add; [intros Hfree|]; simpl; [|apply wp_exit].
    apply IH.
    by eapply (wf_new_client st); [exact Hwf|exact Hfree|..].
Qed.

Lemma Acceptor_triggered_wf env this events st :
  wf st → wp (Acceptor_triggered env this events) (λ _, wf) st.
Proof.
  intros Hwf. unfold Acceptor_triggered, Proxy_accept_from.
  wp_go. destruct (heap st !! this) as [[fd|s|c]|]; try apply wp_undefined.
  wp_go. eapply wp_mono; [|by apply accept_loop_wf].
  intros r st' Hwf'. cbv beta.
  destruct ((r =? -1) && env_accept_fatal env); [apply wp_exit|by apply wp_ret].
Qed.

Lemma requests_live st cs bufs q :
  mapM (request_of st) cs = Some bufs →
  Some q ∈ cs → ∃ c, heap st !! q = Some (AClient c).
Proof.
  rewrite mapM_Some. intros Hall Hq.
  apply list_elem_of_lookup in Hq as [i Hi].
  destruct (Forall2_lookup_l _ _ _ _ _ Hall Hi) as (b & _ & Hb).
  simpl in Hb.
  destruct (heap st !! q) as [[fd|s|c]|]; try done; eauto.
Qed.

Lemma Server__send_to_wf env this st :
  wf st → wp (Server__send_to env this) (λ _, wf) st.
Proof.
  intros Hwf. unfold wp.
  destruct (Server__send_to env this st) as [[] st'| | |] eqn:Hrun; try done.
  destruct (heap st !! this) as [[fd|srv|c]|] eqn:Hthis;
    try (unfold Server__send_to in Hrun; rewrite bind_unfold in Hrun;
         unfold get_server in Hrun; by rewrite Hthis in Hrun).
  destruct (decide (clients srv = [])) as [Hstaged|Hstaged].
  { rewrite (Server__send_to_skips env this srv st Hthis) in Hrun by auto.
    by injection Hrun as <-. }
  destruct (decide (ready_clients srv = [])) as [Hpending|Hpending].
  2:{ rewrite (Server__send_to_skips env this srv st Hthis) in Hrun by auto.
      by injection Hrun as <-. }
  destruct (Server__send_to_effect _ _ _ _ _ Hthis Hstaged Hpending Hrun)
    as (bufs & attempts & Hbufs & _ & ->).
  set (moved := mkServer (s_fd srv) (_buffer srv) [] (clients srv)).
  assert (Hwf1 : wf (set_heap <[this := AServer moved]> st)).
  { eapply wf_put_server; [exact Hwf|exact Hthis|reflexivity..|].
    intros q Hq. by eapply requests_live. }
  eapply (wf_mod _ _ this (AServer moved)); [exact Hwf1|..].
  - simpl. apply lookup_insert_eq.
  - reflexivity.
  - reflexivity.
  - reflexivity.
  - reflexivity.
  - intros _ _. by right.
Qed.

Lemma copy_messages_wf buf ready : ∀ ms it st,
  wf st →
  wp (copy_messages buf ready it ms)
     (λ _ st', wf st'
               ∧ ∀ p s, heap st !! p = Some (AServer s) →
                        heap st' !! p = Some (AServer s)) st.
Proof.
  induction ms as [|m ms IH]; intros it st Hwf; simpl.
  - by apply wp_ret.
  - destruct (ready !! it) as [[cli|]|]; [|by apply IH|apply wp_undefined].
    wp_go. apply wp_get_client. intros c Hc. wp_go.
    eapply wp_mono; [|apply IH].
    + intros _ st' [Hwf' Hsrv]. split; [done|].
      intros p s Hp. apply Hsrv. simpl.
      rewrite lookup_insert_ne; [done|congruence].
    + by eapply wf_put_client; [exact Hwf|exact Hc|reflexivity..].
Qed.

Lemma Server__recv_from_wf split env this st :
  wf st → wp (Server__recv_from split env this) (λ _, wf) st.
Proof.
  intros Hwf. unfold Server__recv_from.
  wp_go. apply wp_get_server. intros srv Hsrv.
  unfold Buffer.read. wp_go.
  set (buf := _buffer srv ++ env_read env).
  set (st1 := set_heap _ (log _ st)).
  assert (Hwf1 : wf st1).
  { eapply wf_put_server; [exact Hwf|exact Hsrv|reflexivity..|].
    intros q Hq. by apply (wf_pending st Hwf this srv). }
  assert (Hsrv1 : heap st1 !! this
                  = Some (AServer (mkServer (s_fd srv) buf (clients srv)
                                            (ready_clients srv))))
    by apply lookup_insert_eq.
  destruct (Z.of_nat (length (env_read env)) =? 0); [by apply wp_ret|].
  destruct (split buf) as [msgs|]; [|apply wp_exit].
  destruct (_ >? _); [apply wp_then_exit|].
  wp_go. eapply wp_mono; [|by apply copy_messages_wf].
  intros client_it st2 [Hwf2 Hkeep]. cbv beta.
  wp_go. eapply wp_mono; [|by apply Proxy_notify_each_wf].
  intros _ st3 [Hwf3 Hheap3]. cbv beta.
  assert (Hsrv3 : heap st3 !! this
                  = Some (AServer (mkServer (s_fd srv) buf (clients srv)
                                            (ready_clients srv)))).
  { rewrite Hheap3. by apply Hkeep. }
  wp_go.
  match goal with
  | |- wp _ _ ?s => assert (Hwf4 : wf s); [|set (st4 := s) in *]
  end.
  { eapply wf_put_server; [exact Hwf3|exact Hsrv3|reflexivity..|].
    simpl. intros q Hq.
    apply (wf_pending st3 Hwf3 this _ q Hsrv3). simpl.
    by eapply subseteq_drop. }
  apply wp_epoll_ctl_mod; [intros _|]; simpl; [|apply wp_exit].
  apply wp_ret.
  eapply (wf_mod st4 _ this); [exact Hwf4|apply lookup_insert_eq|reflexivity..|].
  intros _ _. by left.
Qed.

Lemma Server_triggered_wf split env this events st :
  wf st → wp (Server_triggered split env this events) (λ _, wf) st.
Proof.
  intros Hwf. unfold Server_triggered.
  destruct (flag events EPOLLRDHUP); [by apply delete_Server_wf|].
  wp_go.
  assert (Hrecv : wp (if flag events EPOLLIN
                      then Server__recv_from split env this else mret tt)
                     (λ _, wf) st).
  { destruct (flag events EPOLLIN);
      [by apply Server__recv_from_wf|by apply wp_ret]. }
  eapply wp_mono; [|exact Hrecv].
  intros [] st' Hwf'. cbv beta.
  destruct (flag events EPOLLOUT);
    [by apply Server__send_to_wf|by apply wp_ret].
Qed.

Lemma Client__send_to_wf this st :
  wf st → wp (Client__send_to this) (λ _, wf) st.
Proof.
  intros Hwf. unfold Client__send_to.
  wp_go. apply wp_get_client. intros c Hc. wp_go.
  match goal with
  | |- wp _ _ ?s => assert (Hwf1 : wf s); [|set (st1 := s) in *]
  end.
  { by eapply wf_put_client; [exact Hwf|exact Hc|reflexivity..]. }
  apply wp_epoll_ctl_mod; [intros _|]; simpl; [|apply wp_exit].
  apply wp_ret.
  eapply (wf_mod st1 _ this (AClient _));
    [exact Hwf1|apply lookup_insert_eq|reflexivity..|done].
Qed.

Lemma Client__recv_from_wf env this st :
  wf st → wp (Client__recv_from env this) (λ _, wf) st.
Proof.
  intros Hwf. unfold Client__recv_from.
  wp_go. apply wp_get_client. intros c Hc. wp_go.
  assert (Hpeer : wp (match peer c with
                      | Some p => mret p
                      | None =>
                          p ← Proxy_connect_to env;
                          put this (AClient (mkClient (c_fd c) (buffer c) (Some p)));;
                          mret p
                      end)
                     (λ _ st1, wf st1 ∧ ∃ c1, heap st1 !! this = Some (AClient c1)
                                              ∧ c_fd c1 = c_fd c) st).
  { destruct (peer c) as [p|]; [apply wp_ret; eauto|].
    wp_go. eapply wp_mono; [|by apply Proxy_connect_to_wf].
    intros p st1 [Hwf1 Hkeep]. cbv beta. wp_go. split.
    - by eapply wf_put_client; [exact Hwf1|apply Hkeep, Hc|reflexivity..].
    - eexists. split; [apply lookup_insert_eq|done]. }
  eapply wp_mono; [|exact Hpeer]. clear Hpeer.
  intros svr st1 (Hwf1 & c1 & Hc1 & Hfd1). cbv beta.
  wp_go. eapply wp_mono; [|by apply Server_push_client_wf].
  intros _ st2 [Hwf2 Hkeep2]. cbv beta.
  wp_go. apply wp_get_client. intros c2 Hc2.
  unfold Buffer.read. wp_go.
  match goal with
  | |- wp _ _ ?s => assert (Hwf3 : wf s); [|set (st3 := s) in *]
  end.
  { by eapply wf_put_client; [exact Hwf2|exact Hc2|reflexivity..]. }
  destruct (Z.of_nat (length (env_read env)) =? 0);
    [by apply delete_Client_wf|].
  wp_go. apply wp_get_server. intros s Hs.
  wp_go. apply wp_epoll_ctl_mod; [intros _|]; simpl; [|apply wp_exit].
  apply wp_ret.
  eapply (wf_mod st3 _ svr (AServer s)); [exact Hwf3|exact Hs|reflexivity..|].
  intros _ _. by left.
Qed.

Lemma Client_triggered_wf env this events st :
  wf st → wp (Client_triggered env this events) (λ _, wf) st.
Proof.
  intros Hwf. unfold Client_triggered.
  destruct (flag events EPOLLRDHUP); [by apply delete_Client_wf|].
  wp_go.
  assert (Hrecv : wp (if flag events EPOLLIN
                      then Client__recv_from env this else mret tt)
                     (λ _, wf) st).
  { destruct (flag events EPOLLIN);
      [by apply Client__recv_from_wf|by apply wp_ret]. }
  eapply wp_mono; [|exact Hrecv].
  intros [] st' Hwf'. cbv beta.
  destruct (flag events EPOLLOUT);
    [by apply Client__send_to_wf|by apply wp_ret].
Qed.

Lemma triggered_wf split env conn events st :
  wf st → wp (triggered split env conn events) (λ _, wf) st.
Proof.
  intros Hwf. unfold triggered. wp_go.
  destruct (heap st !! conn) as [[fd|s|c]|].
  - by apply Acceptor_triggered_wf.
  - by apply Server_triggered_wf.
  - by apply Client_triggered_wf.
  - apply wp_undefined.
Qed.

Lemma init_wf listen_fd : wf (init listen_fd).
Proof.
  constructor; simpl.
  - intros p c. rewrite lookup_singleton_Some. intros [<- <-]. simpl.
    rewrite lookup_singleton_eq. eexists. by repeat split.
  - intros p s. rewrite lookup_singleton_Some. by intros [_ ?].
  - intros p s q. rewrite lookup_singleton_Some. by intros [_ ?].
  - intros p [c Hc]. apply lookup_singleton_Some in Hc as [<- _]. lia.
  - intros s0 Hs0. done.
Qed.

Lemma dispatch_wf split e st :
  wf st → wp (dispatch split e) (λ _, wf) st.
Proof.
  intros Hwf. unfold dispatch. wp_go.
  destruct (epoll st !! ev_fd e); [by apply triggered_wf|by apply wp_ret].
Qed.

Lemma reachable_wf split st : reachable split st → wf st.
Proof.
  induction 1 as [listen_fd|st e st' _ IH [_ Hrun]].
  - apply init_wf.
  - by apply (wp_elim _ _ _ _ _ (dispatch_wf split e st IH) Hrun).
Qed.

(** * Reachable states *)

Lemma reach_by_reachable split : ∀ es st st',
  reachable split st → reach_by split es st = Some st' → reachable split st'.
Proof.
  induction es as [|e es IH]; intros st st' Hr; simpl.
  - by intros [= <-].
  - destruct (may_report st e) eqn:Hrep; [|done].
    destruct (dispatch split e st) as [[] st1| | |] eqn:Hrun; try done.
    apply IH. by eapply reach_step.
Qed.

Lemma state_after_reachable es :
  is_Some (reach_by Resp.split es (init 3)) →
  reachable Resp.split (state_after es).
Proof.
  intros [st Hst]. unfold state_after. rewrite Hst. simpl.
  eapply reach_by_reachable; [apply reach_init|exact Hst].
Qed.

Lemma server_masks_no_hup m : server_mask m → Z.land m EPOLLRDHUP = 0.
Proof. by intros [->| ->]. Qed.

(** C9.  The registration of the upstream descriptor.  When
    [connect_to] creates the upstream session it registers its
    descriptor for EPOLLIN|EPOLLOUT|EPOLLET.  In every state the loop
    reaches, a live upstream session is the one [server_conn] points
    to, its descriptor is registered with [data.ptr] pointing to it,
    and the mask is EPOLLIN|EPOLLOUT|EPOLLET or EPOLLIN|EPOLLET: the
    bit EPOLLRDHUP is never part of it. *)
Theorem upstream_interest_never_hup (split : list byte → option SplitResult) :
  (∀ env st p st',
     server_conn st = None →
     Proxy_connect_to env st = Ok p st' →
     ∃ srv, heap st' !! p = Some (AServer srv)
            ∧ epoll st' !! s_fd srv
              = Some (mkEvent (Z.lor (Z.lor EPOLLIN EPOLLOUT) EPOLLET) p))
  ∧ (∀ st, reachable split st →
       ∀ p srv, heap st !! p = Some (AServer srv) →
         server_conn st = Some p
         ∧ ∃ reg, epoll st !! s_fd srv = Some reg
                  ∧ data_ptr reg = p
                  ∧ (events reg = Z.lor (Z.lor EPOLLIN EPOLLOUT) EPOLLET
                     ∨ events reg = Z.lor EPOLLIN EPOLLET)
                  ∧ Z.land (events reg) EPOLLRDHUP = 0).
Proof.
  split.
  - intros env st p st' Hnone Hrun.
    refine (wp_elim (Proxy_connect_to env)
              (λ p st', ∃ srv, heap st' !! p = Some (AServer srv)
                 ∧ epoll st' !! s_fd srv
                   = Some (mkEvent (Z.lor (Z.lor EPOLLIN EPOLLOUT) EPOLLET) p))
              st p st' _ Hrun).
    unfold Proxy_connect_to. wp_go. rewrite Hnone.
    wp_go. destruct (env_socket env <? 0); [apply wp_exit|].
    wp_go. apply set_nonblocking_wf.
    destruct (env_gethostbyname env); simpl; [|apply wp_exit].
    wp_go. apply wp_epoll_ctl_add; [intros Hfree|]; simpl; [|apply wp_exit].
    wp_go. destruct (env_connect env); simpl; [|apply wp_exit].
    apply wp_ret. eexists.
    split; [apply lookup_insert_eq|]. simpl. apply lookup_insert_eq.
  - intros st Hreach p srv Hp.
    apply reachable_wf in Hreach.
    split; [by apply (wf_singleton st Hreach p srv)|].
    destruct (wf_registered st Hreach p _ Hp) as (reg & Hreg & Hptr & Hmask).
    exists reg. specialize (Hmask srv eq_refl).
    repeat split; try done. by apply server_masks_no_hup.
Qed.

Lemma elem_of_pending_clients srv q :
  q ∈ pending_clients srv ↔ Some q ∈ ready_clients srv.
Proof.
  unfold pending_clients. rewrite elem_of_list_to_set, list_elem_of_omap.
  split.
  - intros (x & Hx & Heq). simpl in Heq. by subst.
  - intros Hq. by exists (Some q).
Qed.

Lemma elem_of_live_clients st q :
  q ∈ live_clients st ↔ ∃ c, heap st !! q = Some (AClient c).
Proof.
  unfold live_clients. rewrite elem_of_dom. unfold is_Some.
  setoid_rewrite map_lookup_filter_Some. simpl. split.
  - intros ([fd|s|c] & Hq & Hc); try done. eauto.
  - intros [c Hc]. by exists (AClient c).
Qed.

(** C7, as amended.  In every state the loop reaches, each entry of
    pending that is not null points to a live client; so the clients
    pending refers to are at most as many as the live clients. *)
Theorem pending_entries_are_live (split : list byte → option SplitResult)
    (st : Process) :
  reachable split st →
  ∀ p srv, heap st !! p = Some (AServer srv) →
    (∀ q, Some q ∈ ready_clients srv → ∃ c, heap st !! q = Some (AClient c))
    ∧ (size (pending_clients srv) ≤ size (live_clients st))%nat.
Proof.
  intros Hreach p srv Hp. apply reachable_wf in Hreach.
  assert (Hlive : ∀ q, Some q ∈ ready_clients srv →
                       ∃ c, heap st !! q = Some (AClient c))
    by (intros q; by apply (wf_pending st Hreach p srv)).
  split; [done|].
  apply subseteq_size. intros q.
  rewrite elem_of_pending_clients, elem_of_live_clients. apply Hlive.
Qed.

(** * The theorems on the scenarios of the spec *)

(** S3: the upstream answers [+PONG] and [$-1] to the two requests in
    flight; A gets the first, B the second. *)
Lemma recv_from_routes_by_position_witness :
  ∃ st',
    Server__recv_from Resp.split (reading (pong ++ nil_reply) (-1)) 3%N
      (state_after two_pending_events) = Ok tt st'
    ∧ heap st' !! 1%N = Some (AClient (mkClient 5 (ping ++ pong) (Some 3%N)))
    ∧ heap st' !! 2%N = Some (AClient (mkClient 7 (get_x ++ nil_reply) (Some 3%N))).
Proof.
  destruct (recv_from_routes_by_position Resp.split
              (reading (pong ++ nil_reply) (-1)) 3%N
              (mkServer 6 [] [] [Some 1%N; Some 2%N])
              (state_after two_pending_events)
              (mkSplit [(0, 7); (7, 12)]%nat true 12))
    as (st' & srv' & Hrun & _ & _ & _ & Hroute & _).
  - apply (reachable_wf Resp.split), state_after_reachable.
    eexists. vm_compute. reflexivity.
  - vm_compute. reflexivity.
  - discriminate.
  - vm_compute. reflexivity.
  - simpl. lia.
  - exists st'. split; [exact Hrun|]. split.
    + etransitivity; [apply (Hroute 1%N (mkClient 5 ping (Some 3%N)))|];
        vm_compute; reflexivity.
    + etransitivity; [apply (Hroute 2%N (mkClient 7 get_x (Some 3%N)))|];
        vm_compute; reflexivity.
Defined.

(** S6: the upstream sends [@garbage]; the process exits and the two
    clients are as they were. *)
Example garbage_exits :
  ∃ st',
    Server__recv_from Resp.split (reading (line "@garbage") (-1)) 3%N
      (state_after two_pending_events) = Exit 1 st'
    ∧ heap st' !! 1%N = heap (state_after two_pending_events) !! 1%N
    ∧ heap st' !! 2%N = heap (state_after two_pending_events) !! 2%N.
Proof.
  destruct (Server__recv_from_exits Resp.split
              (reading (line "@garbage") (-1)) 3%N
              (mkServer 6 [] [] [Some 1%N; Some 2%N])
              (state_after two_pending_events))
    as (st' & Hrun & _ & _ & Hheap & _).
  - vm_compute. reflexivity.
  - discriminate.
  - left. vm_compute. reflexivity.
  - exists st'. repeat split; try done; by apply Hheap.
Qed.

(** S4: the upstream sends [+PO], then the rest of the first reply and
    a second reply; both clients have their reply appended and the
    buffer of the upstream session ends empty. *)
Example partial_then_rest :
  let st := state_after
              (two_pending_events ++
               [ mkEv 6 EPOLLIN (reading (bytes "+PO") (-1));
                 mkEv 6 EPOLLIN (reading (line "NG" ++ pong) (-1)) ]) in
  heap st !! 1%N = Some (AClient (mkClient 5 (ping ++ pong) (Some 3%N)))
  ∧ heap st !! 2%N = Some (AClient (mkClient 7 (get_x ++ pong) (Some 3%N)))
  ∧ heap st !! 3%N = Some (AServer (mkServer 6 [] [] [])).
Proof. vm_compute. by repeat split. Qed.

(** C2.  The claim fails on the code when pending holds a null entry.
    A client sends two PINGs in one read and hangs up once they are
    written upstream: pending is one null entry.  The upstream answers
    [+PONG] twice; the framer yields two messages, more than pending
    has entries; the loop that prints the pending clients dereferences
    the null entry before [exit(1)] is reached, so the call does not
    end in an exit. *)
Theorem overflow_report_uses_tombstone :
  reachable Resp.split (state_after pipelined_hup_events)
  ∧ heap (state_after pipelined_hup_events) !! 2%N
    = Some (AServer (mkServer 6 [] [] [None]))
  ∧ Resp.split (pong ++ pong) = Some (mkSplit [(0, 7); (7, 14)]%nat true 14)
  ∧ Server__recv_from Resp.split (reading (pong ++ pong) (-1)) 2%N
      (state_after pipelined_hup_events) = Undefined
  ∧ may_report (state_after pipelined_hup_events)
      (mkEv 6 EPOLLIN (reading (pong ++ pong) (-1))) = true
  ∧ dispatch Resp.split (mkEv 6 EPOLLIN (reading (pong ++ pong) (-1)))
      (state_after pipelined_hup_events) = Undefined.
Proof.
  split; [apply state_after_reachable; eexists; vm_compute; reflexivity|].
  repeat split; vm_compute; reflexivity.
Qed.

(** S3: the two staged requests are written in one [writev]. *)
Lemma send_to_gate_witness :
  ∃ st',
    Server__send_to (writing 34) 3%N (state_after two_staged_events) = Ok tt st'
    ∧ heap st' !! 3%N = Some (AServer (mkServer 6 [] [] [Some 1%N; Some 2%N]))
    ∧ epoll st' !! 6 = Some (mkEvent (Z.lor EPOLLIN EPOLLET) 3%N).
Proof.
  destruct (send_to_gate (writing 34) 3%N
              (mkServer 6 [] [Some 1%N; Some 2%N] [])
              (state_after two_staged_events))
    as (_ & Hact).
  - vm_compute. reflexivity.
  - destruct Hact as (Hmoved & Hmask & Htotal); [done..|].
    destruct (Htotal [ping; get_x] []) as [st' Hrun].
    + vm_compute. reflexivity.
    + eexists. vm_compute. reflexivity.
    + reflexivity.
    + exists st'. split; [exact Hrun|]. split.
      * apply Hmoved. by rewrite Hrun.
      * by apply Hmask.
Defined.

(** S4: the upstream sends [+PO] only. *)
Lemma recv_from_keeps_partial_tail_witness :
  ∃ st' srv',
    Server__recv_from Resp.split (reading (bytes "+PO") (-1)) 3%N
      (state_after two_pending_events) = Ok tt st'
    ∧ heap st' !! 3%N = Some (AServer srv')
    ∧ _buffer srv' = bytes "+PO"
    ∧ ready_clients srv' = [Some 1%N; Some 2%N].
Proof.
  destruct (recv_from_keeps_partial_tail Resp.split
              (reading (bytes "+PO") (-1)) 3%N
              (mkServer 6 [] [] [Some 1%N; Some 2%N])
              (state_after two_pending_events)
              (mkSplit [] false 0))
    as (st' & srv' & Hrun & Hthis & _ & _ & _ & Hnone).
  - apply (reachable_wf Resp.split), state_after_reachable.
    eexists. vm_compute. reflexivity.
  - vm_compute. reflexivity.
  - discriminate.
  - vm_compute. reflexivity.
  - simpl. lia.
  - destruct (Hnone eq_refl) as [Hpending Hbuf].
    exists st', srv'. repeat split; try done.
    by rewrite Hbuf.
Defined.

(** C5.  The claim fails on the code: [Server::_send_to] only views the
    buffers of the staged clients and never clears them, whereas
    [Client::_send_to] clears the buffer it has written and
    [Server::_recv_from] clears or truncates the buffer it has
    consumed.  On S1 (one client, one PING): after the [writev] that
    sent the PING upstream the client's buffer still holds it; the
    reply is appended after it; when the client becomes writable it is
    sent its own request followed by the reply.  If instead the client
    sends a GET before it is written to, the next [writev] sends the
    old request and the reply upstream again, before the GET. *)
Theorem request_stays_in_client_buffer :
  reachable Resp.split (state_after staged_events)
  ∧ heap (state_after staged_events) !! 1%N
    = Some (AClient (mkClient 5 ping (Some 2%N)))
  ∧ may_report (state_after staged_events) (mkEv 6 EPOLLOUT (writing 14)) = true
  ∧ Server__send_to (writing 14) 2%N (state_after staged_events)
    = Ok tt (state_after pending_events)
  ∧ syscalls (state_after pending_events)
    = syscalls (state_after staged_events)
      ++ [sys_writev 6 [ping] 14;
          sys_epoll_mod 6 (mkEvent (Z.lor EPOLLIN EPOLLET) 2%N) 0]
  ∧ heap (state_after pending_events) !! 1%N
    = Some (AClient (mkClient 5 ping (Some 2%N)))
  ∧ heap (state_after replied_events) !! 1%N
    = Some (AClient (mkClient 5 (ping ++ pong) (Some 2%N)))
  ∧ may_report (state_after replied_events) (mkEv 5 EPOLLOUT quiet) = true
  ∧ (∃ st',
       dispatch Resp.split (mkEv 5 EPOLLOUT quiet) (state_after replied_events)
       = Ok tt st'
       ∧ syscalls st'
         = syscalls (state_after replied_events)
           ++ [sys_write 5 (ping ++ pong);
               sys_epoll_mod 5 (mkEvent (Z.lor EPOLLIN EPOLLET) 1%N) 0])
  ∧ is_Some (reach_by Resp.split resent_events (init 3))
  ∧ syscalls (state_after resent_events)
    = syscalls (state_after replied_events)
      ++ [sys_read 5 get_x;
          sys_epoll_mod 6
            (mkEvent (Z.lor (Z.lor EPOLLIN EPOLLOUT) EPOLLET) 2%N) 0;
          sys_writev 6 [ping ++ pong ++ get_x] 41;
          sys_epoll_mod 6 (mkEvent (Z.lor EPOLLIN EPOLLET) 2%N) 0].
Proof.
  split; [apply state_after_reachable; eexists; vm_compute; reflexivity|].
  do 7 (split; [vm_compute; reflexivity|]).
  split; [eexists; split; vm_compute; reflexivity|].
  split; [eexists; vm_compute; reflexivity|].
  vm_compute. reflexivity.
Qed.

(** S5: [pop_client] of A while the requests of A and B are in
    flight. *)
Lemma pop_client_tombstones_witness :
  ∃ srv',
    Server_pop_client 3%N 1%N (state_after two_pending_events)
    = Ok tt (set_heap <[3%N := AServer srv']> (state_after two_pending_events))
    ∧ length (ready_clients srv') = 2%nat
    ∧ ready_clients srv' !! 0%nat = Some None
    ∧ ready_clients srv' !! 1%nat = Some (Some 2%N).
Proof.
  destruct (pop_client_tombstones 3%N 1%N
              (mkServer 6 [] [] [Some 1%N; Some 2%N])
              (state_after two_pending_events))
    as (srv' & Hrun & _ & _ & _ & _ & Hlen & Hpos).
  - vm_compute. reflexivity.
  - exists srv'. split; [exact Hrun|]. split; [exact Hlen|]. split.
    + apply (Hpos 0%nat (Some 1%N)). reflexivity.
    + apply (Hpos 1%nat (Some 2%N)). reflexivity.
Defined.

(** The client is staged twice and [pop_client] is called once. *)
Lemma pop_client_removes_first_only_witness :
  ∃ srv',
    Server_pop_client 2%N 1%N (state_after twice_staged_events)
    = Ok tt (set_heap <[2%N := AServer srv']> (state_after twice_staged_events))
    ∧ clients srv' = [Some 1%N].
Proof.
  destruct (pop_client_removes_first_only 2%N 1%N
              (mkServer 6 [] [Some 1%N; Some 1%N] [])
              (state_after twice_staged_events) 2%nat)
    as (srv' & l1 & l2 & Hrun & Hsplit & Hl1 & Hclients & _).
  - vm_compute. reflexivity.
  - reflexivity.
  - lia.
  - exists srv'. split; [exact Hrun|]. rewrite Hclients.
    destruct l1 as [|c l1]; simpl in Hsplit.
    + by injection Hsplit as <-.
    + injection Hsplit as <- _. exfalso. apply Hl1. by left.
Defined.

(** A hang-up of the client reported together with EPOLLIN, with a
    PING waiting on the socket. *)
Lemma hang_up_destroys_session_witness :
  ∃ st' r,
    Client_triggered (reading ping (-1)) 1%N (Z.lor EPOLLRDHUP EPOLLIN)
      (state_after pending_events) = Ok tt st'
    ∧ heap st' !! 1%N = None
    ∧ syscalls st'
      = syscalls (state_after pending_events)
        ++ [sys_epoll_del 5 r; sys_close 5].
Proof.
  destruct (hang_up_destroys_session Resp.split (reading ping (-1)) 1%N
              (Z.lor EPOLLRDHUP EPOLLIN) (state_after pending_events))
    as [[_ Hclient] _].
  - discriminate.
  - destruct (Hclient (mkClient 5 ping (Some 2%N)))
      as (st' & r & Hrun & Hgone & _ & Hsys & _).
    + vm_compute. reflexivity.
    + intros s Hs. vm_compute in Hs. injection Hs as <-.
      eexists. vm_compute. reflexivity.
    + by exists st', r.
Defined.

(** C7, as stated, fails on S5: the only client hung up while its
    request was in flight; pending has one (null) entry and no client
    is live. *)
Lemma queues_exceed_live_clients :
  reachable Resp.split (state_after hup_events)
  ∧ heap (state_after hup_events) !! 2%N
    = Some (AServer (mkServer 6 [] [] [None]))
  ∧ size (live_clients (state_after hup_events)) = 0%nat
  ∧ ¬ (length (ready_clients (mkServer 6 [] [] [None]))
       + length (clients (mkServer 6 [] [] [None]))
       ≤ size (live_clients (state_after hup_events)))%nat.
Proof.
  assert (Hlive : size (live_clients (state_after hup_events)) = 0%nat)
    by (vm_compute; reflexivity).
  split; [apply state_after_reachable; eexists; vm_compute; reflexivity|].
  split; [vm_compute; reflexivity|].
  split; [exact Hlive|].
  rewrite Hlive. simpl. lia.
Defined.

Lemma pending_entries_are_live_witness :
  (size (pending_clients (mkServer 6 [] [] [Some 1%N; Some 2%N]))
   ≤ size (live_clients (state_after two_pending_events)))%nat.
Proof.
  apply (pending_entries_are_live Resp.split
           (state_after two_pending_events)
           (state_after_reachable two_pending_events
              ltac:(eexists; vm_compute; reflexivity))
           3%N (mkServer 6 [] [] [Some 1%N; Some 2%N])).
  vm_compute. reflexivity.
Defined.

Lemma upstream_interest_never_hup_witness :
  ∃ reg,
    epoll (state_after two_pending_events) !! 6 = Some reg
    ∧ Z.land (events reg) EPOLLRDHUP = 0.
Proof.
  destruct (upstream_interest_never_hup Resp.split) as [_ Hinv].
  destruct (Hinv (state_after two_pending_events)
              (state_after_reachable two_pending_events
                 ltac:(eexists; vm_compute; reflexivity))
              3%N (mkServer 6 [] [] [Some 1%N; Some 2%N]))
    as (_ & reg & Hreg & _ & _ & Hno).
  - vm_compute. reflexivity.
  - by exists reg.
Defined.

(** * Further properties of the handlers *)

(** ** Event bits *)

(** An event reported for a registration that does not ask for
    EPOLLRDHUP does not carry it. *)
Lemma reportable_without_hup interest reported :
  Z.land interest EPOLLRDHUP = 0 →
  reportable interest reported = true →
  flag reported EPOLLRDHUP = false.
Proof.
  unfold reportable, flag. intros Hint Hrep.
  apply andb_true_iff in Hrep as [_ Hrep]. apply Z.eqb_eq in Hrep.
  apply negb_false_iff, Z.eqb_eq.
  assert (Hi : Z.testbit interest 13 = false).
  { apply (f_equal (λ z, Z.testbit z 13)) in Hint.
    rewrite Z.land_spec in Hint. simpl in Hint.
    by rewrite andb_true_r in Hint. }
  assert (Hr : Z.testbit reported 13 = false).
  { apply (f_equal (λ z, Z.testbit z 13)) in Hrep.
    rewrite Z.land_spec, Z.bits_0, Z.lnot_spec, !Z.lor_spec, Z.land_spec in Hrep
      by lia.
    rewrite Hi in Hrep. simpl in Hrep. by rewrite andb_true_r in Hrep. }
  apply Z.bits_inj'. intros n Hn.
  rewrite Z.land_spec, Z.bits_0.
  destruct (decide (n = 13)) as [->|Hne].
  - by rewrite Hr.
  - change EPOLLRDHUP with (2 ^ 13). rewrite Z.pow2_bits_false by lia.
    apply andb_false_r.
Qed.

(** ** [Server::triggered]: the hang-up branch *)

(** X1.  In every state the loop reaches, an event the kernel may
    report for the descriptor of the upstream session does not carry
    EPOLLRDHUP (the registration never asks for it): [Server::triggered]
    does not take its [delete this] branch; it runs [_recv_from] when
    EPOLLIN is set, then [_send_to] when EPOLLOUT is set. *)
Theorem upstream_hang_up_not_reported (split : list byte → option SplitResult)
    (st : Process) (p : ptr) (srv : Server) (e : Event) :
  reachable split st →
  heap st !! p = Some (AServer srv) →
  ev_fd e = s_fd srv →
  may_report st e = true →
  flag (ev_events e) EPOLLRDHUP = false
  ∧ dispatch split e st
    = ((if flag (ev_events e) EPOLLIN
        then Server__recv_from split (ev_env e) p else mret tt);;
       (if flag (ev_events e) EPOLLOUT
        then Server__send_to (ev_env e) p else mret tt)) st.
Proof.
  intros Hreach Hp Hfd Hrep. apply reachable_wf in Hreach.
  destruct (wf_registered st Hreach p _ Hp) as (reg & Hreg & Hptr & Hmask).
  simpl in Hreg. unfold may_report in Hrep. rewrite Hfd, Hreg in Hrep.
  assert (Hno : flag (ev_events e) EPOLLRDHUP = false).
  { eapply reportable_without_hup; [|exact Hrep].
    by apply server_masks_no_hup, (Hmask srv). }
  split; [done|].
  unfold dispatch. rewrite bind_unfold. unfold gets at 1.
  rewrite Hfd, Hreg, Hptr.
  unfold triggered. rewrite bind_unfold. unfold gets at 1. rewrite Hp.
  unfold Server_triggered. by rewrite Hno.
Qed.

Lemma upstream_hang_up_not_reported_witness :
  flag (Z.lor EPOLLIN EPOLLOUT) EPOLLRDHUP = false
  ∧ may_report (state_after two_staged_events)
      (mkEv 6 (Z.lor EPOLLIN EPOLLOUT) (writing 34)) = true.
Proof.
  assert (Hrep : may_report (state_after two_staged_events)
                   (mkEv 6 (Z.lor EPOLLIN EPOLLOUT) (writing 34)) = true)
    by (vm_compute; reflexivity).
  split; [|exact Hrep].
  apply (upstream_hang_up_not_reported Resp.split
           (state_after two_staged_events) 3%N
           (mkServer 6 [] [Some 1%N; Some 2%N] [])
           (mkEv 6 (Z.lor EPOLLIN EPOLLOUT) (writing 34))).
  - apply state_after_reachable. eexists. vm_compute. reflexivity.
  - vm_compute. reflexivity.
  - reflexivity.
  - exact Hrep.
Defined.

(** ** [Client::_send_to] *)

(** X2.  [Client::_send_to] on a live client, in a state that satisfies
    the invariant of the loop: the whole buffer is written to the
    client's descriptor, the buffer is emptied, the descriptor is
    registered again for EPOLLIN|EPOLLET, and nothing else changes.
    The new registration does not ask for EPOLLRDHUP: from then on no
    event reported for this client carries it. *)
Theorem client_send_to_flushes (this : ptr) (c : Client) (st : Process) :
  wf st →
  heap st !! this = Some (AClient c) →
  ∃ st',
    Client__send_to this st = Ok tt st'
    ∧ heap st' = <[this := AClient (mkClient (c_fd c) [] (peer c))]> (heap st)
    ∧ epoll st' = <[c_fd c := mkEvent (Z.lor EPOLLIN EPOLLET) this]> (epoll st)
    ∧ server_conn st' = server_conn st
    ∧ syscalls st'
      = syscalls st ++
        [sys_write (c_fd c) (buffer c);
         sys_epoll_mod (c_fd c) (mkEvent (Z.lor EPOLLIN EPOLLET) this) 0]
    ∧ ∀ e, ev_fd e = c_fd c → may_report st' e = true →
           flag (ev_events e) EPOLLRDHUP = false.
Proof.
  intros Hwf Hc.
  destruct (wf_registered st Hwf this _ Hc) as (reg & Hreg & _).
  simpl in Hreg.
  cut (twp (Client__send_to this) (λ _ st',
         heap st' = <[this := AClient (mkClient (c_fd c) [] (peer c))]> (heap st)
         ∧ epoll st' = <[c_fd c := mkEvent (Z.lor EPOLLIN EPOLLET) this]> (epoll st)
         ∧ server_conn st' = server_conn st
         ∧ syscalls st'
           = syscalls st ++
             [sys_write (c_fd c) (buffer c);
              sys_epoll_mod (c_fd c) (mkEvent (Z.lor EPOLLIN EPOLLET) this) 0]) st).
  { intros ([] & st' & Hrun & Hheap & Hep & Hconn & Hsys).
    exists st'. repeat split; try done.
    intros e Hfd Hrep. unfold may_report in Hrep.
    rewrite Hfd, Hep, lookup_insert_eq in Hrep.
    by eapply reportable_without_hup; [|exact Hrep]. }
  unfold Client__send_to.
  twp_go. eapply twp_get_client; [exact Hc|].
  twp_go. apply twp_epoll_ctl_mod; [simpl; eauto|].
  simpl. apply twp_ret. simpl. repeat split; try done.
  by rewrite <- app_assoc.
Qed.

Lemma client_send_to_flushes_witness :
  ∃ st',
    Client__send_to 1%N (state_after replied_events) = Ok tt st'
    ∧ heap st' !! 1%N = Some (AClient (mkClient 5 [] (Some 2%N)))
    ∧ syscalls st'
      = syscalls (state_after replied_events) ++
        [sys_write 5 (ping ++ pong);
         sys_epoll_mod 5 (mkEvent (Z.lor EPOLLIN EPOLLET) 1%N) 0].
Proof.
  destruct (client_send_to_flushes 1%N (mkClient 5 (ping ++ pong) (Some 2%N))
              (state_after replied_events))
    as (st' & Hrun & Hheap & _ & _ & Hsys & _).
  - apply (reachable_wf Resp.split), state_after_reachable.
    eexists. vm_compute. reflexivity.
  - vm_compute. reflexivity.
  - exists st'. split; [exact Hrun|]. split; [|exact Hsys].
    rewrite Hheap. apply lookup_insert_eq.
Defined.

(** ** [Proxy::notify_each] *)

Lemma notify_each_effect : ∀ range st,
  wf st →
  (∀ q, Some q ∈ range → ∃ c, heap st !! q = Some (AClient c)) →
  ∃ st',
    Proxy_notify_each range st = Ok tt st'
    ∧ heap st' = heap st
    ∧ server_conn st' = server_conn st
    ∧ (∀ q c, Some q ∈ range → heap st !! q = Some (AClient c) →
         epoll st' !! c_fd c
         = Some (mkEvent (Z.lor (Z.lor EPOLLIN EPOLLOUT) EPOLLET) q))
    ∧ (∀ fd, (∀ q c, Some q ∈ range → heap st !! q = Some (AClient c) →
                     c_fd c ≠ fd) →
         epoll st' !! fd = epoll st !! fd).
Proof.
  induction range as [|[cli|] range IH]; intros st Hwf Hlive; simpl.
  - exists st. split; [done|]. split; [done|]. split; [done|].
    split; [|done]. intros q c Hq. by apply elem_of_nil in Hq.
  - destruct (Hlive cli) as [c Hc]; [by left|].
    destruct (wf_registered st Hwf cli _ Hc) as (reg & Hreg & _).
    simpl in Hreg.
    set (ev := mkEvent (Z.lor (Z.lor EPOLLIN EPOLLOUT) EPOLLET) cli).
    set (st1 := log (sys_epoll_mod (c_fd c) ev 0)
                    (set_epoll <[c_fd c := ev]> st)).
    assert (Hwf1 : wf st1)
      by (by eapply (wf_mod st _ cli (AClient c));
            [exact Hwf|exact Hc|reflexivity..|]).
    destruct (IH st1 Hwf1) as (st' & Hrun & Hheap & Hconn & Hset & Hkeep).
    { intros q Hq. apply Hlive. by right. }
    exists st'. split.
    { rewrite bind_unfold. unfold get_client. rewrite Hc.
      rewrite bind_unfold. unfold epoll_ctl_mod. rewrite Hreg. exact Hrun. }
    split; [done|]. split; [done|]. split.
    + intros q cq Hq Hcq.
      destruct (decide (Some q ∈ range)) as [Hin|Hnotin]; [by apply Hset|].
      apply elem_of_cons in Hq as [[= ->]|Hq]; [|done].
      assert (cq = c) as -> by congruence.
      rewrite Hkeep; [apply lookup_insert_eq|].
      intros q' c' Hq' Hc' Hfd. apply Hnotin.
      by rewrite <- (wf_fd_inj st q' cli (AClient c') (AClient c) Hwf Hc' Hc Hfd).
    + intros fd Hfd. rewrite Hkeep.
      * simpl. rewrite lookup_insert_ne; [done|]. apply (Hfd cli c); [by left|done].
      * intros q cq Hq Hcq. apply (Hfd q cq); [by right|done].
  - destruct (IH st Hwf) as (st' & Hrun & Hrest).
    { intros q Hq. apply Hlive. by right. }
    exists st'. split; [done|].
    destruct Hrest as (Hheap & Hconn & Hset & Hkeep).
    split; [done|]. split; [done|]. split.
    + intros q c Hq. apply Hset.
      by apply elem_of_cons in Hq as [?|?].
    + intros fd Hfd. apply Hkeep. intros q c Hq. apply Hfd. by right.
Qed.

(** X3.  [Proxy::notify_each] over a range whose entries are null or
    live clients, in a state that satisfies the invariant of the loop:
    it returns; the descriptor of every client of the range is
    registered for EPOLLIN|EPOLLOUT|EPOLLET with [data.ptr] the client
    (so without EPOLLRDHUP); null entries are passed over; every other
    registration and every object are as they were. *)
Theorem notify_each_marks_writable (range : list (option ptr)) (st : Process) :
  wf st →
  (∀ q, Some q ∈ range → ∃ c, heap st !! q = Some (AClient c)) →
  ∃ st',
    Proxy_notify_each range st = Ok tt st'
    ∧ heap st' = heap st
    ∧ server_conn st' = server_conn st
    ∧ (∀ q c, Some q ∈ range → heap st !! q = Some (AClient c) →
         epoll st' !! c_fd c
         = Some (mkEvent (Z.lor (Z.lor EPOLLIN EPOLLOUT) EPOLLET) q)
         ∧ ∀ e, ev_fd e = c_fd c → may_report st' e = true →
                flag (ev_events e) EPOLLRDHUP = false)
    ∧ (∀ fd, (∀ q c, Some q ∈ range → heap st !! q = Some (AClient c) →
                     c_fd c ≠ fd) →
         epoll st' !! fd = epoll st !! fd).
Proof.
  intros Hwf Hlive.
  destruct (notify_each_effect range st Hwf Hlive)
    as (st' & Hrun & Hheap & Hconn & Hset & Hkeep).
  exists st'. repeat split; try done; [by apply Hset|].
  intros e Hfd Hrep. unfold may_report in Hrep.
  rewrite Hfd, (Hset q c) in Hrep by done.
  by eapply reportable_without_hup; [|exact Hrep].
Qed.

Lemma notify_each_marks_writable_witness :
  ∃ st',
    Proxy_notify_each [None; Some 2%N] (state_after two_pending_events)
    = Ok tt st'
    ∧ epoll st' !! 7
      = Some (mkEvent (Z.lor (Z.lor EPOLLIN EPOLLOUT) EPOLLET) 2%N)
    ∧ epoll st' !! 5 = epoll (state_after two_pending_events) !! 5.
Proof.
  destruct (notify_each_marks_writable [None; Some 2%N]
              (state_after two_pending_events))
    as (st' & Hrun & _ & _ & Hset & Hkeep).
  - apply (reachable_wf Resp.split), state_after_reachable.
    eexists. vm_compute. reflexivity.
  - intros q Hq.
    apply elem_of_cons in Hq as [?|Hq]; [done|].
    apply elem_of_cons in Hq as [[= ->]|Hq]; [|by apply elem_of_nil in Hq].
    eexists. vm_compute. reflexivity.
  - exists st'. split; [exact Hrun|]. split.
    + apply (Hset 2%N (mkClient 7 get_x (Some 3%N)));
        [by right; left|vm_compute; reflexivity].
    + apply Hkeep. intros q c Hq Hc.
      apply elem_of_cons in Hq as [?|Hq]; [done|].
      apply elem_of_cons in Hq as [[= ->]|Hq]; [|by apply elem_of_nil in Hq].
      vm_compute in Hc. injection Hc as <-. done.
Defined.

(** ** [Proxy::connect_to] *)

(** X4.  [Proxy::connect_to] when there is no upstream session.  It
    returns exactly when [socket] gives a descriptor, [fcntl] succeeds,
    the host resolves, the descriptor is not yet in the interest list
    and [connect] succeeds or is in progress; the new session then
    lives at the next free address, has empty buffer and queues, is
    what [server_conn] points to, and is registered for
    EPOLLIN|EPOLLOUT|EPOLLET.  In every other case the process exits
    with status 1. *)
Theorem connect_to_outcome (env : Env) (st : Process) :
  server_conn st = None →
  let fd := env_socket env in
  let ev := mkEvent (Z.lor (Z.lor EPOLLIN EPOLLOUT) EPOLLET) (brk st) in
  let good := 0 ≤ fd ∧ env_fcntl env = true ∧ env_gethostbyname env = true
              ∧ epoll st !! fd = None ∧ env_connect env = true in
  (good →
   Proxy_connect_to env st
   = Ok (brk st)
        (mkProcess (<[fd := ev]> (epoll st)) (Some (brk st))
           (<[brk st := AServer (mkServer fd [] [] [])]> (heap st))
           (N.succ (brk st))
           (syscalls st ++ [sys_socket fd; sys_epoll_add fd ev 0;
                            sys_connect fd true])))
  ∧ (¬ good → ∃ st', Proxy_connect_to env st = Exit 1 st').
Proof.
  intros Hnone fd ev good.
  remember (Proxy_connect_to env st) as r eqn:Hr.
  unfold Proxy_connect_to in Hr.
  rewrite bind_unfold in Hr. unfold gets at 1 in Hr. rewrite Hnone in Hr.
  rewrite bind_unfold in Hr. simpl in Hr. fold fd in Hr.
  destruct (fd <? 0) eqn:Hfd.
  { split; [intros (? & _); apply Z.ltb_lt in Hfd; lia|]. intros _. by eexists. }
  rewrite bind_unfold in Hr. unfold set_nonblocking in Hr.
  destruct (env_fcntl env) eqn:Hfcntl; simpl in Hr.
  2:{ split; [by intros (_ & ? & _)|]. intros _. by eexists. }
  destruct (env_gethostbyname env) eqn:Hhost; simpl in Hr.
  2:{ split; [by intros (_ & _ & ? & _)|]. intros _. by eexists. }
  repeat (rewrite bind_unfold in Hr; simpl in Hr).
  unfold epoll_ctl_add in Hr. simpl in Hr.
  destruct (epoll st !! fd) as [reg|] eqn:Hreg; simpl in Hr.
  { split; [by intros (_ & _ & _ & ? & _)|]. intros _. by eexists. }
  repeat (rewrite bind_unfold in Hr; simpl in Hr).
  destruct (env_connect env) eqn:Hconn; simpl in Hr.
  2:{ split; [by intros (_ & _ & _ & _ & ?)|]. intros _. by eexists. }
  split.
  - intros _. rewrite Hr.
    unfold log, set_epoll, set_server_conn, set_brk, set_heap. simpl.
    by rewrite <- !app_assoc.
  - intros Hbad. exfalso. apply Hbad. unfold good. repeat split; try done.
    apply Z.ltb_ge in Hfd. lia.
Qed.

Lemma connect_to_outcome_witness :
  Proxy_connect_to (reading ping 6) (state_after [mkEv 3 EPOLLIN (accepting [5])])
  = Ok 2%N
      (mkProcess
         (<[6 := mkEvent (Z.lor (Z.lor EPOLLIN EPOLLOUT) EPOLLET) 2%N]>
            (epoll (state_after [mkEv 3 EPOLLIN (accepting [5])])))
         (Some 2%N)
         (<[2%N := AServer (mkServer 6 [] [] [])]>
            (heap (state_after [mkEv 3 EPOLLIN (accepting [5])])))
         3%N
         (syscalls (state_after [mkEv 3 EPOLLIN (accepting [5])])
          ++ [sys_socket 6;
              sys_epoll_add 6
                (mkEvent (Z.lor (Z.lor EPOLLIN EPOLLOUT) EPOLLET) 2%N) 0;
              sys_connect 6 true])).
Proof.
  apply (connect_to_outcome (reading ping 6)
           (state_after [mkEv 3 EPOLLIN (accepting [5])])).
  - reflexivity.
  - repeat split; try reflexivity. vm_compute. discriminate.
Defined.

(** X5.  [Proxy::connect_to] keeps one upstream session.  When
    [server_conn] is not null it is returned and the state is as it
    was, no system call being made.  Whenever a call returns, the
    pointer it returns is what [server_conn] holds, and any further
    call returns the same pointer and changes nothing. *)
Theorem connect_to_singleton (env : Env) (st : Process) :
  (∀ p, server_conn st = Some p → Proxy_connect_to env st = Ok p st)
  ∧ (∀ p st', Proxy_connect_to env st = Ok p st' →
       server_conn st' = Some p
       ∧ ∀ env', Proxy_connect_to env' st' = Ok p st').
Proof.
  assert (Hsome : ∀ env st p, server_conn st = Some p →
                    Proxy_connect_to env st = Ok p st).
  { intros env0 st0 p Hp. unfold Proxy_connect_to.
    rewrite bind_unfold. unfold gets. by rewrite Hp. }
  split; [by apply Hsome|].
  intros p st' Hrun.
  assert (Hconn : server_conn st' = Some p).
  { destruct (server_conn st) as [q|] eqn:Hq.
    - rewrite (Hsome env st q Hq) in Hrun. by injection Hrun as <- <-.
    - refine (wp_elim (Proxy_connect_to env)
                (λ p st', server_conn st' = Some p) st p st' _ Hrun).
      unfold Proxy_connect_to. wp_go. rewrite Hq.
      wp_go. destruct (env_socket env <? 0); [apply wp_exit|].
      wp_go. apply set_nonblocking_wf.
      destruct (env_gethostbyname env); simpl; [|apply wp_exit].
      wp_go. apply wp_epoll_ctl_add; [intros Hfree|]; simpl; [|apply wp_exit].
      wp_go. destruct (env_connect env); simpl; [|apply wp_exit].
      by apply wp_ret. }
  split; [done|]. intros env'. by apply Hsome.
Qed.

Lemma connect_to_singleton_witness :
  Proxy_connect_to (reading ping 9) (state_after staged_events)
  = Ok 2%N (state_after staged_events).
Proof.
  destruct (connect_to_singleton quiet (state_after staged_events))
    as [Hsome Hidem].
  apply (Hidem 2%N (state_after staged_events)).
  apply Hsome. vm_compute. reflexivity.
Defined.

(** ** [Proxy::accept_from] *)

(** The [while] of [accept_from] over a first part [fds] of what
    [accept] returns, positive, distinct and unregistered descriptors,
    [fcntl] succeeding: the loop goes on with the rest, the clients of
    [fds] being created. *)
Lemma accept_loop_prefix env tail :
  env_fcntl env = true →
  ∀ fds st,
    Forall (λ fd, 0 < fd) fds →
    NoDup fds →
    (∀ fd, fd ∈ fds → epoll st !! fd = None) →
    ∃ st1,
      accept_loop env (fds ++ tail) st = accept_loop env tail st1
      ∧ brk st1 = (brk st + N.of_nat (length fds))%N
      ∧ server_conn st1 = server_conn st
      ∧ (∀ i fd, fds !! i = Some fd →
           heap st1 !! (brk st + N.of_nat i)%N
           = Some (AClient (mkClient fd [] None))
           ∧ epoll st1 !! fd
             = Some (mkEvent (Z.lor (Z.lor EPOLLIN EPOLLET) EPOLLRDHUP)
                             (brk st + N.of_nat i)%N))
      ∧ (∀ p, (∀ i, (i < length fds)%nat → p ≠ (brk st + N.of_nat i)%N) →
           heap st1 !! p = heap st !! p)
      ∧ (∀ fd, fd ∉ fds → epoll st1 !! fd = epoll st !! fd).
Proof.
  intros Hfcntl.
  induction fds as [|fd fds IH]; intros st Hpos Hdup Hfree.
  - exists st. simpl. split; [done|]. split; [lia|]. split; [done|].
    split; [|done]. intros i fd Hi. by rewrite lookup_nil in Hi.
  - apply Forall_cons in Hpos as [Hfd Hpos].
    apply NoDup_cons in Hdup as [Hnotin Hdup].
    set (client := AClient (mkClient fd Buffer.empty None)).
    set (ev := mkEvent (Z.lor (Z.lor EPOLLIN EPOLLET) EPOLLRDHUP) (brk st)).
    set (st0 := log (sys_epoll_add fd ev 0)
                  (set_epoll <[fd := ev]>
                     (set_brk (N.succ (brk st))
                        (set_heap <[brk st := client]>
                           (log (sys_accept fd) st))))).
    destruct (IH st0 Hpos Hdup) as (st1 & Hrun & Hbrk & Hconn & Hnew & Hheap & Hep).
    { intros fd' Hin. simpl. rewrite lookup_insert_ne; [|by intros ->].
      apply Hfree. by right. }
    exists st1. split.
    { simpl. rewrite bind_unfold. simpl.
      destruct (fd >? 0) eqn:Hgt; [|lia].
      rewrite bind_unfold. unfold set_nonblocking. rewrite Hfcntl. simpl.
      repeat (rewrite bind_unfold; simpl). unfold epoll_ctl_add. simpl.
      rewrite (Hfree fd) by (by left). simpl. exact Hrun. }
    split; [rewrite Hbrk; simpl; lia|]. split; [done|]. split; [|split].
    + intros [|i] fd' Hi; simpl in Hi.
      * injection Hi as <-. rewrite N.add_0_r. split.
        -- rewrite Hheap; [simpl; apply lookup_insert_eq|].
           intros i _. simpl. lia.
        -- rewrite Hep by done. simpl. apply lookup_insert_eq.
      * destruct (Hnew i fd' Hi) as [Hh He]. simpl in Hh, He.
        replace (brk st + N.of_nat (S i))%N with (N.succ (brk st) + N.of_nat i)%N
          by lia.
        done.
    + intros p Hp. rewrite Hheap.
      * simpl. rewrite lookup_insert_ne; [done|].
        intros <-. apply (Hp 0%nat); [simpl; lia|lia].
      * intros i Hi. simpl. intros ->. apply (Hp (S i)); [simpl; lia|lia].
    + intros fd' Hnot. apply not_elem_of_cons in Hnot as [Hne Hnot].
      rewrite Hep by done. simpl. by rewrite lookup_insert_ne.
Qed.

(** X6.  [Proxy::accept_from] when [accept] returns the positive
    descriptors [fds] and then a result that is not positive (or would
    block).
    - When [fcntl] succeeds in [set_nonblocking] and the descriptors
      are distinct and not yet in the interest list, one client is
      created per descriptor, at consecutive addresses, with an empty
      buffer and a null peer, and registered for
      EPOLLIN|EPOLLET|EPOLLRDHUP; the objects and registrations there
      were are untouched.  The loop stops at the first result that is
      not positive: the descriptor 0 ends it like an error does and is
      not registered.  The process exits with status 1, after this,
      when that result is -1 with a fatal errno, and only then.
    - When [fcntl] fails, the process exits with status 1 right after
      the first connection is accepted: no client is created, nothing
      is registered.
    - When [fcntl] succeeds and, after the distinct unregistered
      descriptors [ok], comes a descriptor that is already in the
      interest list, [epoll_ctl] fails on it and the process exits with
      status 1: the clients of [ok] are registered, the client of that
      descriptor is allocated but not registered, the later
      connections are not accepted. *)
Theorem accept_from_registers_clients (env : Env) (listen_fd : Z)
    (fds tail : list Z) (st : Process) :
  env_accept env = fds ++ tail →
  (tail = [] ∨ ∃ r rest, tail = r :: rest ∧ r ≤ 0) →
  Forall (λ fd, 0 < fd) fds →
  let mask := Z.lor (Z.lor EPOLLIN EPOLLET) EPOLLRDHUP in
  (env_fcntl env = true →
   NoDup fds →
   (∀ fd, fd ∈ fds → epoll st !! fd = None) →
   ∃ st',
     Proxy_accept_from env listen_fd st
     = (if (default (-1) (head tail) =? -1) && env_accept_fatal env
        then Exit 1 st' else Ok tt st')
     ∧ brk st' = (brk st + N.of_nat (length fds))%N
     ∧ server_conn st' = server_conn st
     ∧ (∀ i fd, fds !! i = Some fd →
          heap st' !! (brk st + N.of_nat i)%N
          = Some (AClient (mkClient fd [] None))
          ∧ epoll st' !! fd = Some (mkEvent mask (brk st + N.of_nat i)%N))
     ∧ (∀ p, (∀ i, (i < length fds)%nat → p ≠ (brk st + N.of_nat i)%N) →
          heap st' !! p = heap st !! p)
     ∧ (∀ fd, fd ∉ fds → epoll st' !! fd = epoll st !! fd))
  ∧ (env_fcntl env = false →
     ∀ fd rest, fds = fd :: rest →
       Proxy_accept_from env listen_fd st = Exit 1 (log (sys_accept fd) st))
  ∧ (env_fcntl env = true →
     ∀ ok fd rest,
       fds = ok ++ fd :: rest →
       NoDup ok →
       (∀ fd', fd' ∈ ok → epoll st !! fd' = None) →
       fd ∈ ok ∨ is_Some (epoll st !! fd) →
       ∃ st',
         Proxy_accept_from env listen_fd st = Exit 1 st'
         ∧ (∀ i fd', ok !! i = Some fd' →
              heap st' !! (brk st + N.of_nat i)%N
              = Some (AClient (mkClient fd' [] None))
              ∧ epoll st' !! fd' = Some (mkEvent mask (brk st + N.of_nat i)%N))
         ∧ heap st' !! (brk st + N.of_nat (length ok))%N
           = Some (AClient (mkClient fd [] None))
         ∧ (∀ fd', fd' ∉ ok → epoll st' !! fd' = epoll st !! fd')
         ∧ last (syscalls st')
           = Some (sys_epoll_add fd
                     (mkEvent mask (brk st + N.of_nat (length ok))%N) (-1))).
Proof.
  intros Henv Htail Hpos mask. split; [|split].
  - intros Hfcntl Hdup Hfree.
    destruct (accept_loop_prefix env tail Hfcntl fds st Hpos Hdup Hfree)
      as (st1 & Hrun & Hbrk & Hconn & Hnew & Hheap & Hep).
    assert (Hend : ∃ st', accept_loop env tail st1
                          = Ok (default (-1) (head tail)) st'
                          ∧ brk st' = brk st1 ∧ server_conn st' = server_conn st1
                          ∧ heap st' = heap st1 ∧ epoll st' = epoll st1).
    { destruct Htail as [->|(r & rest & -> & Hr)]; simpl.
      - by eexists.
      - rewrite bind_unfold. simpl.
        destruct (r >? 0) eqn:Hgt; [lia|]. by eexists. }
    destruct Hend as (st' & Hend & Hbrk' & Hconn' & Hheap' & Hep').
    exists st'. split.
    { unfold Proxy_accept_from. rewrite bind_unfold, Henv, Hrun, Hend.
      by destruct ((default (-1) (head tail) =? -1) && env_accept_fatal env). }
    rewrite Hbrk', Hconn', Hheap', Hep'. done.
  - intros Hfcntl fd rest Hfds. subst fds.
    apply Forall_cons in Hpos as [Hfd _].
    unfold Proxy_accept_from. rewrite bind_unfold, Henv. simpl.
    rewrite bind_unfold. simpl.
    destruct (fd >? 0) eqn:Hgt; [|lia].
    rewrite bind_unfold. unfold set_nonblocking. by rewrite Hfcntl.
  - intros Hfcntl ok fd rest Hfds Hdup Hfree Hreg. subst fds.
    apply Forall_app in Hpos as [Hok Hpos].
    apply Forall_cons in Hpos as [Hfd _].
    destruct (accept_loop_prefix env (fd :: rest ++ tail) Hfcntl ok st
                Hok Hdup Hfree)
      as (st1 & Hrun & Hbrk & Hconn & Hnew & Hheap & Hep).
    assert (Hreg1 : is_Some (epoll st1 !! fd)).
    { destruct (decide (fd ∈ ok)) as [Hin|Hnotin].
      - apply list_elem_of_lookup in Hin as [i Hi].
        destruct (Hnew i fd Hi) as [_ He]. rewrite He. by eexists.
      - rewrite Hep by done. by destruct Hreg. }
    destruct Hreg1 as [reg Hreg1].
    eexists. split.
    { unfold Proxy_accept_from. rewrite bind_unfold, Henv.
      rewrite <- app_assoc. simpl. rewrite Hrun. simpl.
      rewrite bind_unfold. simpl.
      destruct (fd >? 0) eqn:Hgt; [|lia].
      rewrite bind_unfold. unfold set_nonblocking. rewrite Hfcntl. simpl.
      repeat (rewrite bind_unfold; simpl). unfold epoll_ctl_add. simpl.
      rewrite Hreg1. simpl. reflexivity. }
    simpl. split; [|split; [|split]].
    + intros i fd' Hi. destruct (Hnew i fd' Hi) as [Hh He]. split; [|done].
      rewrite lookup_insert_ne; [done|].
      rewrite Hbrk. apply lookup_lt_Some in Hi. lia.
    + rewrite Hbrk. apply lookup_insert_eq.
    + exact Hep.
    + rewrite Hbrk. rewrite last_snoc. done.
Qed.

Lemma accept_from_registers_clients_witness :
  (∃ st',
     Proxy_accept_from (accepting [5; 7; 0; 9]) 3 (init 3) = Ok tt st'
     ∧ heap st' !! 2%N = Some (AClient (mkClient 7 [] None))
     ∧ epoll st' !! 7
       = Some (mkEvent (Z.lor (Z.lor EPOLLIN EPOLLET) EPOLLRDHUP) 2%N)
     ∧ epoll st' !! 9 = None
     ∧ brk st' = 3%N)
  ∧ Proxy_accept_from (mkEnv [] [] [5] false (-1) false true true) 3 (init 3)
    = Exit 1 (log (sys_accept 5) (init 3))
  ∧ ∃ st', Proxy_accept_from (accepting [5; 5]) 3 (init 3) = Exit 1 st'
           ∧ epoll st' !! 5
             = Some (mkEvent (Z.lor (Z.lor EPOLLIN EPOLLET) EPOLLRDHUP) 1%N).
Proof.
  split; [|split].
  2:{ destruct (accept_from_registers_clients
                  (mkEnv [] [] [5] false (-1) false true true) 3 [5] [] (init 3))
        as (_ & Hfcntl & _).
      - reflexivity.
      - by left.
      - repeat constructor; lia.
      - by apply (Hfcntl eq_refl 5 []). }
  2:{ destruct (accept_from_registers_clients (accepting [5; 5]) 3
                  [5; 5] [] (init 3))
        as (_ & _ & Hadd).
      - reflexivity.
      - by left.
      - repeat constructor; lia.
      - destruct (Hadd eq_refl [5] 5 []) as (st' & Hrun & Hnew & _).
        + reflexivity.
        + apply NoDup_singleton.
        + intros fd Hfd. apply list_elem_of_singleton in Hfd as ->.
          simpl. by apply lookup_singleton_ne.
        + left. by left.
        + exists st'. split; [exact Hrun|].
          by destruct (Hnew 0%nat 5 eq_refl) as [_ He]. }
  destruct (accept_from_registers_clients (accepting [5; 7; 0; 9]) 3
              [5; 7] [0; 9] (init 3))
    as [Hgood _].
  - reflexivity.
  - right. exists 0, [9]. split; [done|lia].
  - repeat constructor; lia.
  - destruct Hgood as (st' & Hrun & Hbrk & _ & Hnew & _ & Hep).
    + reflexivity.
    + apply NoDup_cons. split; [|apply NoDup_singleton].
      rewrite elem_of_cons, elem_of_nil. intros [?|[]]. lia.
    + intros fd Hfd. simpl. apply lookup_singleton_ne.
      apply elem_of_cons in Hfd as [->|Hfd]; [lia|].
      apply elem_of_cons in Hfd as [->|Hfd]; [lia|by apply elem_of_nil in Hfd].
    + exists st'. split; [exact Hrun|].
      destruct (Hnew 1%nat 7 eq_refl) as [Hh He].
      split; [exact Hh|]. split; [exact He|]. split; [|exact Hbrk].
      rewrite Hep; [reflexivity|].
      rewrite !elem_of_cons, elem_of_nil. intros [?|[?|[]]]; lia.
Defined.

(** ** [Proxy::run] and [loop] *)



Lemma run_wf split : ∀ es st, wf st → wp (run split es) (λ _, wf) st.
Proof.
  induction es as [|e es IH]; intros st Hwf; simpl.
  - by apply wp_ret.
  - wp_go. eapply wp_mono; [|by apply dispatch_wf].
    intros [] st' Hwf'. by apply IH.
Qed.

Lemma run_app split es1 : ∀ es2 st,
  run split (es1 ++ es2) st = (run split es1;; run split es2) st.
Proof.
  induction es1 as [|e es1 IH]; intros es2 st; simpl.
  - by rewrite bind_unfold.
  - rewrite !bind_unfold. destruct (dispatch split e st); [|done..].
    apply IH.
Qed.

(** X8.  [loop].  Whatever batch of events [epoll_wait] hands over,
    when [loop] returns from a state that satisfies the invariant, the
    invariant holds again; an interrupted wait changes nothing and any
    other failure of the wait exits with status 1; and handling one
    batch [es1 ++ es2] is handling [es1] in one call and [es2] in the
    next. *)
Theorem loop_keeps_invariant (split : list byte → option SplitResult)
    (st : Process) :
  wf st →
  (∀ w st', loop split w st = Ok tt st' → wf st')
  ∧ loop split Interrupted st = Ok tt st
  ∧ loop split Failed st = Exit 1 st
  ∧ (∀ es1 es2,
       loop split (Ready (es1 ++ es2)) st
       = (loop split (Ready es1);; loop split (Ready es2)) st).
Proof.
  intros Hwf. split; [|split; [done|split; [done|]]].
  - intros [es| |] st' Hrun; simpl in Hrun.
    + by apply (wp_elim _ _ _ _ _ (run_wf split es st Hwf) Hrun).
    + by injection Hrun as <-.
    + done.
  - intros es1 es2. apply run_app.
Qed.

Lemma loop_keeps_invariant_witness :
  wf (state_after two_pending_events)
  ∧ ∀ st', loop Resp.split (Ready [mkEv 6 EPOLLIN (reading (bytes "+PO") (-1))])
             (state_after two_pending_events) = Ok tt st' → wf st'.
Proof.
  assert (Hwf : wf (state_after two_pending_events)).
  { apply (reachable_wf Resp.split), state_after_reachable.
    eexists. vm_compute. reflexivity. }
  split; [exact Hwf|]. intros st'.
  apply (loop_keeps_invariant Resp.split _ Hwf).
Defined.

(** ** [push_client] and [pop_client] together *)

Lemma replace_null_absent cli l : Some cli ∉ l → replace_null cli l = l.
Proof.
  induction l as [|c l IH]; [done|].
  rewrite not_elem_of_cons. intros [Hc Hl]. unfold replace_null in *.
  rewrite fmap_cons, (IH Hl). by rewrite decide_False.
Qed.

(** X9.  [push_client] followed by [pop_client] of the same client, on
    a live upstream session.  When the client was neither in staging
    nor in pending, every object is again as before the two calls.
    When it was already in staging, it is the older entry that is
    taken out, the one just pushed stays at the end. *)
Theorem push_then_pop (this cli : ptr) (srv : Server) (st : Process) :
  heap st !! this = Some (AServer srv) →
  ∃ st',
    (Server_push_client this cli;; Server_pop_client this cli) st = Ok tt st'
    ∧ epoll st' = epoll st ∧ server_conn st' = server_conn st
    ∧ syscalls st' = syscalls st
    ∧ (∀ p, p ≠ this → heap st' !! p = heap st !! p)
    ∧ (Some cli ∉ clients srv → Some cli ∉ ready_clients srv →
       heap st' = heap st)
    ∧ (∀ l1 l2, clients srv = l1 ++ Some cli :: l2 → Some cli ∉ l1 →
       ∃ srv', heap st' !! this = Some (AServer srv')
               ∧ clients srv' = l1 ++ l2 ++ [Some cli]).
Proof.
  intros H.
  set (pushed := mkServer (s_fd srv) (_buffer srv)
                          (clients srv ++ [Some cli]) (ready_clients srv)).
  set (st1 := set_heap <[this := AServer pushed]> st).
  assert (Hrun : (Server_push_client this cli;; Server_pop_client this cli) st
                 = Server_pop_client this cli st1).
  { rewrite bind_unfold. unfold Server_push_client.
    rewrite bind_unfold. unfold get_server. by rewrite H. }
  rewrite Hrun, (Server_pop_client_run this cli pushed st1)
    by apply lookup_insert_eq.
  eexists. split; [reflexivity|]. simpl.
  split; [done|]. split; [done|]. split; [done|]. split; [|split].
  - intros p Hp. by rewrite !lookup_insert_ne.
  - intros Hstaged Hpending.
    rewrite insert_insert_eq.
    replace (clients srv ++ [Some cli]) with (clients srv ++ Some cli :: [])
      by done.
    rewrite pop_client_from_first, app_nil_r, replace_null_absent by done.
    apply insert_id. rewrite H. by destruct srv.
  - intros l1 l2 Hsplit Hl1. eexists.
    split; [apply lookup_insert_eq|]. simpl.
    rewrite Hsplit, <- app_assoc. simpl.
    by rewrite pop_client_from_first.
Qed.

Lemma push_then_pop_witness :
  ∃ st',
    (Server_push_client 3%N 1%N;; Server_pop_client 3%N 1%N)
      (state_after two_staged_events) = Ok tt st'
    ∧ ∃ srv', heap st' !! 3%N = Some (AServer srv')
              ∧ clients srv' = [Some 2%N; Some 1%N].
Proof.
  destruct (push_then_pop 3%N 1%N (mkServer 6 [] [Some 1%N; Some 2%N] [])
              (state_after two_staged_events))
    as (st' & Hrun & _ & _ & _ & _ & _ & Hcase).
  - vm_compute. reflexivity.
  - exists st'. split; [exact Hrun|].
    apply (Hcase [] [Some 2%N]); [reflexivity|apply not_elem_of_nil].
Defined.

(** ** Destruction of a client *)

Lemma twp_epoll_ctl_del_exact fd (Q : Z → Process → Prop) st :
  Q (match epoll st !! fd with Some _ => 0 | None => -1 end)
    (log (sys_epoll_del fd (match epoll st !! fd with Some _ => 0 | None => -1 end))
         (set_epoll (delete fd) st)) →
  twp (epoll_ctl_del fd) Q st.
Proof. intros HQ. by eexists _, _. Qed.

Lemma twp_mono {A} (m : M A) (Q Q' : A → Process → Prop) st :
  (∀ a st', Q a st' → Q' a st') → twp m Q st → twp m Q' st.
Proof. intros H (a & st' & Hm & HQ). exists a, st'. auto. Qed.

Lemma delete_Client_effect this c svr srv st :
  heap st !! this = Some (AClient c) →
  server_conn st = Some svr →
  heap st !! svr = Some (AServer srv) →
  delete_Client this st
  = Ok tt (mkProcess
             (delete (c_fd c) (epoll st))
             (Some svr)
             (delete this
                (<[svr := AServer (mkServer (s_fd srv) (_buffer srv)
                                     (pop_client_from (clients srv) this)
                                     (replace_null this (ready_clients srv)))]>
                   (heap st)))
             (brk st)
             (syscalls st ++
              [sys_epoll_del (c_fd c)
                 (match epoll st !! c_fd c with Some _ => 0 | None => -1 end);
               sys_close (c_fd c)])).
Proof.
  intros Hc Hconn Hsrv.
  assert (svr ≠ this) by congruence.
  match goal with
  | |- _ = Ok tt ?s =>
      cut (twp (delete_Client this) (λ _ st', st' = s) st);
        [by intros ([] & st' & Hrun & ->)|]
  end.
  unfold delete_Client, Proxy_shut_client.
  twp_go. rewrite Hconn.
  eapply twp_Server_pop_client; [done|].
  twp_go. eapply twp_get_client; [simpl; by rewrite lookup_insert_ne|].
  twp_go. apply twp_epoll_ctl_del_exact.
  twp_go. eapply twp_get_client; [simpl; by rewrite lookup_insert_ne|].
  twp_go. unfold log, set_epoll, set_heap. simpl.
  by rewrite delete_delete_eq, <- app_assoc, Hconn.
Qed.

(** X10.  Destroying a client ([~Client], [Proxy::shut_client],
    [~Connection]) while there is an upstream session: in the queues
    of the session the first staging entry of the client is taken out
    and every pending entry of the client is made null; the client's
    descriptor leaves the interest list and is closed, the client is
    freed; every other client, every other registration and
    [server_conn] are as they were. *)
Theorem client_destruction (this svr : ptr) (c : Client) (srv : Server)
    (st : Process) :
  heap st !! this = Some (AClient c) →
  server_conn st = Some svr →
  heap st !! svr = Some (AServer srv) →
  ∃ st',
    delete_Client this st = Ok tt st'
    ∧ heap st' !! this = None
    ∧ heap st' !! svr
      = Some (AServer (mkServer (s_fd srv) (_buffer srv)
                         (pop_client_from (clients srv) this)
                         (replace_null this (ready_clients srv))))
    ∧ (∀ p, p ≠ this → p ≠ svr → heap st' !! p = heap st !! p)
    ∧ epoll st' = delete (c_fd c) (epoll st)
    ∧ server_conn st' = Some svr
    ∧ syscalls st'
      = syscalls st ++
        [sys_epoll_del (c_fd c)
           (match epoll st !! c_fd c with Some _ => 0 | None => -1 end);
         sys_close (c_fd c)].
Proof.
  intros Hc Hconn Hsrv.
  assert (svr ≠ this) by congruence.
  eexists. split; [by apply (delete_Client_effect this c svr srv)|]. simpl.
  split; [apply lookup_delete_eq|]. split.
  { rewrite lookup_delete_ne by done. apply lookup_insert_eq. }
  split; [|done].
  intros p Hp Hq. by rewrite lookup_delete_ne, lookup_insert_ne.
Qed.

Lemma client_destruction_witness :
  ∃ st',
    delete_Client 1%N (state_after two_pending_events) = Ok tt st'
    ∧ heap st' !! 1%N = None
    ∧ heap st' !! 3%N = Some (AServer (mkServer 6 [] [] [None; Some 2%N]))
    ∧ epoll st' !! 5 = None.
Proof.
  destruct (client_destruction 1%N 3%N (mkClient 5 ping (Some 3%N))
              (mkServer 6 [] [] [Some 1%N; Some 2%N])
              (state_after two_pending_events))
    as (st' & Hrun & Hgone & Hsrv & _ & Hep & _).
  - vm_compute. reflexivity.
  - vm_compute. reflexivity.
  - vm_compute. reflexivity.
  - exists st'. split; [exact Hrun|]. split; [exact Hgone|].
    split; [exact Hsrv|]. rewrite Hep. apply lookup_delete_eq.
Defined.

(** ** [Client::_recv_from] *)

Lemma Proxy_connect_to_existing env st p :
  server_conn st = Some p → Proxy_connect_to env st = Ok p st.
Proof.
  intros Hp. unfold Proxy_connect_to.
  rewrite bind_unfold. unfold gets. by rewrite Hp.
Qed.

(** [Client::_recv_from] up to its test of the number of bytes read,
    for a client whose peer is null or the upstream session. *)
Lemma Client__recv_from_steps env this c svr srv st :
  heap st !! this = Some (AClient c) →
  server_conn st = Some svr →
  heap st !! svr = Some (AServer srv) →
  peer c = None ∨ peer c = Some svr →
  Client__recv_from env this st
  = (if Z.of_nat (length (env_read env)) =? 0 then delete_Client this
     else
       s ← get_server svr;
       r ← epoll_ctl_mod (s_fd s)
             (mkEvent (Z.lor (Z.lor EPOLLIN EPOLLOUT) EPOLLET) svr);
       if r =? -1 then exit 1 else mret tt)
      (mkProcess (epoll st) (server_conn st)
         (<[this := AClient (mkClient (c_fd c) (buffer c ++ env_read env)
                                      (Some svr))]>
            (<[svr := AServer (mkServer (s_fd srv) (_buffer srv)
                                 (clients srv ++ [Some this])
                                 (ready_clients srv))]>
               (heap st)))
         (brk st)
         (syscalls st ++ [sys_read (c_fd c) (env_read env)])).
Proof.
  intros Hc Hconn Hsrv Hpeer.
  assert (Hne : this ≠ svr) by congruence.
  remember (Client__recv_from env this st) as r eqn:Hr.
  unfold Client__recv_from in Hr.
  rewrite bind_unfold in Hr. unfold get_client at 1 in Hr. rewrite Hc in Hr.
  rewrite bind_unfold in Hr.
  destruct Hpeer as [Hp|Hp]; rewrite Hp in Hr.
  - rewrite bind_unfold, (Proxy_connect_to_existing env st svr Hconn) in Hr.
    rewrite bind_unfold in Hr. simpl in Hr.
    rewrite bind_unfold in Hr. unfold Server_push_client in Hr.
    rewrite bind_unfold in Hr. unfold get_server at 1 in Hr. simpl in Hr.
    rewrite lookup_insert_ne, Hsrv in Hr by done. simpl in Hr.
    rewrite bind_unfold in Hr. unfold get_client at 1 in Hr. simpl in Hr.
    rewrite lookup_insert_ne, lookup_insert_eq in Hr by done.
    unfold Buffer.read in Hr.
    repeat (rewrite bind_unfold in Hr; simpl in Hr).
    rewrite Hr. f_equal. unfold set_heap, log. simpl. f_equal.
    rewrite (insert_insert_ne _ svr this), insert_insert_eq by done.
    done.
  - rewrite Hr. simpl.
    rewrite bind_unfold. unfold Server_push_client.
    rewrite bind_unfold. unfold get_server at 1. rewrite Hsrv. simpl.
    rewrite bind_unfold. unfold get_client at 1. simpl.
    rewrite lookup_insert_ne, Hc by done.
    unfold Buffer.read.
    repeat (rewrite bind_unfold; simpl).
    f_equal. unfold set_heap, log. simpl. f_equal.
    f_equal. f_equal. destruct c. simpl in *. by subst.
Qed.

Lemma Client__recv_from_eof_run env this c svr srv st :
  heap st !! this = Some (AClient c) →
  server_conn st = Some svr →
  heap st !! svr = Some (AServer srv) →
  peer c = None ∨ peer c = Some svr →
  env_read env = [] →
  Client__recv_from env this st
  = Ok tt (mkProcess
             (delete (c_fd c) (epoll st))
             (Some svr)
             (delete this
                (<[svr := AServer (mkServer (s_fd srv) (_buffer srv)
                                     (pop_client_from (clients srv ++ [Some this]) this)
                                     (replace_null this (ready_clients srv)))]>
                   (heap st)))
             (brk st)
             (syscalls st ++
              [sys_read (c_fd c) [];
               sys_epoll_del (c_fd c)
                 (match epoll st !! c_fd c with Some _ => 0 | None => -1 end);
               sys_close (c_fd c)])).
Proof.
  intros Hc Hconn Hsrv Hpeer Hdata.
  assert (Hne : this ≠ svr) by congruence.
  rewrite (Client__recv_from_steps env this c svr srv st Hc Hconn Hsrv Hpeer).
  rewrite Hdata. simpl.
  rewrite (delete_Client_effect this
             (mkClient (c_fd c) (buffer c ++ []) (Some svr)) svr
             (mkServer (s_fd srv) (_buffer srv) (clients srv ++ [Some this])
                       (ready_clients srv))); simpl.
  - f_equal. f_equal.
    + apply map_eq. intros p.
      destruct (decide (p = this)) as [->|Hp]; [by rewrite !lookup_delete_eq|].
      rewrite !lookup_delete_ne by done.
      destruct (decide (p = svr)) as [->|Hq]; [by rewrite !lookup_insert_eq|].
      by rewrite !lookup_insert_ne.
    + by rewrite <- app_assoc.
  - apply lookup_insert_eq.
  - done.
  - rewrite lookup_insert_ne by done. apply lookup_insert_eq.
Qed.

(** [Proxy::connect_to] when there is no upstream session. *)
Lemma Proxy_connect_to_cases env st :
  server_conn st = None →
  (can_connect env st →
   Proxy_connect_to env st = Ok (brk st) (connected env st))
  ∧ (¬ can_connect env st → ∃ st', Proxy_connect_to env st = Exit 1 st').
Proof.
  intros Hnone. unfold can_connect, connected.
  remember (Proxy_connect_to env st) as r eqn:Hr.
  unfold Proxy_connect_to in Hr.
  rewrite bind_unfold in Hr. unfold gets at 1 in Hr. rewrite Hnone in Hr.
  rewrite bind_unfold in Hr. simpl in Hr.
  destruct (env_socket env <? 0) eqn:Hfd.
  { split; [intros (? & _); apply Z.ltb_lt in Hfd; lia|]. intros _. by eexists. }
  rewrite bind_unfold in Hr. unfold set_nonblocking in Hr.
  destruct (env_fcntl env) eqn:Hfcntl; simpl in Hr.
  2:{ split; [by intros (_ & ? & _)|]. intros _. by eexists. }
  destruct (env_gethostbyname env) eqn:Hhost; simpl in Hr.
  2:{ split; [by intros (_ & _ & ? & _)|]. intros _. by eexists. }
  repeat (rewrite bind_unfold in Hr; simpl in Hr).
  unfold epoll_ctl_add in Hr. simpl in Hr.
  destruct (epoll st !! env_socket env) as [reg|] eqn:Hreg; simpl in Hr.
  { split; [by intros (_ & _ & _ & ? & _)|]. intros _. by eexists. }
  repeat (rewrite bind_unfold in Hr; simpl in Hr).
  destruct (env_connect env) eqn:Hconn; simpl in Hr.
  2:{ split; [by intros (_ & _ & _ & _ & ?)|]. intros _. by eexists. }
  split.
  - intros _. rewrite Hr.
    unfold log, set_epoll, set_server_conn, set_brk, set_heap. simpl.
    by rewrite <- !app_assoc.
  - intros Hbad. exfalso. apply Hbad. repeat split; try done.
    apply Z.ltb_ge in Hfd. lia.
Qed.

(** The first call of [Client::_recv_from] in a process without an
    upstream session goes on as a call in the state where
    [connect_to] has just created it. *)
Lemma Client__recv_from_first env this c st :
  wf st →
  heap st !! this = Some (AClient c) →
  peer c = None →
  server_conn st = None →
  can_connect env st →
  Client__recv_from env this st = Client__recv_from env this (connected env st).
Proof.
  intros Hwf Hc Hpeer Hnone Hgood.
  assert (Hne : this ≠ brk st).
  { intros Heq. assert (this < brk st)%N; [|lia].
    apply (wf_brk st Hwf). eauto. }
  destruct (Proxy_connect_to_cases env st Hnone) as [Hnew _].
  unfold Client__recv_from.
  rewrite !bind_unfold. unfold get_client at 1 3.
  replace (heap (connected env st) !! this) with (Some (AClient c))
    by (symmetry; simpl; by rewrite lookup_insert_ne).
  rewrite Hc, Hpeer.
  rewrite !(bind_unfold (_ ≫= _)).
  rewrite (bind_unfold (Proxy_connect_to env)), (Hnew Hgood).
  rewrite (bind_unfold (Proxy_connect_to env)).
  by rewrite (Proxy_connect_to_existing env (connected env st) (brk st)).
Qed.

Lemma Client__recv_from_connect_fails env this c st st1 :
  heap st !! this = Some (AClient c) →
  peer c = None →
  Proxy_connect_to env st = Exit 1 st1 →
  Client__recv_from env this st = Exit 1 st1.
Proof.
  intros Hc Hpeer Hfail. unfold Client__recv_from.
  rewrite bind_unfold. unfold get_client at 1. rewrite Hc, Hpeer.
  rewrite bind_unfold, bind_unfold. by rewrite Hfail.
Qed.

(** [Client::_recv_from] with an upstream session, when the read finds
    bytes. *)
Lemma Client__recv_from_data_run env this svr c srv st :
  wf st →
  heap st !! this = Some (AClient c) →
  server_conn st = Some svr →
  heap st !! svr = Some (AServer srv) →
  peer c = None ∨ peer c = Some svr →
  env_read env ≠ [] →
  ∃ st',
    Client__recv_from env this st = Ok tt st'
    ∧ heap st' !! this
      = Some (AClient (mkClient (c_fd c) (buffer c ++ env_read env) (Some svr)))
    ∧ heap st' !! svr
      = Some (AServer (mkServer (s_fd srv) (_buffer srv)
                         (clients srv ++ [Some this]) (ready_clients srv)))
    ∧ (∀ p, p ≠ this → p ≠ svr → heap st' !! p = heap st !! p)
    ∧ epoll st'
      = <[s_fd srv := mkEvent (Z.lor (Z.lor EPOLLIN EPOLLOUT) EPOLLET) svr]>
          (epoll st)
    ∧ server_conn st' = Some svr
    ∧ syscalls st'
      = syscalls st ++
        [sys_read (c_fd c) (env_read env);
         sys_epoll_mod (s_fd srv)
           (mkEvent (Z.lor (Z.lor EPOLLIN EPOLLOUT) EPOLLET) svr) 0].
Proof.
  intros Hwf Hc Hconn Hsrv Hpeer Hdata.
  assert (Hne : this ≠ svr) by congruence.
  destruct (wf_registered st Hwf svr _ Hsrv) as (reg & Hreg & _).
  simpl in Hreg.
  rewrite (Client__recv_from_steps env this c svr srv st Hc Hconn Hsrv Hpeer).
  destruct (Z.of_nat (length (env_read env)) =? 0) eqn:Hn.
  { apply Z.eqb_eq in Hn. destruct (env_read env); [done|simpl in Hn; lia]. }
  eexists. split.
  { rewrite bind_unfold. unfold get_server. simpl.
    rewrite lookup_insert_ne, lookup_insert_eq by done. simpl.
    rewrite bind_unfold. unfold epoll_ctl_mod. simpl. rewrite Hreg.
    reflexivity. }
  simpl. split; [apply lookup_insert_eq|]. split.
  { rewrite lookup_insert_ne by done. apply lookup_insert_eq. }
  split.
  { intros p Hp Hq. by rewrite !lookup_insert_ne. }
  split; [done|]. split; [done|]. by rewrite <- app_assoc.
Qed.

Lemma wf_connected env st :
  wf st → server_conn st = None → can_connect env st → wf (connected env st).
Proof.
  intros Hwf Hnone (_ & _ & _ & Hfree & _).
  by eapply (wf_new_server st _ (env_socket env)).
Qed.

(** X11.  [Client::_recv_from] when the read finds bytes, on a live
    client, in a state that satisfies the invariant of the loop.
    - When there is an upstream session and the client's peer is null
      or that session: the bytes are appended to the client's buffer,
      the client is added at the end of staging (once per call, whether
      or not it is there already), its peer is the session, and the
      upstream descriptor is registered for EPOLLIN|EPOLLOUT|EPOLLET;
      nothing else changes and the only system calls are the read and
      that [epoll_ctl].
    - When there is no upstream session (the first read of the
      process) and [connect_to] can create it: the session is created
      at the next free address and registered, then the same happens,
      staging being the client alone; the system calls are [socket],
      the [epoll_ctl] that adds the descriptor, [connect], the read and
      the [epoll_ctl] that modifies it.
    - When there is no upstream session and [connect_to] cannot create
      it, the process exits with status 1. *)
Theorem client_recv_from_stages (env : Env) (this : ptr) (c : Client)
    (st : Process) :
  wf st →
  heap st !! this = Some (AClient c) →
  env_read env ≠ [] →
  let up := Z.lor (Z.lor EPOLLIN EPOLLOUT) EPOLLET in
  (∀ svr srv,
     server_conn st = Some svr →
     heap st !! svr = Some (AServer srv) →
     peer c = None ∨ peer c = Some svr →
     ∃ st',
       Client__recv_from env this st = Ok tt st'
       ∧ heap st' !! this
         = Some (AClient (mkClient (c_fd c) (buffer c ++ env_read env) (Some svr)))
       ∧ heap st' !! svr
         = Some (AServer (mkServer (s_fd srv) (_buffer srv)
                            (clients srv ++ [Some this]) (ready_clients srv)))
       ∧ (∀ p, p ≠ this → p ≠ svr → heap st' !! p = heap st !! p)
       ∧ epoll st' = <[s_fd srv := mkEvent up svr]> (epoll st)
       ∧ server_conn st' = Some svr
       ∧ syscalls st'
         = syscalls st ++
           [sys_read (c_fd c) (env_read env);
            sys_epoll_mod (s_fd srv) (mkEvent up svr) 0])
  ∧ (server_conn st = None →
     peer c = None →
     can_connect env st →
     ∃ st',
       Client__recv_from env this st = Ok tt st'
       ∧ heap st' !! this
         = Some (AClient (mkClient (c_fd c) (buffer c ++ env_read env)
                            (Some (brk st))))
       ∧ heap st' !! brk st
         = Some (AServer (mkServer (env_socket env) [] [Some this] []))
       ∧ (∀ p, p ≠ this → p ≠ brk st → heap st' !! p = heap st !! p)
       ∧ epoll st' = <[env_socket env := mkEvent up (brk st)]> (epoll st)
       ∧ server_conn st' = Some (brk st)
       ∧ syscalls st'
         = syscalls st ++
           [sys_socket (env_socket env);
            sys_epoll_add (env_socket env) (mkEvent up (brk st)) 0;
            sys_connect (env_socket env) true;
            sys_read (c_fd c) (env_read env);
            sys_epoll_mod (env_socket env) (mkEvent up (brk st)) 0])
  ∧ (server_conn st = None →
     peer c = None →
     ¬ can_connect env st →
     ∃ st', Client__recv_from env this st = Exit 1 st').
Proof.
  intros Hwf Hc Hdata up. split; [|split].
  - intros svr srv Hconn Hsrv Hpeer.
    by apply Client__recv_from_data_run.
  - intros Hnone Hpeer Hgood.
    assert (Hne : this ≠ brk st).
    { intros Heq. assert (this < brk st)%N; [|lia].
      apply (wf_brk st Hwf). eauto. }
    rewrite (Client__recv_from_first env this c st Hwf Hc Hpeer Hnone Hgood).
    destruct (Client__recv_from_data_run env this (brk st) c
                (mkServer (env_socket env) [] [] []) (connected env st))
      as (st' & Hrun & Hthis & Hsrv & Hothers & Hep & Hconn & Hsys).
    + by apply wf_connected.
    + simpl. by rewrite lookup_insert_ne.
    + reflexivity.
    + simpl. apply lookup_insert_eq.
    + by left.
    + done.
    + exists st'. split; [done|]. split; [done|]. split; [done|].
      split.
      { intros p Hp Hq. rewrite (Hothers p Hp Hq). simpl.
        by rewrite lookup_insert_ne. }
      split.
      { rewrite Hep. simpl. apply insert_insert_eq. }
      split; [done|].
      rewrite Hsys. simpl. by rewrite <- app_assoc.
  - intros Hnone Hpeer Hbad.
    destruct (Proxy_connect_to_cases env st Hnone) as [_ Hfail].
    destruct (Hfail Hbad) as [st1 Hst1]. exists st1.
    by apply (Client__recv_from_connect_fails env this c).
Qed.

Lemma client_recv_from_stages_witness :
  (∃ st',
     Client__recv_from (reading ping (-1)) 1%N (state_after staged_events)
     = Ok tt st'
     ∧ heap st' !! 1%N = Some (AClient (mkClient 5 (ping ++ ping) (Some 2%N)))
     ∧ heap st' !! 2%N
       = Some (AServer (mkServer 6 [] [Some 1%N; Some 1%N] [])))
  ∧ (∃ st',
       Client__recv_from (reading ping 6) 1%N
         (state_after [mkEv 3 EPOLLIN (accepting [5])]) = Ok tt st'
       ∧ heap st' !! 2%N = Some (AServer (mkServer 6 [] [Some 1%N] []))
       ∧ server_conn st' = Some 2%N)
  ∧ ∃ st',
      Client__recv_from (reading ping (-1)) 1%N
        (state_after [mkEv 3 EPOLLIN (accepting [5])]) = Exit 1 st'.
Proof.
  assert (Hwf : ∀ es, is_Some (reach_by Resp.split es (init 3)) →
                      wf (state_after es)).
  { intros es Hes. by apply (reachable_wf Resp.split), state_after_reachable. }
  split; [|split].
  - destruct (client_recv_from_stages (reading ping (-1)) 1%N
                (mkClient 5 ping (Some 2%N)) (state_after staged_events))
      as (Hthere & _).
    + apply Hwf. eexists. vm_compute. reflexivity.
    + vm_compute. reflexivity.
    + discriminate.
    + destruct (Hthere 2%N (mkServer 6 [] [Some 1%N] []))
        as (st' & Hrun & Hthis & Hsrv & _).
      * vm_compute. reflexivity.
      * vm_compute. reflexivity.
      * by right.
      * by exists st'.
  - destruct (client_recv_from_stages (reading ping 6) 1%N
                (mkClient 5 [] None)
                (state_after [mkEv 3 EPOLLIN (accepting [5])]))
      as (_ & Hfirst & _).
    + apply Hwf. eexists. vm_compute. reflexivity.
    + vm_compute. reflexivity.
    + discriminate.
    + destruct Hfirst as (st' & Hrun & _ & Hsrv & _ & _ & Hconn & _).
      * reflexivity.
      * reflexivity.
      * repeat split; try reflexivity. vm_compute. discriminate.
      * exists st'. split; [exact Hrun|]. split; [exact Hsrv|exact Hconn].
  - destruct (client_recv_from_stages (reading ping (-1)) 1%N
                (mkClient 5 [] None)
                (state_after [mkEv 3 EPOLLIN (accepting [5])]))
      as (_ & _ & Hfail).
    + apply Hwf. eexists. vm_compute. reflexivity.
    + vm_compute. reflexivity.
    + discriminate.
    + apply Hfail; [reflexivity|reflexivity|].
      intros (Hfd & _). vm_compute in Hfd. by apply Hfd.
Defined.

(** X12.  [Client::_recv_from] when the read finds the end of the
    stream (zero bytes), on a live client.
    - When there is an upstream session and the client's peer is null
      or that session: the client was pushed on staging before the read
      and is destroyed after it; the first staging entry of the client
      is taken out again, so staging is as before the call when the
      client was not staged; its pending entries are made null; its
      descriptor is deregistered and closed.  The registration of the
      upstream descriptor is not touched.
    - When there is no upstream session (the first read of the
      process), in a state that satisfies the invariant of the loop,
      and [connect_to] can create it: the session is created and
      registered for EPOLLIN|EPOLLOUT|EPOLLET before the read, and is
      left with empty queues; the client is destroyed.
    - When there is no upstream session and [connect_to] cannot create
      it, the process exits with status 1. *)
Theorem client_recv_from_end_of_stream (env : Env) (this : ptr)
    (c : Client) (st : Process) :
  heap st !! this = Some (AClient c) →
  env_read env = [] →
  let up := Z.lor (Z.lor EPOLLIN EPOLLOUT) EPOLLET in
  (∀ svr srv,
     server_conn st = Some svr →
     heap st !! svr = Some (AServer srv) →
     peer c = None ∨ peer c = Some svr →
     ∃ st' srv',
       Client__recv_from env this st = Ok tt st'
       ∧ heap st' !! this = None
       ∧ heap st' !! svr = Some (AServer srv')
       ∧ s_fd srv' = s_fd srv ∧ _buffer srv' = _buffer srv
       ∧ ready_clients srv' = replace_null this (ready_clients srv)
       ∧ (Some this ∉ clients srv → clients srv' = clients srv)
       ∧ (∀ l1 l2, clients srv = l1 ++ Some this :: l2 → Some this ∉ l1 →
            clients srv' = l1 ++ l2 ++ [Some this])
       ∧ (∀ p, p ≠ this → p ≠ svr → heap st' !! p = heap st !! p)
       ∧ epoll st' = delete (c_fd c) (epoll st)
       ∧ syscalls st'
         = syscalls st ++
           [sys_read (c_fd c) [];
            sys_epoll_del (c_fd c)
              (match epoll st !! c_fd c with Some _ => 0 | None => -1 end);
            sys_close (c_fd c)])
  ∧ (wf st →
     server_conn st = None →
     peer c = None →
     can_connect env st →
     ∃ st',
       Client__recv_from env this st = Ok tt st'
       ∧ heap st' !! this = None
       ∧ heap st' !! brk st
         = Some (AServer (mkServer (env_socket env) [] [] []))
       ∧ (∀ p, p ≠ this → p ≠ brk st → heap st' !! p = heap st !! p)
       ∧ epoll st'
         = delete (c_fd c)
             (<[env_socket env := mkEvent up (brk st)]> (epoll st))
       ∧ server_conn st' = Some (brk st)
       ∧ syscalls st'
         = syscalls st ++
           [sys_socket (env_socket env);
            sys_epoll_add (env_socket env) (mkEvent up (brk st)) 0;
            sys_connect (env_socket env) true;
            sys_read (c_fd c) [];
            sys_epoll_del (c_fd c) 0;
            sys_close (c_fd c)])
  ∧ (server_conn st = None →
     peer c = None →
     ¬ can_connect env st →
     ∃ st', Client__recv_from env this st = Exit 1 st').
Proof.
  intros Hc Hdata up. split; [|split].
  - intros svr srv Hconn Hsrv Hpeer.
    assert (Hne : svr ≠ this) by congruence.
    eexists _, _. split.
    { by apply (Client__recv_from_eof_run env this c svr srv). }
    simpl. split; [apply lookup_delete_eq|]. split.
    { rewrite lookup_delete_ne by done. apply lookup_insert_eq. }
    simpl. repeat split; try done.
    + intros Habs.
      replace (clients srv ++ [Some this]) with (clients srv ++ Some this :: [])
        by done.
      by rewrite pop_client_from_first, app_nil_r.
    + intros l1 l2 -> Hl1. rewrite <- app_assoc. simpl.
      by rewrite pop_client_from_first.
    + intros p Hp Hq. by rewrite lookup_delete_ne, lookup_insert_ne.
  - intros Hwf Hnone Hpeer Hgood.
    assert (Hne : this ≠ brk st).
    { intros Heq. assert (this < brk st)%N; [|lia].
      apply (wf_brk st Hwf). eauto. }
    destruct (wf_registered st Hwf this _ Hc) as (reg & Hreg & _).
    simpl in Hreg.
    rewrite (Client__recv_from_first env this c st Hwf Hc Hpeer Hnone Hgood).
    rewrite (Client__recv_from_eof_run env this c (brk st)
               (mkServer (env_socket env) [] [] []) (connected env st));
      [|simpl; by rewrite lookup_insert_ne|reflexivity
       |simpl; apply lookup_insert_eq|by left|done].
    eexists. split; [reflexivity|]. simpl.
    split; [apply lookup_delete_eq|]. split.
    { rewrite lookup_delete_ne by done. rewrite lookup_insert_eq.
      change [Some this] with ([] ++ Some this :: []).
      by rewrite (pop_client_from_first [] [] this) by apply not_elem_of_nil. }
    split.
    { intros p Hp Hq. by rewrite lookup_delete_ne, !lookup_insert_ne. }
    split; [done|]. split; [done|].
    rewrite <- app_assoc. simpl. do 6 f_equal.
    destruct Hgood as (_ & _ & _ & Hfree & _).
    rewrite lookup_insert_ne by congruence. by rewrite Hreg.
  - intros Hnone Hpeer Hbad.
    destruct (Proxy_connect_to_cases env st Hnone) as [_ Hfail].
    destruct (Hfail Hbad) as [st1 Hst1]. exists st1.
    by apply (Client__recv_from_connect_fails env this c).
Qed.

Lemma client_recv_from_end_of_stream_witness :
  (∃ st',
     Client__recv_from (reading [] (-1)) 1%N (state_after two_pending_events)
     = Ok tt st'
     ∧ heap st' !! 1%N = None
     ∧ heap st' !! 3%N = Some (AServer (mkServer 6 [] [] [None; Some 2%N])))
  ∧ ∃ st',
      Client__recv_from (reading [] 6) 1%N
        (state_after [mkEv 3 EPOLLIN (accepting [5])]) = Ok tt st'
      ∧ heap st' !! 1%N = None
      ∧ heap st' !! 2%N = Some (AServer (mkServer 6 [] [] []))
      ∧ epoll st' !! 6
        = Some (mkEvent (Z.lor (Z.lor EPOLLIN EPOLLOUT) EPOLLET) 2%N).
Proof.
  split.
  - destruct (client_recv_from_end_of_stream (reading [] (-1)) 1%N
                (mkClient 5 ping (Some 3%N))
                (state_after two_pending_events))
      as (Hthere & _).
    + vm_compute. reflexivity.
    + reflexivity.
    + destruct (Hthere 3%N (mkServer 6 [] [] [Some 1%N; Some 2%N]))
        as (st' & srv' & Hrun & Hgone & Hsrv & Hfd & Hbuf & Hready & Hstaged & _).
      * vm_compute. reflexivity.
      * vm_compute. reflexivity.
      * by right.
      * exists st'. split; [exact Hrun|]. split; [exact Hgone|].
        etransitivity; [exact Hsrv|].
        specialize (Hstaged (not_elem_of_nil _)).
        destruct srv'. simpl in *. by subst.
  - destruct (client_recv_from_end_of_stream (reading [] 6) 1%N
                (mkClient 5 [] None)
                (state_after [mkEv 3 EPOLLIN (accepting [5])]))
      as (_ & Hfirst & _).
    + vm_compute. reflexivity.
    + reflexivity.
    + destruct Hfirst as (st' & Hrun & Hgone & Hsrv & _ & Hep & _).
      * apply (reachable_wf Resp.split), state_after_reachable.
        eexists. vm_compute. reflexivity.
      * reflexivity.
      * reflexivity.
      * repeat split; try reflexivity. vm_compute. discriminate.
      * exists st'. split; [exact Hrun|]. split; [exact Hgone|].
        split; [exact Hsrv|]. rewrite Hep. vm_compute. reflexivity.
Defined.

(** X13.  [Client::triggered] for an event with EPOLLIN and EPOLLOUT
    set and EPOLLRDHUP clear, when the read finds the end of the
    stream: [_recv_from] destroys the client, and [_send_to] is then
    called on the destroyed object.  The call does not end in a
    result: it uses a freed client. *)
Theorem client_triggered_after_delete (env : Env) (this svr : ptr)
    (c : Client) (srv : Server) (events : Z) (st : Process) :
  heap st !! this = Some (AClient c) →
  server_conn st = Some svr →
  heap st !! svr = Some (AServer srv) →
  peer c = None ∨ peer c = Some svr →
  env_read env = [] →
  flag events EPOLLRDHUP = false →
  flag events EPOLLIN = true →
  flag events EPOLLOUT = true →
  Client_triggered env this events st = Undefined.
Proof.
  intros Hc Hconn Hsrv Hpeer Hdata Hhup Hin Hout.
  unfold Client_triggered. rewrite Hhup, Hin, Hout.
  rewrite bind_unfold.
  rewrite (Client__recv_from_eof_run env this c svr srv st) by done.
  unfold Client__send_to. rewrite bind_unfold. unfold get_client. simpl.
  by rewrite lookup_delete_eq.
Qed.

Lemma client_triggered_after_delete_witness :
  reachable Resp.split (state_after replied_events)
  ∧ may_report (state_after replied_events)
      (mkEv 5 (Z.lor EPOLLIN EPOLLOUT) (reading [] (-1))) = true
  ∧ Client_triggered (reading [] (-1)) 1%N (Z.lor EPOLLIN EPOLLOUT)
      (state_after replied_events) = Undefined.
Proof.
  split; [apply state_after_reachable; eexists; vm_compute; reflexivity|].
  split; [vm_compute; reflexivity|].
  apply (client_triggered_after_delete (reading [] (-1)) 1%N 2%N
           (mkClient 5 (ping ++ pong) (Some 2%N)) (mkServer 6 [] [] [])).
  - vm_compute. reflexivity.
  - vm_compute. reflexivity.
  - vm_compute. reflexivity.
  - by right.
  - reflexivity.
  - reflexivity.
  - reflexivity.
  - reflexivity.
Defined.

(** ** [Server::_send_to]: entries that are not live, failed writes *)

(** X14.  [Server::_send_to] past its guards when an entry of staging
    does not point to a live client (a client destroyed while it was
    staged twice leaves such an entry): the entry is dereferenced for
    its buffer, and the call does not end in a result. *)
Theorem send_to_uses_freed_client (env : Env) (this q : ptr) (srv : Server)
    (st : Process) :
  heap st !! this = Some (AServer srv) →
  ready_clients srv = [] →
  Some q ∈ clients srv →
  (∀ c, heap st !! q ≠ Some (AClient c)) →
  Server__send_to env this st = Undefined.
Proof.
  intros H Hpending Hq Hdead.
  assert (Hstaged : clients srv ≠ []).
  { intros Hnil. rewrite Hnil in Hq. by apply elem_of_nil in Hq. }
  rewrite (Server__send_to_acting env this srv st H Hstaged Hpending).
  destruct (mapM (request_of st) (clients srv)) as [bufs|] eqn:Hbufs; [|done].
  destruct (requests_live st _ bufs q Hbufs Hq) as [c Hc].
  by destruct (Hdead c).
Qed.

Lemma send_to_uses_freed_client_witness :
  reachable Resp.split (state_after twice_staged_hup_events)
  ∧ may_report (state_after twice_staged_hup_events)
      (mkEv 6 EPOLLOUT (writing 28)) = true
  ∧ Server__send_to (writing 28) 2%N (state_after twice_staged_hup_events)
    = Undefined.
Proof.
  split; [apply state_after_reachable; eexists; vm_compute; reflexivity|].
  split; [vm_compute; reflexivity|].
  apply (send_to_uses_freed_client (writing 28) 2%N 1%N
           (mkServer 6 [] [Some 1%N] [])).
  - vm_compute. reflexivity.
  - reflexivity.
  - by left.
  - intros c Hc. vm_compute in Hc. discriminate.
Defined.

Lemma writev_loop_all_again fd iov n : ∀ results st,
  Forall (λ r : Z * bool, r.1 ≤ 0 ∧ r.2 = true) results →
  writev_loop fd iov n results st
  = Spin (logs ((λ r : Z * bool, sys_writev fd iov r.1) <$> results) st).
Proof.
  induction results as [|[nwrite eagain] results IH]; intros st Hall; simpl.
  - unfold spin. by rewrite logs_nil.
  - apply Forall_cons in Hall as [[Hle Hagain] Hall]. simpl in Hle, Hagain.
    subst eagain. rewrite bind_unfold. simpl.
    replace (nwrite <=? 0) with true by (symmetry; by apply Z.leb_le).
    simpl. rewrite (IH _ Hall). by rewrite logs_log.
Qed.

Lemma writev_loop_retries fd iov n rest : ∀ retries st,
  Forall (λ r : Z * bool, r.1 ≤ 0 ∧ r.2 = true) retries →
  writev_loop fd iov n (retries ++ rest) st
  = writev_loop fd iov n rest
      (logs ((λ r : Z * bool, sys_writev fd iov r.1) <$> retries) st).
Proof.
  induction retries as [|[nwrite eagain] retries IH]; intros st Hall; simpl.
  - by rewrite logs_nil.
  - apply Forall_cons in Hall as [[Hle Hagain] Hall]. simpl in Hle, Hagain.
    subst eagain. rewrite bind_unfold. simpl.
    replace (nwrite <=? 0) with true by (symmetry; by apply Z.leb_le).
    simpl. rewrite (IH _ Hall). by rewrite logs_log.
Qed.

(** X15.  [Server::_send_to] past its guards, the staged clients being
    live, when the write does not go through.  The [writev] is repeated
    as long as it returns at most 0 with errno EAGAIN.  If the first
    call that is not such a failure (after any number of them) returns
    anything but the total size, a short write or an error, the
    process exits with status 1.  If every call is such a failure the
    loop does not end.  In both cases staging has already been moved
    into pending, no client has changed, the registration of the
    upstream descriptor has not been modified, and the system calls
    made are the [writev] attempts. *)
Theorem send_to_write_failures (env : Env) (this : ptr) (srv : Server)
    (st : Process) (bufs : list Buffer.t) :
  heap st !! this = Some (AServer srv) →
  clients srv ≠ [] →
  ready_clients srv = [] →
  mapM (request_of st) (clients srv) = Some bufs →
  let moved := set_heap <[this := AServer (mkServer (s_fd srv) (_buffer srv) []
                                                   (clients srv))]> st in
  let attempt := λ r : Z * bool, sys_writev (s_fd srv) bufs r.1 in
  (∀ retries nwrite eagain rest,
     env_writev env = retries ++ (nwrite, eagain) :: rest →
     Forall (λ r : Z * bool, r.1 ≤ 0 ∧ r.2 = true) retries →
     (nwrite <=? 0) && eagain = false →
     nwrite ≠ total_size bufs →
     Server__send_to env this st
     = Exit 1 (logs ((attempt <$> retries) ++ [sys_writev (s_fd srv) bufs nwrite])
                 moved))
  ∧ (Forall (λ r : Z * bool, r.1 ≤ 0 ∧ r.2 = true) (env_writev env) →
     Server__send_to env this st
     = Spin (logs (attempt <$> env_writev env) moved)).
Proof.
  intros H Hstaged Hpending Hbufs moved attempt.
  rewrite (Server__send_to_acting env this srv st H Hstaged Hpending), Hbufs.
  split.
  - intros retries nwrite eagain rest Henv Hretries Hagain Hshort.
    rewrite bind_unfold, Henv.
    rewrite (writev_loop_retries _ _ _ _ _ _ Hretries).
    simpl. rewrite bind_unfold. simpl.
    rewrite Hagain.
    replace (nwrite =? total_size bufs) with false
      by (symmetry; by apply Z.eqb_neq).
    simpl. f_equal. unfold logs, log. simpl. by rewrite <- app_assoc.
  - intros Hall. rewrite bind_unfold.
    by rewrite (writev_loop_all_again _ _ _ _ _ Hall).
Qed.

Lemma send_to_write_failures_witness :
  Server__send_to (mkEnv [] [(-1, true); (0, true); (20, false)] [] false (-1)
                     true true true)
    3%N (state_after two_staged_events)
  = Exit 1 (logs [sys_writev 6 [ping; get_x] (-1);
                  sys_writev 6 [ping; get_x] 0;
                  sys_writev 6 [ping; get_x] 20]
              (set_heap <[3%N := AServer (mkServer 6 [] []
                                            [Some 1%N; Some 2%N])]>
                 (state_after two_staged_events))).
Proof.
  destruct (send_to_write_failures
              (mkEnv [] [(-1, true); (0, true); (20, false)] [] false (-1)
                 true true true)
              3%N (mkServer 6 [] [Some 1%N; Some 2%N] [])
              (state_after two_staged_events) [ping; get_x])
    as [Hshort _].
  - vm_compute. reflexivity.
  - discriminate.
  - reflexivity.
  - vm_compute. reflexivity.
  - apply (Hshort [(-1, true); (0, true)] 20 false []).
    + reflexivity.
    + repeat constructor; simpl; lia.
    + reflexivity.
    + vm_compute. discriminate.
Defined.

(** ** [Server::_recv_from]: a read of zero bytes *)

(** X16.  [Server::_recv_from] when the read finds no byte: the handler
    returns at once; the objects, the queues, the buffer and the
    interest list are as they were (the registration of the upstream
    descriptor is not renewed, the session is not destroyed), the
    framer is not called, and the only system call is the read. *)
Theorem recv_from_zero_read (split : list byte → option SplitResult)
    (env : Env) (this : ptr) (srv : Server) (st : Process) :
  heap st !! this = Some (AServer srv) →
  env_read env = [] →
  ∃ st',
    Server__recv_from split env this st = Ok tt st'
    ∧ heap st' = heap st
    ∧ epoll st' = epoll st
    ∧ server_conn st' = server_conn st
    ∧ syscalls st' = syscalls st ++ [sys_read (s_fd srv) []].
Proof.
  intros H Hdata. eexists. split.
  { unfold Server__recv_from. rewrite bind_unfold. unfold get_server.
    rewrite H, Hdata. unfold Buffer.read.
    repeat (rewrite bind_unfold; simpl). reflexivity. }
  simpl. repeat split; try done.
  rewrite app_nil_r. apply insert_id. rewrite H. by destruct srv.
Qed.

Lemma recv_from_zero_read_witness :
  ∃ st',
    Server__recv_from Resp.split (reading [] (-1)) 3%N
      (state_after two_pending_events) = Ok tt st'
    ∧ heap st' = heap (state_after two_pending_events)
    ∧ epoll st' = epoll (state_after two_pending_events).
Proof.
  destruct (recv_from_zero_read Resp.split (reading [] (-1)) 3%N
              (mkServer 6 [] [] [Some 1%N; Some 2%N])
              (state_after two_pending_events))
    as (st' & Hrun & Hheap & Hep & _).
  - vm_compute. reflexivity.
  - reflexivity.
  - by exists st'.
Defined.

(** ** A round through the upstream session *)

(** The [writev] loop ends well: after the EAGAIN failures [retries],
    a call returns the total size and is not taken for such a
    failure. *)
Lemma Server__send_to_total_retries env this srv st bufs retries eagain rest :
  heap st !! this = Some (AServer srv) →
  clients srv ≠ [] →
  ready_clients srv = [] →
  mapM (request_of st) (clients srv) = Some bufs →
  is_Some (epoll st !! s_fd srv) →
  env_writev env = retries ++ (total_size bufs, eagain) :: rest →
  Forall (λ r : Z * bool, r.1 ≤ 0 ∧ r.2 = true) retries →
  (total_size bufs <=? 0) && eagain = false →
  ∃ st', Server__send_to env this st = Ok tt st'.
Proof.
  intros H Hstaged Hpending Hbufs [reg Hreg] Henv Hretries Hagain.
  rewrite (Server__send_to_acting _ _ _ _ H Hstaged Hpending), Hbufs, Henv.
  rewrite bind_unfold, (writev_loop_retries _ _ _ _ _ _ Hretries).
  simpl. rewrite bind_unfold. simpl.
  rewrite Hagain, Z.eqb_refl. simpl.
  rewrite bind_unfold. unfold epoll_ctl_mod. simpl. rewrite Hreg. simpl.
  by eexists.
Qed.

(** X17.  [Server::_send_to] followed by [Server::_recv_from], from a
    state that satisfies the invariant of the loop, with nothing
    pending and the staged clients live and all different.  The
    [writev] loop is assumed to end well: after any number of calls
    that return at most 0 with errno EAGAIN, a call returns the total
    size and is not itself taken for such a failure (with a total of 0
    and errno EAGAIN the loop would go on).  The read is assumed to
    bring bytes and to frame no more replies than there were staged
    clients.  Then both calls return.  The client staged at position
    [i] ends with the [i]-th reply appended to its buffer, after the
    bytes of its request, which are still there; the upstream session
    has nothing staged and holds as pending the clients the read
    brought no reply for. *)
Theorem round_through_upstream (split : list byte → option SplitResult)
    (envw envr : Env) (this : ptr) (srv : Server) (st : Process)
    (bufs : list Buffer.t) (retries rest : list (Z * bool)) (eagain : bool)
    (r : SplitResult) :
  wf st →
  heap st !! this = Some (AServer srv) →
  clients srv ≠ [] →
  ready_clients srv = [] →
  NoDup (clients srv) →
  mapM (request_of st) (clients srv) = Some bufs →
  env_writev envw = retries ++ (total_size bufs, eagain) :: rest →
  Forall (λ r : Z * bool, r.1 ≤ 0 ∧ r.2 = true) retries →
  (total_size bufs <=? 0) && eagain = false →
  env_read envr ≠ [] →
  split (_buffer srv ++ env_read envr) = Some r →
  (length (messages r) ≤ length (clients srv))%nat →
  ∃ st1 st2,
    Server__send_to envw this st = Ok tt st1
    ∧ Server__recv_from split envr this st1 = Ok tt st2
    ∧ heap st2 !! this
      = Some (AServer (mkServer (s_fd srv)
                (if finished r then []
                 else drop (interrupt_point r) (_buffer srv ++ env_read envr))
                []
                (drop (length (messages r)) (clients srv))))
    ∧ ∀ i q m c,
        clients srv !! i = Some (Some q) →
        messages r !! i = Some m →
        heap st !! q = Some (AClient c) →
        heap st2 !! q
        = Some (AClient (mkClient (c_fd c)
                  (buffer c ++ range_bytes (_buffer srv ++ env_read envr) m)
                  (peer c))).
Proof.
  intros Hwf H Hstaged Hpending Hnodup Hbufs Hw Hretries Hagain Hdata Hsplit Hlen.
  destruct (wf_registered st Hwf this _ H) as (reg & Hreg & _).
  simpl in Hreg.
  destruct (Server__send_to_total_retries envw this srv st bufs retries eagain rest)
    as [st1 Hsend]; [done..|by eexists|done|done|done|].
  destruct (Server__send_to_effect envw this srv st st1 H Hstaged Hpending Hsend)
    as (bufs' & attempts & _ & _ & Hst1).
  assert (Hh1 : ∀ p, p ≠ this → heap st1 !! p = heap st !! p).
  { intros p Hp. rewrite Hst1. simpl. by rewrite lookup_insert_ne. }
  assert (Hthis : ∀ q, Some q ∈ clients srv → q ≠ this).
  { intros q Hq ->.
    destruct (requests_live st _ bufs this Hbufs Hq) as [c Hc]. congruence. }
  set (srv1 := mkServer (s_fd srv) (_buffer srv) [] (clients srv)).
  assert (H1 : heap st1 !! this = Some (AServer srv1)).
  { rewrite Hst1. simpl. apply lookup_insert_eq. }
  destruct (Server__recv_from_delivers split envr this srv1 st1 r)
    as (st2 & cs & Hrecv & Hsrv2 & Hothers & _); [done..| | |].
  { apply Forall_take. apply Forall_forall. intros [q|] Hq; [|done].
    destruct (requests_live st _ bufs q Hbufs Hq) as [c Hc].
    destruct (wf_registered st Hwf q _ Hc) as (regq & Hregq & _).
    simpl in Hregq. unfold notifiable.
    rewrite (Hh1 q (Hthis q Hq)), Hc. apply bool_decide_eq_true_2.
    rewrite Hst1. simpl.
    destruct (decide (c_fd c = s_fd srv)) as [->|Hne].
    - rewrite lookup_insert_eq. by eexists.
    - rewrite lookup_insert_ne by done. by eexists. }
  { simpl. rewrite Hst1. simpl. rewrite lookup_insert_eq. by eexists. }
  exists st1, st2. split; [done|]. split; [done|]. split; [exact Hsrv2|].
  intros i q m c Hi Hm Hc.
  assert (Hq : Some q ∈ clients srv) by (apply list_elem_of_lookup; by exists i).
  rewrite (Hothers q (Hthis q Hq)), (Hh1 q (Hthis q Hq)), Hc. simpl.
  rewrite (routed_single _ q (messages r) (clients srv) i m Hm Hi); [done|].
  intros j Hne _ Hj. apply Hne. by eapply NoDup_lookup.
Qed.

Lemma round_through_upstream_witness :
  ∃ st1 st2,
    Server__send_to (mkEnv [] [(-1, true); (34, false)] [] false (-1)
                       true true true)
      3%N (state_after two_staged_events) = Ok tt st1
    ∧ Server__recv_from Resp.split (reading (pong ++ nil_reply) (-1)) 3%N st1
      = Ok tt st2
    ∧ heap st2 !! 1%N = Some (AClient (mkClient 5 (ping ++ pong) (Some 3%N)))
    ∧ heap st2 !! 2%N = Some (AClient (mkClient 7 (get_x ++ nil_reply) (Some 3%N))).
Proof.
  destruct (round_through_upstream Resp.split
              (mkEnv [] [(-1, true); (34, false)] [] false (-1) true true true)
              (reading (pong ++ nil_reply) (-1)) 3%N
              (mkServer 6 [] [Some 1%N; Some 2%N] [])
              (state_after two_staged_events) [ping; get_x]
              [(-1, true)] [] false
              (mkSplit [(0, 7); (7, 12)]%nat true 12%nat))
    as (st1 & st2 & Hsend & Hrecv & _ & Hclients).
  - apply (reachable_wf Resp.split). apply state_after_reachable.
    eexists. vm_compute. reflexivity.
  - vm_compute. reflexivity.
  - discriminate.
  - reflexivity.
  - simpl. apply NoDup_cons. split; [|apply NoDup_singleton].
    intros Hin. apply list_elem_of_singleton in Hin. discriminate.
  - vm_compute. reflexivity.
  - reflexivity.
  - repeat constructor; simpl; lia.
  - reflexivity.
  - discriminate.
  - vm_compute. reflexivity.
  - simpl. lia.
  - exists st1, st2. split; [done|]. split; [done|]. split.
    + apply (Hclients 0%nat 1%N (0, 7)%nat (mkClient 5 ping (Some 3%N)));
        [reflexivity|reflexivity|vm_compute; reflexivity].
    + apply (Hclients 1%nat 2%N (7, 12)%nat (mkClient 7 get_x (Some 3%N)));
        [reflexivity|reflexivity|vm_compute; reflexivity].
Defined.

(** ** The pointers of the interest list *)

Lemma wp_conj {A} (m : M A) (Q1 Q2 : A → Process → Prop) st :
  wp m Q1 st → wp m Q2 st → wp m (λ a st', Q1 a st' ∧ Q2 a st') st.
Proof. unfold wp. by destruct (m st). Qed.

Lemma rl_frame st st' :
  regs_live st → epoll st' = epoll st → heap st' = heap st → regs_live st'.
Proof. intros Hrl He Hh fd reg. rewrite He, Hh. apply Hrl. Qed.

Lemma rl_put st st' p c c' :
  regs_live st →
  heap st !! p = Some c →
  heap st' = <[p := c']> (heap st) →
  epoll st' = epoll st →
  fd_of c' = fd_of c →
  regs_live st'.
Proof.
  intros Hrl Hp Hh He Hfd fd reg. rewrite He, Hh. intros Hreg.
  destruct (Hrl fd reg Hreg) as (d & Hd & Hfdd).
  destruct (decide (data_ptr reg = p)) as [Heq|Hne].
  - rewrite Heq in *. rewrite lookup_insert_eq. exists c'. split; [done|].
    congruence.
  - rewrite lookup_insert_ne by done. eauto.
Qed.

Lemma rl_mod st st' p c m :
  regs_live st →
  heap st !! p = Some c →
  epoll st' = <[fd_of c := mkEvent m p]> (epoll st) →
  heap st' = heap st →
  regs_live st'.
Proof.
  intros Hrl Hp He Hh fd reg. rewrite He, Hh.
  destruct (decide (fd = fd_of c)) as [->|Hne].
  - rewrite lookup_insert_eq. intros [= <-]. simpl. eauto.
  - rewrite lookup_insert_ne by done. apply Hrl.
Qed.

Lemma rl_free st st' p c :
  regs_live st →
  heap st !! p = Some c →
  epoll st' = delete (fd_of c) (epoll st) →
  heap st' = delete p (heap st) →
  regs_live st'.
Proof.
  intros Hrl Hp He Hh fd reg. rewrite He, Hh.
  rewrite lookup_delete_Some. intros [Hne Hreg].
  destruct (Hrl fd reg Hreg) as (d & Hd & Hfd).
  exists d. split; [|done].
  rewrite lookup_delete_ne; [done|]. intros Heq. rewrite Heq in Hp. congruence.
Qed.

Lemma rl_new st st' c m :
  regs_live st →
  wf st →
  heap st' = <[brk st := c]> (heap st) →
  epoll st' = <[fd_of c := mkEvent m (brk st)]> (epoll st) →
  regs_live st'.
Proof.
  intros Hrl Hwf Hh He fd reg. rewrite He, Hh.
  destruct (decide (fd = fd_of c)) as [->|Hne].
  - rewrite lookup_insert_eq. intros [= <-]. simpl.
    rewrite lookup_insert_eq. eauto.
  - rewrite lookup_insert_ne by done. intros Hreg.
    destruct (Hrl fd reg Hreg) as (d & Hd & Hfd).
    exists d. split; [|done].
    rewrite lookup_insert_ne; [done|]. intros Heq.
    assert (brk st < brk st)%N; [|lia].
    apply (wf_brk st Hwf). rewrite Heq. eauto.
Qed.

Lemma Server_push_client_rl this cli st :
  regs_live st → wp (Server_push_client this cli) (λ _, regs_live) st.
Proof.
  intros Hrl. unfold Server_push_client.
  wp_go. apply wp_get_server. intros s Hs. wp_go.
  by eapply (rl_put st _ this (AServer s)).
Qed.

Lemma Server_pop_client_rl this cli st :
  regs_live st → wp (Server_pop_client this cli) (λ _, regs_live) st.
Proof.
  intros Hrl. unfold Server_pop_client.
  wp_go. apply wp_get_server. intros s Hs. wp_go.
  by eapply (rl_put st _ this (AServer s)).
Qed.

Lemma delete_Client_rl this st :
  regs_live st → wp (delete_Client this) (λ _, regs_live) st.
Proof.
  intros Hrl. unfold delete_Client, Proxy_shut_client.
  wp_go.
  assert (Hpop : wp (match server_conn st with
                     | Some svr => Server_pop_client svr this
                     | None => mret tt
                     end) (λ _, regs_live) st).
  { destruct (server_conn st) as [svr|];
      [by apply Server_pop_client_rl|by apply wp_ret]. }
  eapply wp_mono; [|exact Hpop]. clear Hpop.
  intros [] st1 Hrl1. cbv beta.
  wp_go. apply wp_get_client. intros c Hc.
  wp_go. apply wp_epoll_ctl_del. intros r.
  wp_go. apply wp_get_client. intros c' Hc'. simpl in Hc'.
  assert (c' = c) as -> by congruence.
  wp_go.
  eapply (rl_free st1 _ this (AClient c)); [done..| |done].
  simpl. by rewrite delete_delete_eq.
Qed.

Lemma delete_Server_rl this st :
  regs_live st → wp (delete_Server this) (λ _, regs_live) st.
Proof.
  intros Hrl. unfold delete_Server, Proxy_shut_server.
  wp_go. apply wp_get_server. intros s Hs. simpl in Hs.
  wp_go.
  by eapply (rl_free st _ this (AServer s)).
Qed.

Lemma Proxy_notify_each_rl : ∀ range st,
  regs_live st →
  wp (Proxy_notify_each range) (λ _ st', regs_live st' ∧ heap st' = heap st) st.
Proof.
  induction range as [|[cli|] range IH]; intros st Hrl; simpl.
  - by apply wp_ret.
  - wp_go. apply wp_get_client. intros c Hc.
    wp_go. apply wp_epoll_ctl_mod; [intros _|]; simpl; [|apply wp_exit].
    eapply wp_mono; [|apply IH].
    + by intros _ st' [? ->].
    + by eapply (rl_mod st _ cli (AClient c)).
  - by apply IH.
Qed.

Lemma Proxy_connect_to_rl env st :
  wf st → regs_live st → wp (Proxy_connect_to env) (λ _, regs_live) st.
Proof.
  intros Hwf Hrl. unfold Proxy_connect_to.
  wp_go. destruct (server_conn st) as [svr|] eqn:Hconn; [by apply wp_ret|].
  wp_go. destruct (env_socket env <? 0); [apply wp_exit|].
  wp_go. apply set_nonblocking_wf.
  destruct (env_gethostbyname env); simpl; [|apply wp_exit].
  wp_go. apply wp_epoll_ctl_add; [intros Hfree|]; simpl; [|apply wp_exit].
  wp_go. destruct (env_connect env); simpl; [|apply wp_exit].
  apply wp_ret.
  by eapply (rl_new st _ (AServer (mkServer (env_socket env) Buffer.empty [] []))).
Qed.

Lemma accept_loop_rl env : ∀ results st,
  wf st → regs_live st → wp (accept_loop env results) (λ _, regs_live) st.
Proof.
  induction results as [|conn_sock results IH]; intros st Hwf Hrl; simpl.
  - wp_go. by eapply rl_frame.
  - wp_go. destruct (conn_sock >? 0); [|wp_go; by eapply rl_frame].
    wp_go. apply set_nonblocking_wf.
    wp_go. apply wp_epoll_ctl_add; [intros Hfree|]; simpl; [|apply wp_exit].
    apply IH.
    + by eapply (wf_new_client st); [exact Hwf|exact Hfree|..].
    + by eapply (rl_new st _ (AClient (mkClient conn_sock Buffer.empty None))).
Qed.

Lemma Acceptor_triggered_rl env this events st :
  wf st → regs_live st →
  wp (Acceptor_triggered env this events) (λ _, regs_live) st.
Proof.
  intros Hwf Hrl. unfold Acceptor_triggered, Proxy_accept_from.
  wp_go. destruct (heap st !! this) as [[fd|s|c]|]; try apply wp_undefined.
  wp_go. eapply wp_mono; [|by apply accept_loop_rl].
  intros r st' Hrl'. cbv beta.
  destruct ((r =? -1) && env_accept_fatal env); [apply wp_exit|by apply wp_ret].
Qed.

Lemma Server__send_to_rl env this st :
  regs_live st → wp (Server__send_to env this) (λ _, regs_live) st.
Proof.
  intros Hrl. unfold wp.
  destruct (Server__send_to env this st) as [[] st'| | |] eqn:Hrun; try done.
  destruct (heap st !! this) as [[fd|srv|c]|] eqn:Hthis;
    try (unfold Server__send_to in Hrun; rewrite bind_unfold in Hrun;
         unfold get_server in Hrun; by rewrite Hthis in Hrun).
  destruct (decide (clients srv = [])) as [Hstaged|Hstaged].
  { rewrite (Server__send_to_skips env this srv st Hthis) in Hrun by auto.
    by injection Hrun as <-. }
  destruct (decide (ready_clients srv = [])) as [Hpending|Hpending].
  2:{ rewrite (Server__send_to_skips env this srv st Hthis) in Hrun by auto.
      by injection Hrun as <-. }
  destruct (Server__send_to_effect _ _ _ _ _ Hthis Hstaged Hpending Hrun)
    as (bufs & attempts & Hbufs & _ & ->).
  set (moved := mkServer (s_fd srv) (_buffer srv) [] (clients srv)).
  assert (Hrl1 : regs_live (set_heap <[this := AServer moved]> st)).
  { by eapply (rl_put st _ this (AServer srv)). }
  eapply (rl_mod _ _ this (AServer moved)); [exact Hrl1|..].
  - simpl. apply lookup_insert_eq.
  - reflexivity.
  - reflexivity.
Qed.

Lemma copy_messages_rl buf ready : ∀ ms it st,
  regs_live st →
  wp (copy_messages buf ready it ms)
     (λ _ st', regs_live st'
               ∧ ∀ p s, heap st !! p = Some (AServer s) →
                        heap st' !! p = Some (AServer s)) st.
Proof.
  induction ms as [|m ms IH]; intros it st Hrl; simpl.
  - by apply wp_ret.
  - destruct (ready !! it) as [[cli|]|]; [|by apply IH|apply wp_undefined].
    wp_go. apply wp_get_client. intros c Hc. wp_go.
    eapply wp_mono; [|apply IH].
    + intros _ st' [Hrl' Hsrv]. split; [done|].
      intros p s Hp. apply Hsrv. simpl.
      rewrite lookup_insert_ne; [done|congruence].
    + by eapply (rl_put st _ cli (AClient c)).
Qed.

Lemma Server__recv_from_rl split env this st :
  regs_live st → wp (Server__recv_from split env this) (λ _, regs_live) st.
Proof.
  intros Hrl. unfold Server__recv_from.
  wp_go. apply wp_get_server. intros srv Hsrv.
  unfold Buffer.read. wp_go.
  set (buf := _buffer srv ++ env_read env).
  set (st1 := set_heap _ (log _ st)).
  assert (Hrl1 : regs_live st1).
  { by eapply (rl_put st _ this (AServer srv)). }
  assert (Hsrv1 : heap st1 !! this
                  = Some (AServer (mkServer (s_fd srv) buf (clients srv)
                                            (ready_clients srv))))
    by apply lookup_insert_eq.
  destruct (Z.of_nat (length (env_read env)) =? 0); [by apply wp_ret|].
  destruct (split buf) as [msgs|]; [|apply wp_exit].
  destruct (_ >? _); [apply wp_then_exit|].
  wp_go. eapply wp_mono; [|by apply copy_messages_rl].
  intros client_it st2 [Hrl2 Hkeep]. cbv beta.
  wp_go. eapply wp_mono; [|by apply Proxy_notify_each_rl].
  intros [] st3 [Hrl3 Hheap3]. cbv beta.
  assert (Hsrv3 : heap st3 !! this
                  = Some (AServer (mkServer (s_fd srv) buf (clients srv)
                                            (ready_clients srv)))).
  { rewrite Hheap3. by apply Hkeep. }
  wp_go.
  match goal with
  | |- wp _ _ ?s => assert (Hrl4 : regs_live s); [|set (st4 := s) in *]
  end.
  { by eapply (rl_put st3 _ this (AServer _)); [exact Hrl3|exact Hsrv3|..]. }
  apply wp_epoll_ctl_mod; [intros _|]; simpl; [|apply wp_exit].
  apply wp_ret.
  by eapply (rl_mod st4 _ this (AServer _)); [exact Hrl4|apply lookup_insert_eq|..].
Qed.

Lemma Server_triggered_rl split env this events st :
  regs_live st → wp (Server_triggered split env this events) (λ _, regs_live) st.
Proof.
  intros Hrl. unfold Server_triggered.
  destruct (flag events EPOLLRDHUP); [by apply delete_Server_rl|].
  wp_go.
  assert (Hrecv : wp (if flag events EPOLLIN
                      then Server__recv_from split env this else mret tt)
                     (λ _, regs_live) st).
  { destruct (flag events EPOLLIN);
      [by apply Server__recv_from_rl|by apply wp_ret]. }
  eapply wp_mono; [|exact Hrecv].
  intros [] st' Hrl'. cbv beta.
  destruct (flag events EPOLLOUT);
    [by apply Server__send_to_rl|by apply wp_ret].
Qed.

Lemma Client__send_to_rl this st :
  regs_live st → wp (Client__send_to this) (λ _, regs_live) st.
Proof.
  intros Hrl. unfold Client__send_to.
  wp_go. apply wp_get_client. intros c Hc. wp_go.
  match goal with
  | |- wp _ _ ?s => assert (Hrl1 : regs_live s); [|set (st1 := s) in *]
  end.
  { by eapply (rl_put st _ this (AClient c)). }
  apply wp_epoll_ctl_mod; [intros _|]; simpl; [|apply wp_exit].
  apply wp_ret.
  by eapply (rl_mod st1 _ this (AClient _)); [exact Hrl1|apply lookup_insert_eq|..].
Qed.

Lemma Client__recv_from_rl env this st :
  wf st → regs_live st → wp (Client__recv_from env this) (λ _, regs_live) st.
Proof.
  intros Hwf Hrl. unfold Client__recv_from.
  wp_go. apply wp_get_client. intros c Hc. wp_go.
  assert (Hpeer : wp (match peer c with
                      | Some p => mret p
                      | None =>
                          p ← Proxy_connect_to env;
                          put this (AClient (mkClient (c_fd c) (buffer c) (Some p)));;
                          mret p
                      end)
                     (λ _, regs_live) st).
  { destruct (peer c) as [p|]; [by apply wp_ret|].
    wp_go. eapply wp_mono;
      [|apply wp_conj; [by apply Proxy_connect_to_wf|by apply Proxy_connect_to_rl]].
    intros p st1 [[_ Hkeep] Hrl1]. cbv beta. wp_go.
    by eapply (rl_put st1 _ this (AClient c)); [exact Hrl1|apply Hkeep, Hc|..]. }
  eapply wp_mono; [|exact Hpeer]. clear Hpeer.
  intros svr st1 Hrl1. cbv beta.
  wp_go. eapply wp_mono; [|by apply Server_push_client_rl].
  intros [] st2 Hrl2. cbv beta.
  wp_go. apply wp_get_client. intros c2 Hc2.
  unfold Buffer.read. wp_go.
  match goal with
  | |- wp _ _ ?s => assert (Hrl3 : regs_live s); [|set (st3 := s) in *]
  end.
  { by eapply (rl_put st2 _ this (AClient c2)). }
  destruct (Z.of_nat (length (env_read env)) =? 0);
    [by apply delete_Client_rl|].
  wp_go. apply wp_get_server. intros s Hs.
  wp_go. apply wp_epoll_ctl_mod; [intros _|]; simpl; [|apply wp_exit].
  apply wp_ret.
  by eapply (rl_mod st3 _ svr (AServer s)).
Qed.

Lemma Client_triggered_rl env this events st :
  wf st → regs_live st →
  wp (Client_triggered env this events) (λ _, regs_live) st.
Proof.
  intros Hwf Hrl. unfold Client_triggered.
  destruct (flag events EPOLLRDHUP); [by apply delete_Client_rl|].
  wp_go.
  assert (Hrecv : wp (if flag events EPOLLIN
                      then Client__recv_from env this else mret tt)
                     (λ _, regs_live) st).
  { destruct (flag events EPOLLIN);
      [by apply Client__recv_from_rl|by apply wp_ret]. }
  eapply wp_mono; [|exact Hrecv].
  intros [] st' Hrl'. cbv beta.
  destruct (flag events EPOLLOUT);
    [by apply Client__send_to_rl|by apply wp_ret].
Qed.

Lemma dispatch_rl split e st :
  wf st → regs_live st → wp (dispatch split e) (λ _, regs_live) st.
Proof.
  intros Hwf Hrl. unfold dispatch. wp_go.
  destruct (epoll st !! ev_fd e) as [reg|]; [|by apply wp_ret].
  unfold triggered. wp_go.
  destruct (heap st !! data_ptr reg) as [[fd|s|c]|].
  - by apply Acceptor_triggered_rl.
  - by apply Server_triggered_rl.
  - by apply Client_triggered_rl.
  - apply wp_undefined.
Qed.

Lemma reachable_rl split st : reachable split st → regs_live st.
Proof.
  induction 1 as [listen_fd|st e st' Hreach IH [_ Hrun]].
  - intros fd reg. simpl. rewrite lookup_singleton_Some. intros [<- <-].
    simpl. rewrite lookup_singleton_eq. eauto.
  - apply (wp_elim _ _ _ _ _
             (dispatch_rl split e st (reachable_wf split st Hreach) IH) Hrun).
Qed.

(** X18.  In every state the loop reaches, the interest list and the
    live objects correspond one to one: each live object has its
    descriptor registered with [data.ptr] pointing back to it, each
    registration carries the address of a live object with that
    descriptor, and two live objects never share a descriptor.  So the
    pointer [loop] takes from an event always addresses a live
    object. *)
Theorem registrations_match_objects (split : list byte → option SplitResult)
    (st : Process) :
  reachable split st →
  (∀ p c, heap st !! p = Some c →
     ∃ reg, epoll st !! fd_of c = Some reg ∧ data_ptr reg = p)
  ∧ (∀ fd reg, epoll st !! fd = Some reg →
       ∃ c, heap st !! data_ptr reg = Some c ∧ fd_of c = fd)
  ∧ (∀ p q c d, heap st !! p = Some c → heap st !! q = Some d →
       fd_of c = fd_of d → p = q)
  ∧ (∀ e, may_report st e = true →
       ∃ reg c, epoll st !! ev_fd e = Some reg
                ∧ heap st !! data_ptr reg = Some c
                ∧ dispatch split e st
                  = triggered split (ev_env e) (data_ptr reg) (ev_events e) st).
Proof.
  intros Hreach.
  pose proof (reachable_wf split st Hreach) as Hwf.
  pose proof (reachable_rl split st Hreach) as Hrl.
  split; [|split; [exact Hrl|split]].
  - intros p c Hp.
    destruct (wf_registered st Hwf p c Hp) as (reg & Hreg & Hptr & _). eauto.
  - intros p q c d. by apply wf_fd_inj.
  - intros e. unfold may_report.
    destruct (epoll st !! ev_fd e) as [reg|] eqn:Hreg; [|done]. intros _.
    destruct (Hrl _ _ Hreg) as (c & Hc & _).
    exists reg, c. split; [done|]. split; [done|].
    unfold dispatch. rewrite bind_unfold. simpl. by rewrite Hreg.
Qed.

Lemma registrations_match_objects_witness :
  ∃ c, heap (state_after hup_events) !! 2%N = Some c ∧ fd_of c = 6.
Proof.
  destruct (registrations_match_objects Resp.split (state_after hup_events))
    as (_ & Hregs & _).
  - apply state_after_reachable. eexists. vm_compute. reflexivity.
  - apply (Hregs 6 (mkEvent (Z.lor EPOLLIN EPOLLET) 2%N)).
    vm_compute. reflexivity.
Defined.

(** X19.  In every state the loop reaches there is at most one live
    upstream session, it is the one [server_conn] points to, and
    [server_conn] is null or points to a live upstream session:
    [Proxy::connect_to] creates a session only when [server_conn] is
    null, and [Proxy::shut_server] resets it when the session is
    destroyed. *)
Theorem single_upstream_session (split : list byte → option SplitResult)
    (st : Process) :
  reachable split st →
  (∀ p s, heap st !! p = Some (AServer s) → server_conn st = Some p)
  ∧ (∀ p q s s', heap st !! p = Some (AServer s) →
       heap st !! q = Some (AServer s') → p = q)
  ∧ (∀ p, server_conn st = Some p → ∃ s, heap st !! p = Some (AServer s)).
Proof.
  intros Hreach.
  pose proof (reachable_wf split st Hreach) as Hwf.
  split; [apply (wf_singleton st Hwf)|split; [|apply (wf_conn st Hwf)]].
  intros p q s s' Hp Hq.
  apply (wf_singleton st Hwf) in Hp, Hq. congruence.
Qed.

Lemma single_upstream_session_witness :
  server_conn (state_after two_pending_events) = Some 3%N.
Proof.
  destruct (single_upstream_session Resp.split (state_after two_pending_events))
    as (Hconn & _).
  - apply state_after_reachable. eexists. vm_compute. reflexivity.
  - apply (Hconn 3%N (mkServer 6 [] [] [Some 1%N; Some 2%N])).
    vm_compute. reflexivity.
Defined.

(** ** [Client::triggered]: readable and writable at once *)

(** X20.  [Client::triggered] for an event that carries EPOLLIN and
    EPOLLOUT and no EPOLLRDHUP, on a live client of the live upstream
    session, when the read brings bytes: [_recv_from] runs first, then
    [_send_to].  The bytes just read are written back to the client's
    descriptor after what the buffer held, the client is left staged
    with an empty buffer, and the system calls are the read, the
    [epoll_ctl] on the upstream descriptor, the write and the
    [epoll_ctl] on the client's descriptor. *)
Theorem client_triggered_read_then_write (env : Env) (this svr : ptr)
    (c : Client) (srv : Server) (events : Z) (st : Process) :
  wf st →
  heap st !! this = Some (AClient c) →
  server_conn st = Some svr →
  heap st !! svr = Some (AServer srv) →
  peer c = None ∨ peer c = Some svr →
  flag events EPOLLRDHUP = false →
  flag events EPOLLIN = true →
  flag events EPOLLOUT = true →
  env_read env ≠ [] →
  ∃ st',
    Client_triggered env this events st = Ok tt st'
    ∧ heap st' !! this = Some (AClient (mkClient (c_fd c) [] (Some svr)))
    ∧ heap st' !! svr
      = Some (AServer (mkServer (s_fd srv) (_buffer srv)
                         (clients srv ++ [Some this]) (ready_clients srv)))
    ∧ epoll st' !! c_fd c = Some (mkEvent (Z.lor EPOLLIN EPOLLET) this)
    ∧ syscalls st'
      = syscalls st ++
        [sys_read (c_fd c) (env_read env);
         sys_epoll_mod (s_fd srv)
           (mkEvent (Z.lor (Z.lor EPOLLIN EPOLLOUT) EPOLLET) svr) 0;
         sys_write (c_fd c) (buffer c ++ env_read env);
         sys_epoll_mod (c_fd c) (mkEvent (Z.lor EPOLLIN EPOLLET) this) 0].
Proof.
  intros Hwf Hc Hconn Hsrv Hpeer Hhup Hin Hout Hdata.
  assert (Hne : this ≠ svr) by congruence.
  destruct (wf_registered st Hwf this _ Hc) as (regc & Hregc & _).
  destruct (wf_registered st Hwf svr _ Hsrv) as (regs & Hregs & _).
  simpl in Hregc, Hregs.
  assert (Hfd : c_fd c ≠ s_fd srv).
  { intros Heq. apply Hne.
    by apply (wf_fd_inj st this svr (AClient c) (AServer srv)). }
  unfold Client_triggered. rewrite Hhup, Hin, Hout.
  rewrite bind_unfold.
  rewrite (Client__recv_from_steps env this c svr srv st Hc Hconn Hsrv Hpeer).
  replace (Z.of_nat (length (env_read env)) =? 0) with false.
  2:{ symmetry. apply Z.eqb_neq. destruct (env_read env); [done|simpl; lia]. }
  rewrite bind_unfold. unfold get_server. simpl.
  rewrite lookup_insert_ne, lookup_insert_eq by done.
  rewrite bind_unfold. unfold epoll_ctl_mod at 1. simpl. rewrite Hregs. simpl.
  unfold Client__send_to. rewrite bind_unfold. unfold get_client. simpl.
  rewrite lookup_insert_eq.
  repeat (rewrite bind_unfold; simpl).
  unfold epoll_ctl_mod. simpl.
  rewrite lookup_insert_ne, Hregc by done. simpl.
  eexists. split; [reflexivity|]. simpl.
  split; [apply lookup_insert_eq|].
  split.
  { rewrite lookup_insert_ne by done. rewrite lookup_insert_ne by done.
    apply lookup_insert_eq. }
  split; [apply lookup_insert_eq|].
  by rewrite <- !app_assoc.
Qed.

Lemma client_triggered_read_then_write_witness :
  may_report (state_after replied_events)
    (mkEv 5 (Z.lor EPOLLIN EPOLLOUT) (reading get_x (-1))) = true
  ∧ ∃ st',
      Client_triggered (reading get_x (-1)) 1%N (Z.lor EPOLLIN EPOLLOUT)
        (state_after replied_events) = Ok tt st'
      ∧ heap st' !! 1%N = Some (AClient (mkClient 5 [] (Some 2%N)))
      ∧ syscalls st'
        = syscalls (state_after replied_events) ++
          [sys_read 5 get_x;
           sys_epoll_mod 6
             (mkEvent (Z.lor (Z.lor EPOLLIN EPOLLOUT) EPOLLET) 2%N) 0;
           sys_write 5 ((ping ++ pong) ++ get_x);
           sys_epoll_mod 5 (mkEvent (Z.lor EPOLLIN EPOLLET) 1%N) 0].
Proof.
  split; [vm_compute; reflexivity|].
  destruct (client_triggered_read_then_write (reading get_x (-1)) 1%N 2%N
              (mkClient 5 (ping ++ pong) (Some 2%N))
              (mkServer 6 [] [] []) (Z.lor EPOLLIN EPOLLOUT)
              (state_after replied_events))
    as (st' & Hrun & Hthis & _ & _ & Hsys).
  - apply (reachable_wf Resp.split). apply state_after_reachable.
    eexists. vm_compute. reflexivity.
  - vm_compute. reflexivity.
  - vm_compute. reflexivity.
  - vm_compute. reflexivity.
  - by right.
  - reflexivity.
  - reflexivity.
  - reflexivity.
  - discriminate.
  - exists st'. split; [exact Hrun|]. split; [exact Hthis|exact Hsys].
Defined.
